(** * The conversion core of csv-to-md ([converter.py]), embedded and verified

    The development follows the data flow of the program:
    bytes -> decoder -> text -> parser -> (headers, rows) -> projector ->
    sorter -> renderer.  Part I embeds the program: first the pieces of the
    Python runtime the program calls (text methods, codecs, [float], [sorted],
    [csv.reader]), then the functions of [converter.py] under their own names
    and the script [csv_to_md.py] that calls them.
    Part II gives the notions the properties are stated with, Part III states
    and proves the properties.

    Conventions.  A Python [str] is a list of Unicode code points ([N]); a
    [bytes] object is a list of [byte].  A Python exception is a value of
    [exn]; a function that may raise returns a [result].  The one piece of
    shared mutable state of the program, the class [csv.excel] whose attributes
    [_parse_csv] assigns, is threaded explicitly through the functions that
    reach it (monad [M]).  The runtime modelled is CPython 3.11 (Unicode 14.0)
    on a little-endian machine.  Where a property is about a part of the body
    of a function of the source (the table of a header and rows, the lines of
    one record), that part has a definition and a name of its own. *)

From stdpp Require Import base numbers list gmap strings.
From Stdlib Require Import Strings.Byte QArith ZifyBool Sorted DecimalNat.

Open Scope N_scope.
Open Scope nat_scope.
Open Scope list_scope.

(** * Part I.  The runtime *)

(** ** Text *)

Definition char := N.
Definition str := list char.

(** A literal of the source, read one code point per character (ASCII only). *)
Fixpoint lit (s : string) : str :=
  match s with
  | EmptyString => []
  | String a s' => Ascii.N_of_ascii a :: lit s'
  end.

Definition str_eqb (a b : str) : bool := bool_decide (a = b).

(** Truthiness of a [str]: the empty text is false. *)
Definition truthy (s : str) : bool :=
  match s with [] => false | _ => true end.

(** [a or b] on texts. *)
Definition str_or (a b : str) : str := if truthy a then a else b.

Fixpoint startswith (s p : str) : bool :=
  match p, s with
  | [], _ => true
  | _ :: _, [] => false
  | x :: p', y :: s' => (x =? y)%N && startswith s' p'
  end.

Definition endswith (s p : str) : bool := startswith (rev s) (rev p).

(** [s.replace(old, new)]: occurrences are found left to right and do not
    overlap.  [skip] counts the characters of a match still to be passed. *)
Fixpoint replace_from (old new : str) (skip : nat) (s : str) : str :=
  match s with
  | [] => []
  | c :: t =>
      match skip with
      | S k => replace_from old new k t
      | O =>
          if startswith s old
          then new ++ replace_from old new (length old - 1) t
          else c :: replace_from old new 0 t
      end
  end.

Definition replace (old new s : str) : str :=
  match old with
  | [] => new ++ flat_map (fun c => c :: new) s
  | _ => replace_from old new 0 s
  end.

(** [s.count(sub)] for a non-empty [sub]. *)
Fixpoint count_from (sub : str) (skip : nat) (s : str) : nat :=
  match s with
  | [] => 0
  | _ :: t =>
      match skip with
      | S k => count_from sub k t
      | O =>
          if startswith s sub
          then S (count_from sub (length sub - 1) t)
          else count_from sub 0 t
      end
  end.

Definition count (sub s : str) : nat :=
  match sub with
  | [] => S (length s)
  | _ => count_from sub 0 s
  end.

(** [s.split(sep)] for a non-empty [sep]; [cur] is the piece being read. *)
Fixpoint split_from (sep : str) (skip : nat) (cur : str) (s : str) : list str :=
  match s with
  | [] => [cur]
  | c :: t =>
      match skip with
      | S k => split_from sep k cur t
      | O =>
          if startswith s sep
          then cur :: split_from sep (length sep - 1) [] t
          else split_from sep 0 (cur ++ [c]) t
      end
  end.

Definition split (sep s : str) : list str := split_from sep 0 [] s.

(** [sep.join(parts)] *)
Fixpoint join (sep : str) (parts : list str) : str :=
  match parts with
  | [] => []
  | [p] => p
  | p :: ps => p ++ sep ++ join sep ps
  end.

(** White space as [str.strip()] and [str.isspace()] see it. *)
Definition isspace (c : char) : bool :=
  ((0x9 <=? c) && (c <=? 0xD) || (0x1C <=? c) && (c <=? 0x20)
   || (c =? 0x85) || (c =? 0xA0) || (c =? 0x1680)
   || (0x2000 <=? c) && (c <=? 0x200A) || (c =? 0x2028) || (c =? 0x2029)
   || (c =? 0x202F) || (c =? 0x205F) || (c =? 0x3000))%N.

Fixpoint lstrip_by (f : char -> bool) (s : str) : str :=
  match s with
  | [] => []
  | c :: t => if f c then lstrip_by f t else s
  end.

Definition rstrip_by (f : char -> bool) (s : str) : str :=
  rev (lstrip_by f (rev s)).

Definition strip (s : str) : str := rstrip_by isspace (lstrip_by isspace s).
Definition rstrip (s : str) : str := rstrip_by isspace s.

Definition mem_char (chars : str) (c : char) : bool :=
  existsb (N.eqb c) chars.

(** [s.lstrip(chars)] *)
Definition lstrip_chars (chars s : str) : str := lstrip_by (mem_char chars) s.

(** *** Case

    The case mappings are those of Unicode 14.0, as the interpreter has them.
    A run [(a, b, step, t)] maps the code points [a], [a + step], ... up to
    [b] to [t], [t + step], ...; a range [(a, b)] is inclusive. *)

Definition run_lookup (runs : list (N * N * N * N)) (c : char) : option char :=
  match List.find (fun '(a, b, step, _) =>
                     (a <=? c) && (c <=? b) && ((c - a) mod step =? 0))%N runs with
  | Some (a, _, _, t) => Some (t + (c - a))%N
  | None => None
  end.

Definition in_ranges (ranges : list (N * N)) (c : char) : bool :=
  existsb (fun '(a, b) => (a <=? c) && (c <=? b))%N ranges.

(** Lowercase of single characters (all but U+0130, which has two). *)
Definition lower_runs : list (N * N * N * N) :=
  [(0x41, 0x5A, 1, 0x61); (0xC0, 0xD6, 1, 0xE0); (0xD8, 0xDE, 1, 0xF8);
   (0x100, 0x12E, 2, 0x101); (0x132, 0x136, 2, 0x133); (0x139, 0x147, 2, 0x13A);
   (0x14A, 0x176, 2, 0x14B); (0x178, 0x178, 1, 0xFF); (0x179, 0x17D, 2, 0x17A);
   (0x181, 0x181, 1, 0x253); (0x182, 0x184, 2, 0x183); (0x186, 0x186, 1, 0x254);
   (0x187, 0x187, 1, 0x188); (0x189, 0x18A, 1, 0x256); (0x18B, 0x18B, 1, 0x18C);
   (0x18E, 0x18E, 1, 0x1DD); (0x18F, 0x18F, 1, 0x259); (0x190, 0x190, 1, 0x25B);
   (0x191, 0x191, 1, 0x192); (0x193, 0x193, 1, 0x260); (0x194, 0x194, 1, 0x263);
   (0x196, 0x196, 1, 0x269); (0x197, 0x197, 1, 0x268); (0x198, 0x198, 1, 0x199);
   (0x19C, 0x19C, 1, 0x26F); (0x19D, 0x19D, 1, 0x272); (0x19F, 0x19F, 1, 0x275);
   (0x1A0, 0x1A4, 2, 0x1A1); (0x1A6, 0x1A6, 1, 0x280); (0x1A7, 0x1A7, 1, 0x1A8);
   (0x1A9, 0x1A9, 1, 0x283); (0x1AC, 0x1AC, 1, 0x1AD); (0x1AE, 0x1AE, 1, 0x288);
   (0x1AF, 0x1AF, 1, 0x1B0); (0x1B1, 0x1B2, 1, 0x28A); (0x1B3, 0x1B5, 2, 0x1B4);
   (0x1B7, 0x1B7, 1, 0x292); (0x1B8, 0x1B8, 1, 0x1B9); (0x1BC, 0x1BC, 1, 0x1BD);
   (0x1C4, 0x1C4, 1, 0x1C6); (0x1C5, 0x1C5, 1, 0x1C6); (0x1C7, 0x1C7, 1, 0x1C9);
   (0x1C8, 0x1C8, 1, 0x1C9); (0x1CA, 0x1CA, 1, 0x1CC); (0x1CB, 0x1DB, 2, 0x1CC);
   (0x1DE, 0x1EE, 2, 0x1DF); (0x1F1, 0x1F1, 1, 0x1F3); (0x1F2, 0x1F4, 2, 0x1F3);
   (0x1F6, 0x1F6, 1, 0x195); (0x1F7, 0x1F7, 1, 0x1BF); (0x1F8, 0x21E, 2, 0x1F9);
   (0x220, 0x220, 1, 0x19E); (0x222, 0x232, 2, 0x223); (0x23A, 0x23A, 1, 0x2C65);
   (0x23B, 0x23B, 1, 0x23C); (0x23D, 0x23D, 1, 0x19A); (0x23E, 0x23E, 1, 0x2C66);
   (0x241, 0x241, 1, 0x242); (0x243, 0x243, 1, 0x180); (0x244, 0x244, 1, 0x289);
   (0x245, 0x245, 1, 0x28C); (0x246, 0x24E, 2, 0x247); (0x370, 0x372, 2, 0x371);
   (0x376, 0x376, 1, 0x377); (0x37F, 0x37F, 1, 0x3F3); (0x386, 0x386, 1, 0x3AC);
   (0x388, 0x38A, 1, 0x3AD); (0x38C, 0x38C, 1, 0x3CC); (0x38E, 0x38F, 1, 0x3CD);
   (0x391, 0x3A1, 1, 0x3B1); (0x3A3, 0x3AB, 1, 0x3C3); (0x3CF, 0x3CF, 1, 0x3D7);
   (0x3D8, 0x3EE, 2, 0x3D9); (0x3F4, 0x3F4, 1, 0x3B8); (0x3F7, 0x3F7, 1, 0x3F8);
   (0x3F9, 0x3F9, 1, 0x3F2); (0x3FA, 0x3FA, 1, 0x3FB); (0x3FD, 0x3FF, 1, 0x37B);
   (0x400, 0x40F, 1, 0x450); (0x410, 0x42F, 1, 0x430); (0x460, 0x480, 2, 0x461);
   (0x48A, 0x4BE, 2, 0x48B); (0x4C0, 0x4C0, 1, 0x4CF); (0x4C1, 0x4CD, 2, 0x4C2);
   (0x4D0, 0x52E, 2, 0x4D1); (0x531, 0x556, 1, 0x561); (0x10A0, 0x10C5, 1, 0x2D00);
   (0x10C7, 0x10C7, 1, 0x2D27); (0x10CD, 0x10CD, 1, 0x2D2D); (0x13A0, 0x13EF, 1, 0xAB70);
   (0x13F0, 0x13F5, 1, 0x13F8); (0x1C90, 0x1CBA, 1, 0x10D0); (0x1CBD, 0x1CBF, 1, 0x10FD);
   (0x1E00, 0x1E94, 2, 0x1E01); (0x1E9E, 0x1E9E, 1, 0xDF); (0x1EA0, 0x1EFE, 2, 0x1EA1);
   (0x1F08, 0x1F0F, 1, 0x1F00); (0x1F18, 0x1F1D, 1, 0x1F10); (0x1F28, 0x1F2F, 1, 0x1F20);
   (0x1F38, 0x1F3F, 1, 0x1F30); (0x1F48, 0x1F4D, 1, 0x1F40); (0x1F59, 0x1F5F, 2, 0x1F51);
   (0x1F68, 0x1F6F, 1, 0x1F60); (0x1F88, 0x1F8F, 1, 0x1F80); (0x1F98, 0x1F9F, 1, 0x1F90);
   (0x1FA8, 0x1FAF, 1, 0x1FA0); (0x1FB8, 0x1FB9, 1, 0x1FB0); (0x1FBA, 0x1FBB, 1, 0x1F70);
   (0x1FBC, 0x1FBC, 1, 0x1FB3); (0x1FC8, 0x1FCB, 1, 0x1F72); (0x1FCC, 0x1FCC, 1, 0x1FC3);
   (0x1FD8, 0x1FD9, 1, 0x1FD0); (0x1FDA, 0x1FDB, 1, 0x1F76); (0x1FE8, 0x1FE9, 1, 0x1FE0);
   (0x1FEA, 0x1FEB, 1, 0x1F7A); (0x1FEC, 0x1FEC, 1, 0x1FE5); (0x1FF8, 0x1FF9, 1, 0x1F78);
   (0x1FFA, 0x1FFB, 1, 0x1F7C); (0x1FFC, 0x1FFC, 1, 0x1FF3); (0x2126, 0x2126, 1, 0x3C9);
   (0x212A, 0x212A, 1, 0x6B); (0x212B, 0x212B, 1, 0xE5); (0x2132, 0x2132, 1, 0x214E);
   (0x2160, 0x216F, 1, 0x2170); (0x2183, 0x2183, 1, 0x2184); (0x24B6, 0x24CF, 1, 0x24D0);
   (0x2C00, 0x2C2F, 1, 0x2C30); (0x2C60, 0x2C60, 1, 0x2C61); (0x2C62, 0x2C62, 1, 0x26B);
   (0x2C63, 0x2C63, 1, 0x1D7D); (0x2C64, 0x2C64, 1, 0x27D); (0x2C67, 0x2C6B, 2, 0x2C68);
   (0x2C6D, 0x2C6D, 1, 0x251); (0x2C6E, 0x2C6E, 1, 0x271); (0x2C6F, 0x2C6F, 1, 0x250);
   (0x2C70, 0x2C70, 1, 0x252); (0x2C72, 0x2C72, 1, 0x2C73); (0x2C75, 0x2C75, 1, 0x2C76);
   (0x2C7E, 0x2C7F, 1, 0x23F); (0x2C80, 0x2CE2, 2, 0x2C81); (0x2CEB, 0x2CED, 2, 0x2CEC);
   (0x2CF2, 0x2CF2, 1, 0x2CF3); (0xA640, 0xA66C, 2, 0xA641); (0xA680, 0xA69A, 2, 0xA681);
   (0xA722, 0xA72E, 2, 0xA723); (0xA732, 0xA76E, 2, 0xA733); (0xA779, 0xA77B, 2, 0xA77A);
   (0xA77D, 0xA77D, 1, 0x1D79); (0xA77E, 0xA786, 2, 0xA77F); (0xA78B, 0xA78B, 1, 0xA78C);
   (0xA78D, 0xA78D, 1, 0x265); (0xA790, 0xA792, 2, 0xA791); (0xA796, 0xA7A8, 2, 0xA797);
   (0xA7AA, 0xA7AA, 1, 0x266); (0xA7AB, 0xA7AB, 1, 0x25C); (0xA7AC, 0xA7AC, 1, 0x261);
   (0xA7AD, 0xA7AD, 1, 0x26C); (0xA7AE, 0xA7AE, 1, 0x26A); (0xA7B0, 0xA7B0, 1, 0x29E);
   (0xA7B1, 0xA7B1, 1, 0x287); (0xA7B2, 0xA7B2, 1, 0x29D); (0xA7B3, 0xA7B3, 1, 0xAB53);
   (0xA7B4, 0xA7C2, 2, 0xA7B5); (0xA7C4, 0xA7C4, 1, 0xA794); (0xA7C5, 0xA7C5, 1, 0x282);
   (0xA7C6, 0xA7C6, 1, 0x1D8E); (0xA7C7, 0xA7C9, 2, 0xA7C8); (0xA7D0, 0xA7D0, 1, 0xA7D1);
   (0xA7D6, 0xA7D8, 2, 0xA7D7); (0xA7F5, 0xA7F5, 1, 0xA7F6); (0xFF21, 0xFF3A, 1, 0xFF41);
   (0x10400, 0x10427, 1, 0x10428); (0x104B0, 0x104D3, 1, 0x104D8); (0x10570, 0x1057A, 1, 0x10597);
   (0x1057C, 0x1058A, 1, 0x105A3); (0x1058C, 0x10592, 1, 0x105B3); (0x10594, 0x10595, 1, 0x105BB);
   (0x10C80, 0x10CB2, 1, 0x10CC0); (0x118A0, 0x118BF, 1, 0x118C0); (0x16E40, 0x16E5F, 1, 0x16E60);
   (0x1E900, 0x1E921, 1, 0x1E922)]%N.

(** Characters with the property Cased (those that are also
    Case_Ignorable left out: the context rule below never asks for them). *)
Definition cased_ranges : list (N * N) :=
  [(0x41, 0x5A); (0x61, 0x7A); (0xAA, 0xAA); (0xB5, 0xB5);
   (0xBA, 0xBA); (0xC0, 0xD6); (0xD8, 0xF6); (0xF8, 0x1BA);
   (0x1BC, 0x1BF); (0x1C4, 0x293); (0x295, 0x2AF); (0x370, 0x373);
   (0x376, 0x377); (0x37B, 0x37D); (0x37F, 0x37F); (0x386, 0x386);
   (0x388, 0x38A); (0x38C, 0x38C); (0x38E, 0x3A1); (0x3A3, 0x3F5);
   (0x3F7, 0x481); (0x48A, 0x52F); (0x531, 0x556); (0x560, 0x588);
   (0x10A0, 0x10C5); (0x10C7, 0x10C7); (0x10CD, 0x10CD); (0x10D0, 0x10FA);
   (0x10FD, 0x10FF); (0x13A0, 0x13F5); (0x13F8, 0x13FD); (0x1C80, 0x1C88);
   (0x1C90, 0x1CBA); (0x1CBD, 0x1CBF); (0x1D00, 0x1D2B); (0x1D6B, 0x1D77);
   (0x1D79, 0x1D9A); (0x1E00, 0x1F15); (0x1F18, 0x1F1D); (0x1F20, 0x1F45);
   (0x1F48, 0x1F4D); (0x1F50, 0x1F57); (0x1F59, 0x1F59); (0x1F5B, 0x1F5B);
   (0x1F5D, 0x1F5D); (0x1F5F, 0x1F7D); (0x1F80, 0x1FB4); (0x1FB6, 0x1FBC);
   (0x1FBE, 0x1FBE); (0x1FC2, 0x1FC4); (0x1FC6, 0x1FCC); (0x1FD0, 0x1FD3);
   (0x1FD6, 0x1FDB); (0x1FE0, 0x1FEC); (0x1FF2, 0x1FF4); (0x1FF6, 0x1FFC);
   (0x2102, 0x2102); (0x2107, 0x2107); (0x210A, 0x2113); (0x2115, 0x2115);
   (0x2119, 0x211D); (0x2124, 0x2124); (0x2126, 0x2126); (0x2128, 0x2128);
   (0x212A, 0x212D); (0x212F, 0x2134); (0x2139, 0x2139); (0x213C, 0x213F);
   (0x2145, 0x2149); (0x214E, 0x214E); (0x2160, 0x217F); (0x2183, 0x2184);
   (0x24B6, 0x24E9); (0x2C00, 0x2C7B); (0x2C7E, 0x2CE4); (0x2CEB, 0x2CEE);
   (0x2CF2, 0x2CF3); (0x2D00, 0x2D25); (0x2D27, 0x2D27); (0x2D2D, 0x2D2D);
   (0xA640, 0xA66D); (0xA680, 0xA69B); (0xA722, 0xA76F); (0xA771, 0xA787);
   (0xA78B, 0xA78E); (0xA790, 0xA7CA); (0xA7D0, 0xA7D1); (0xA7D3, 0xA7D3);
   (0xA7D5, 0xA7D9); (0xA7F5, 0xA7F6); (0xA7FA, 0xA7FA); (0xAB30, 0xAB5A);
   (0xAB60, 0xAB68); (0xAB70, 0xABBF); (0xFB00, 0xFB06); (0xFB13, 0xFB17);
   (0xFF21, 0xFF3A); (0xFF41, 0xFF5A); (0x10400, 0x1044F); (0x104B0, 0x104D3);
   (0x104D8, 0x104FB); (0x10570, 0x1057A); (0x1057C, 0x1058A); (0x1058C, 0x10592);
   (0x10594, 0x10595); (0x10597, 0x105A1); (0x105A3, 0x105B1); (0x105B3, 0x105B9);
   (0x105BB, 0x105BC); (0x10C80, 0x10CB2); (0x10CC0, 0x10CF2); (0x118A0, 0x118DF);
   (0x16E40, 0x16E7F); (0x1D400, 0x1D454); (0x1D456, 0x1D49C); (0x1D49E, 0x1D49F);
   (0x1D4A2, 0x1D4A2); (0x1D4A5, 0x1D4A6); (0x1D4A9, 0x1D4AC); (0x1D4AE, 0x1D4B9);
   (0x1D4BB, 0x1D4BB); (0x1D4BD, 0x1D4C3); (0x1D4C5, 0x1D505); (0x1D507, 0x1D50A);
   (0x1D50D, 0x1D514); (0x1D516, 0x1D51C); (0x1D51E, 0x1D539); (0x1D53B, 0x1D53E);
   (0x1D540, 0x1D544); (0x1D546, 0x1D546); (0x1D54A, 0x1D550); (0x1D552, 0x1D6A5);
   (0x1D6A8, 0x1D6C0); (0x1D6C2, 0x1D6DA); (0x1D6DC, 0x1D6FA); (0x1D6FC, 0x1D714);
   (0x1D716, 0x1D734); (0x1D736, 0x1D74E); (0x1D750, 0x1D76E); (0x1D770, 0x1D788);
   (0x1D78A, 0x1D7A8); (0x1D7AA, 0x1D7C2); (0x1D7C4, 0x1D7CB); (0x1DF00, 0x1DF09);
   (0x1DF0B, 0x1DF1E); (0x1E900, 0x1E943); (0x1F130, 0x1F149); (0x1F150, 0x1F169);
   (0x1F170, 0x1F189)]%N.

(** Characters with the property Case_Ignorable. *)
Definition case_ignorable_ranges : list (N * N) :=
  [(0x27, 0x27); (0x2E, 0x2E); (0x3A, 0x3A); (0x5E, 0x5E);
   (0x60, 0x60); (0xA8, 0xA8); (0xAD, 0xAD); (0xAF, 0xAF);
   (0xB4, 0xB4); (0xB7, 0xB8); (0x2B0, 0x36F); (0x374, 0x375);
   (0x37A, 0x37A); (0x384, 0x385); (0x387, 0x387); (0x483, 0x489);
   (0x559, 0x559); (0x55F, 0x55F); (0x591, 0x5BD); (0x5BF, 0x5BF);
   (0x5C1, 0x5C2); (0x5C4, 0x5C5); (0x5C7, 0x5C7); (0x5F4, 0x5F4);
   (0x600, 0x605); (0x610, 0x61A); (0x61C, 0x61C); (0x640, 0x640);
   (0x64B, 0x65F); (0x670, 0x670); (0x6D6, 0x6DD); (0x6DF, 0x6E8);
   (0x6EA, 0x6ED); (0x70F, 0x70F); (0x711, 0x711); (0x730, 0x74A);
   (0x7A6, 0x7B0); (0x7EB, 0x7F5); (0x7FA, 0x7FA); (0x7FD, 0x7FD);
   (0x816, 0x82D); (0x859, 0x85B); (0x888, 0x888); (0x890, 0x891);
   (0x898, 0x89F); (0x8C9, 0x902); (0x93A, 0x93A); (0x93C, 0x93C);
   (0x941, 0x948); (0x94D, 0x94D); (0x951, 0x957); (0x962, 0x963);
   (0x971, 0x971); (0x981, 0x981); (0x9BC, 0x9BC); (0x9C1, 0x9C4);
   (0x9CD, 0x9CD); (0x9E2, 0x9E3); (0x9FE, 0x9FE); (0xA01, 0xA02);
   (0xA3C, 0xA3C); (0xA41, 0xA42); (0xA47, 0xA48); (0xA4B, 0xA4D);
   (0xA51, 0xA51); (0xA70, 0xA71); (0xA75, 0xA75); (0xA81, 0xA82);
   (0xABC, 0xABC); (0xAC1, 0xAC5); (0xAC7, 0xAC8); (0xACD, 0xACD);
   (0xAE2, 0xAE3); (0xAFA, 0xAFF); (0xB01, 0xB01); (0xB3C, 0xB3C);
   (0xB3F, 0xB3F); (0xB41, 0xB44); (0xB4D, 0xB4D); (0xB55, 0xB56);
   (0xB62, 0xB63); (0xB82, 0xB82); (0xBC0, 0xBC0); (0xBCD, 0xBCD);
   (0xC00, 0xC00); (0xC04, 0xC04); (0xC3C, 0xC3C); (0xC3E, 0xC40);
   (0xC46, 0xC48); (0xC4A, 0xC4D); (0xC55, 0xC56); (0xC62, 0xC63);
   (0xC81, 0xC81); (0xCBC, 0xCBC); (0xCBF, 0xCBF); (0xCC6, 0xCC6);
   (0xCCC, 0xCCD); (0xCE2, 0xCE3); (0xD00, 0xD01); (0xD3B, 0xD3C);
   (0xD41, 0xD44); (0xD4D, 0xD4D); (0xD62, 0xD63); (0xD81, 0xD81);
   (0xDCA, 0xDCA); (0xDD2, 0xDD4); (0xDD6, 0xDD6); (0xE31, 0xE31);
   (0xE34, 0xE3A); (0xE46, 0xE4E); (0xEB1, 0xEB1); (0xEB4, 0xEBC);
   (0xEC6, 0xEC6); (0xEC8, 0xECD); (0xF18, 0xF19); (0xF35, 0xF35);
   (0xF37, 0xF37); (0xF39, 0xF39); (0xF71, 0xF7E); (0xF80, 0xF84);
   (0xF86, 0xF87); (0xF8D, 0xF97); (0xF99, 0xFBC); (0xFC6, 0xFC6);
   (0x102D, 0x1030); (0x1032, 0x1037); (0x1039, 0x103A); (0x103D, 0x103E);
   (0x1058, 0x1059); (0x105E, 0x1060); (0x1071, 0x1074); (0x1082, 0x1082);
   (0x1085, 0x1086); (0x108D, 0x108D); (0x109D, 0x109D); (0x10FC, 0x10FC);
   (0x135D, 0x135F); (0x1712, 0x1714); (0x1732, 0x1733); (0x1752, 0x1753);
   (0x1772, 0x1773); (0x17B4, 0x17B5); (0x17B7, 0x17BD); (0x17C6, 0x17C6);
   (0x17C9, 0x17D3); (0x17D7, 0x17D7); (0x17DD, 0x17DD); (0x180B, 0x180F);
   (0x1843, 0x1843); (0x1885, 0x1886); (0x18A9, 0x18A9); (0x1920, 0x1922);
   (0x1927, 0x1928); (0x1932, 0x1932); (0x1939, 0x193B); (0x1A17, 0x1A18);
   (0x1A1B, 0x1A1B); (0x1A56, 0x1A56); (0x1A58, 0x1A5E); (0x1A60, 0x1A60);
   (0x1A62, 0x1A62); (0x1A65, 0x1A6C); (0x1A73, 0x1A7C); (0x1A7F, 0x1A7F);
   (0x1AA7, 0x1AA7); (0x1AB0, 0x1ACE); (0x1B00, 0x1B03); (0x1B34, 0x1B34);
   (0x1B36, 0x1B3A); (0x1B3C, 0x1B3C); (0x1B42, 0x1B42); (0x1B6B, 0x1B73);
   (0x1B80, 0x1B81); (0x1BA2, 0x1BA5); (0x1BA8, 0x1BA9); (0x1BAB, 0x1BAD);
   (0x1BE6, 0x1BE6); (0x1BE8, 0x1BE9); (0x1BED, 0x1BED); (0x1BEF, 0x1BF1);
   (0x1C2C, 0x1C33); (0x1C36, 0x1C37); (0x1C78, 0x1C7D); (0x1CD0, 0x1CD2);
   (0x1CD4, 0x1CE0); (0x1CE2, 0x1CE8); (0x1CED, 0x1CED); (0x1CF4, 0x1CF4);
   (0x1CF8, 0x1CF9); (0x1D2C, 0x1D6A); (0x1D78, 0x1D78); (0x1D9B, 0x1DFF);
   (0x1FBD, 0x1FBD); (0x1FBF, 0x1FC1); (0x1FCD, 0x1FCF); (0x1FDD, 0x1FDF);
   (0x1FED, 0x1FEF); (0x1FFD, 0x1FFE); (0x200B, 0x200F); (0x2018, 0x2019);
   (0x2024, 0x2024); (0x2027, 0x2027); (0x202A, 0x202E); (0x2060, 0x2064);
   (0x2066, 0x206F); (0x2071, 0x2071); (0x207F, 0x207F); (0x2090, 0x209C);
   (0x20D0, 0x20F0); (0x2C7C, 0x2C7D); (0x2CEF, 0x2CF1); (0x2D6F, 0x2D6F);
   (0x2D7F, 0x2D7F); (0x2DE0, 0x2DFF); (0x2E2F, 0x2E2F); (0x3005, 0x3005);
   (0x302A, 0x302D); (0x3031, 0x3035); (0x303B, 0x303B); (0x3099, 0x309E);
   (0x30FC, 0x30FE); (0xA015, 0xA015); (0xA4F8, 0xA4FD); (0xA60C, 0xA60C);
   (0xA66F, 0xA672); (0xA674, 0xA67D); (0xA67F, 0xA67F); (0xA69C, 0xA69F);
   (0xA6F0, 0xA6F1); (0xA700, 0xA721); (0xA770, 0xA770); (0xA788, 0xA78A);
   (0xA7F2, 0xA7F4); (0xA7F8, 0xA7F9); (0xA802, 0xA802); (0xA806, 0xA806);
   (0xA80B, 0xA80B); (0xA825, 0xA826); (0xA82C, 0xA82C); (0xA8C4, 0xA8C5);
   (0xA8E0, 0xA8F1); (0xA8FF, 0xA8FF); (0xA926, 0xA92D); (0xA947, 0xA951);
   (0xA980, 0xA982); (0xA9B3, 0xA9B3); (0xA9B6, 0xA9B9); (0xA9BC, 0xA9BD);
   (0xA9CF, 0xA9CF); (0xA9E5, 0xA9E6); (0xAA29, 0xAA2E); (0xAA31, 0xAA32);
   (0xAA35, 0xAA36); (0xAA43, 0xAA43); (0xAA4C, 0xAA4C); (0xAA70, 0xAA70);
   (0xAA7C, 0xAA7C); (0xAAB0, 0xAAB0); (0xAAB2, 0xAAB4); (0xAAB7, 0xAAB8);
   (0xAABE, 0xAABF); (0xAAC1, 0xAAC1); (0xAADD, 0xAADD); (0xAAEC, 0xAAED);
   (0xAAF3, 0xAAF4); (0xAAF6, 0xAAF6); (0xAB5B, 0xAB5F); (0xAB69, 0xAB6B);
   (0xABE5, 0xABE5); (0xABE8, 0xABE8); (0xABED, 0xABED); (0xFB1E, 0xFB1E);
   (0xFBB2, 0xFBC2); (0xFE00, 0xFE0F); (0xFE13, 0xFE13); (0xFE20, 0xFE2F);
   (0xFE52, 0xFE52); (0xFE55, 0xFE55); (0xFEFF, 0xFEFF); (0xFF07, 0xFF07);
   (0xFF0E, 0xFF0E); (0xFF1A, 0xFF1A); (0xFF3E, 0xFF3E); (0xFF40, 0xFF40);
   (0xFF70, 0xFF70); (0xFF9E, 0xFF9F); (0xFFE3, 0xFFE3); (0xFFF9, 0xFFFB);
   (0x101FD, 0x101FD); (0x102E0, 0x102E0); (0x10376, 0x1037A); (0x10780, 0x10785);
   (0x10787, 0x107B0); (0x107B2, 0x107BA); (0x10A01, 0x10A03); (0x10A05, 0x10A06);
   (0x10A0C, 0x10A0F); (0x10A38, 0x10A3A); (0x10A3F, 0x10A3F); (0x10AE5, 0x10AE6);
   (0x10D24, 0x10D27); (0x10EAB, 0x10EAC); (0x10F46, 0x10F50); (0x10F82, 0x10F85);
   (0x11001, 0x11001); (0x11038, 0x11046); (0x11070, 0x11070); (0x11073, 0x11074);
   (0x1107F, 0x11081); (0x110B3, 0x110B6); (0x110B9, 0x110BA); (0x110BD, 0x110BD);
   (0x110C2, 0x110C2); (0x110CD, 0x110CD); (0x11100, 0x11102); (0x11127, 0x1112B);
   (0x1112D, 0x11134); (0x11173, 0x11173); (0x11180, 0x11181); (0x111B6, 0x111BE);
   (0x111C9, 0x111CC); (0x111CF, 0x111CF); (0x1122F, 0x11231); (0x11234, 0x11234);
   (0x11236, 0x11237); (0x1123E, 0x1123E); (0x112DF, 0x112DF); (0x112E3, 0x112EA);
   (0x11300, 0x11301); (0x1133B, 0x1133C); (0x11340, 0x11340); (0x11366, 0x1136C);
   (0x11370, 0x11374); (0x11438, 0x1143F); (0x11442, 0x11444); (0x11446, 0x11446);
   (0x1145E, 0x1145E); (0x114B3, 0x114B8); (0x114BA, 0x114BA); (0x114BF, 0x114C0);
   (0x114C2, 0x114C3); (0x115B2, 0x115B5); (0x115BC, 0x115BD); (0x115BF, 0x115C0);
   (0x115DC, 0x115DD); (0x11633, 0x1163A); (0x1163D, 0x1163D); (0x1163F, 0x11640);
   (0x116AB, 0x116AB); (0x116AD, 0x116AD); (0x116B0, 0x116B5); (0x116B7, 0x116B7);
   (0x1171D, 0x1171F); (0x11722, 0x11725); (0x11727, 0x1172B); (0x1182F, 0x11837);
   (0x11839, 0x1183A); (0x1193B, 0x1193C); (0x1193E, 0x1193E); (0x11943, 0x11943);
   (0x119D4, 0x119D7); (0x119DA, 0x119DB); (0x119E0, 0x119E0); (0x11A01, 0x11A0A);
   (0x11A33, 0x11A38); (0x11A3B, 0x11A3E); (0x11A47, 0x11A47); (0x11A51, 0x11A56);
   (0x11A59, 0x11A5B); (0x11A8A, 0x11A96); (0x11A98, 0x11A99); (0x11C30, 0x11C36);
   (0x11C38, 0x11C3D); (0x11C3F, 0x11C3F); (0x11C92, 0x11CA7); (0x11CAA, 0x11CB0);
   (0x11CB2, 0x11CB3); (0x11CB5, 0x11CB6); (0x11D31, 0x11D36); (0x11D3A, 0x11D3A);
   (0x11D3C, 0x11D3D); (0x11D3F, 0x11D45); (0x11D47, 0x11D47); (0x11D90, 0x11D91);
   (0x11D95, 0x11D95); (0x11D97, 0x11D97); (0x11EF3, 0x11EF4); (0x13430, 0x13438);
   (0x16AF0, 0x16AF4); (0x16B30, 0x16B36); (0x16B40, 0x16B43); (0x16F4F, 0x16F4F);
   (0x16F8F, 0x16F9F); (0x16FE0, 0x16FE1); (0x16FE3, 0x16FE4); (0x1AFF0, 0x1AFF3);
   (0x1AFF5, 0x1AFFB); (0x1AFFD, 0x1AFFE); (0x1BC9D, 0x1BC9E); (0x1BCA0, 0x1BCA3);
   (0x1CF00, 0x1CF2D); (0x1CF30, 0x1CF46); (0x1D167, 0x1D169); (0x1D173, 0x1D182);
   (0x1D185, 0x1D18B); (0x1D1AA, 0x1D1AD); (0x1D242, 0x1D244); (0x1DA00, 0x1DA36);
   (0x1DA3B, 0x1DA6C); (0x1DA75, 0x1DA75); (0x1DA84, 0x1DA84); (0x1DA9B, 0x1DA9F);
   (0x1DAA1, 0x1DAAF); (0x1E000, 0x1E006); (0x1E008, 0x1E018); (0x1E01B, 0x1E021);
   (0x1E023, 0x1E024); (0x1E026, 0x1E02A); (0x1E130, 0x1E13D); (0x1E2AE, 0x1E2AE);
   (0x1E2EC, 0x1E2EF); (0x1E8D0, 0x1E8D6); (0x1E944, 0x1E94B); (0x1F3FB, 0x1F3FF);
   (0xE0001, 0xE0001); (0xE0020, 0xE007F); (0xE0100, 0xE01EF)]%N.

Definition is_cased (c : char) : bool := in_ranges cased_ranges c.
Definition is_case_ignorable (c : char) : bool := in_ranges case_ignorable_ranges c.

Definition lower_char (c : char) : str :=
  if (c =? 0x130)%N then [0x69; 0x307]%N
  else [default c (run_lookup lower_runs c)].

(** A capital sigma is final when a cased letter stands before it, letters
    that case ignores apart, and none stands after it. *)
Definition final_sigma (cased_before : bool) (rest : str) : bool :=
  cased_before
  && negb match lstrip_by is_case_ignorable rest with
          | c :: _ => is_cased c
          | [] => false
          end.

Fixpoint lower_from (cased_before : bool) (s : str) : str :=
  match s with
  | [] => []
  | c :: t =>
      (if (c =? 0x3A3)%N
       then [if final_sigma cased_before t then 0x3C2%N else 0x3C3%N]
       else lower_char c)
      ++ lower_from (if is_case_ignorable c then cased_before else is_cased c) t
  end.

(** [s.lower()] *)
Definition lower (s : str) : str := lower_from false s.

(** Case folding of single characters to one character, and to several. *)
Definition fold_runs : list (N * N * N * N) :=
  [(0x41, 0x5A, 1, 0x61); (0xB5, 0xB5, 1, 0x3BC); (0xC0, 0xD6, 1, 0xE0);
   (0xD8, 0xDE, 1, 0xF8); (0x100, 0x12E, 2, 0x101); (0x132, 0x136, 2, 0x133);
   (0x139, 0x147, 2, 0x13A); (0x14A, 0x176, 2, 0x14B); (0x178, 0x178, 1, 0xFF);
   (0x179, 0x17D, 2, 0x17A); (0x17F, 0x17F, 1, 0x73); (0x181, 0x181, 1, 0x253);
   (0x182, 0x184, 2, 0x183); (0x186, 0x186, 1, 0x254); (0x187, 0x187, 1, 0x188);
   (0x189, 0x18A, 1, 0x256); (0x18B, 0x18B, 1, 0x18C); (0x18E, 0x18E, 1, 0x1DD);
   (0x18F, 0x18F, 1, 0x259); (0x190, 0x190, 1, 0x25B); (0x191, 0x191, 1, 0x192);
   (0x193, 0x193, 1, 0x260); (0x194, 0x194, 1, 0x263); (0x196, 0x196, 1, 0x269);
   (0x197, 0x197, 1, 0x268); (0x198, 0x198, 1, 0x199); (0x19C, 0x19C, 1, 0x26F);
   (0x19D, 0x19D, 1, 0x272); (0x19F, 0x19F, 1, 0x275); (0x1A0, 0x1A4, 2, 0x1A1);
   (0x1A6, 0x1A6, 1, 0x280); (0x1A7, 0x1A7, 1, 0x1A8); (0x1A9, 0x1A9, 1, 0x283);
   (0x1AC, 0x1AC, 1, 0x1AD); (0x1AE, 0x1AE, 1, 0x288); (0x1AF, 0x1AF, 1, 0x1B0);
   (0x1B1, 0x1B2, 1, 0x28A); (0x1B3, 0x1B5, 2, 0x1B4); (0x1B7, 0x1B7, 1, 0x292);
   (0x1B8, 0x1B8, 1, 0x1B9); (0x1BC, 0x1BC, 1, 0x1BD); (0x1C4, 0x1C4, 1, 0x1C6);
   (0x1C5, 0x1C5, 1, 0x1C6); (0x1C7, 0x1C7, 1, 0x1C9); (0x1C8, 0x1C8, 1, 0x1C9);
   (0x1CA, 0x1CA, 1, 0x1CC); (0x1CB, 0x1DB, 2, 0x1CC); (0x1DE, 0x1EE, 2, 0x1DF);
   (0x1F1, 0x1F1, 1, 0x1F3); (0x1F2, 0x1F4, 2, 0x1F3); (0x1F6, 0x1F6, 1, 0x195);
   (0x1F7, 0x1F7, 1, 0x1BF); (0x1F8, 0x21E, 2, 0x1F9); (0x220, 0x220, 1, 0x19E);
   (0x222, 0x232, 2, 0x223); (0x23A, 0x23A, 1, 0x2C65); (0x23B, 0x23B, 1, 0x23C);
   (0x23D, 0x23D, 1, 0x19A); (0x23E, 0x23E, 1, 0x2C66); (0x241, 0x241, 1, 0x242);
   (0x243, 0x243, 1, 0x180); (0x244, 0x244, 1, 0x289); (0x245, 0x245, 1, 0x28C);
   (0x246, 0x24E, 2, 0x247); (0x345, 0x345, 1, 0x3B9); (0x370, 0x372, 2, 0x371);
   (0x376, 0x376, 1, 0x377); (0x37F, 0x37F, 1, 0x3F3); (0x386, 0x386, 1, 0x3AC);
   (0x388, 0x38A, 1, 0x3AD); (0x38C, 0x38C, 1, 0x3CC); (0x38E, 0x38F, 1, 0x3CD);
   (0x391, 0x3A1, 1, 0x3B1); (0x3A3, 0x3AB, 1, 0x3C3); (0x3C2, 0x3C2, 1, 0x3C3);
   (0x3CF, 0x3CF, 1, 0x3D7); (0x3D0, 0x3D0, 1, 0x3B2); (0x3D1, 0x3D1, 1, 0x3B8);
   (0x3D5, 0x3D5, 1, 0x3C6); (0x3D6, 0x3D6, 1, 0x3C0); (0x3D8, 0x3EE, 2, 0x3D9);
   (0x3F0, 0x3F0, 1, 0x3BA); (0x3F1, 0x3F1, 1, 0x3C1); (0x3F4, 0x3F4, 1, 0x3B8);
   (0x3F5, 0x3F5, 1, 0x3B5); (0x3F7, 0x3F7, 1, 0x3F8); (0x3F9, 0x3F9, 1, 0x3F2);
   (0x3FA, 0x3FA, 1, 0x3FB); (0x3FD, 0x3FF, 1, 0x37B); (0x400, 0x40F, 1, 0x450);
   (0x410, 0x42F, 1, 0x430); (0x460, 0x480, 2, 0x461); (0x48A, 0x4BE, 2, 0x48B);
   (0x4C0, 0x4C0, 1, 0x4CF); (0x4C1, 0x4CD, 2, 0x4C2); (0x4D0, 0x52E, 2, 0x4D1);
   (0x531, 0x556, 1, 0x561); (0x10A0, 0x10C5, 1, 0x2D00); (0x10C7, 0x10C7, 1, 0x2D27);
   (0x10CD, 0x10CD, 1, 0x2D2D); (0x13F8, 0x13FD, 1, 0x13F0); (0x1C80, 0x1C80, 1, 0x432);
   (0x1C81, 0x1C81, 1, 0x434); (0x1C82, 0x1C82, 1, 0x43E); (0x1C83, 0x1C84, 1, 0x441);
   (0x1C85, 0x1C85, 1, 0x442); (0x1C86, 0x1C86, 1, 0x44A); (0x1C87, 0x1C87, 1, 0x463);
   (0x1C88, 0x1C88, 1, 0xA64B); (0x1C90, 0x1CBA, 1, 0x10D0); (0x1CBD, 0x1CBF, 1, 0x10FD);
   (0x1E00, 0x1E94, 2, 0x1E01); (0x1E9B, 0x1E9B, 1, 0x1E61); (0x1EA0, 0x1EFE, 2, 0x1EA1);
   (0x1F08, 0x1F0F, 1, 0x1F00); (0x1F18, 0x1F1D, 1, 0x1F10); (0x1F28, 0x1F2F, 1, 0x1F20);
   (0x1F38, 0x1F3F, 1, 0x1F30); (0x1F48, 0x1F4D, 1, 0x1F40); (0x1F59, 0x1F5F, 2, 0x1F51);
   (0x1F68, 0x1F6F, 1, 0x1F60); (0x1FB8, 0x1FB9, 1, 0x1FB0); (0x1FBA, 0x1FBB, 1, 0x1F70);
   (0x1FBE, 0x1FBE, 1, 0x3B9); (0x1FC8, 0x1FCB, 1, 0x1F72); (0x1FD8, 0x1FD9, 1, 0x1FD0);
   (0x1FDA, 0x1FDB, 1, 0x1F76); (0x1FE8, 0x1FE9, 1, 0x1FE0); (0x1FEA, 0x1FEB, 1, 0x1F7A);
   (0x1FEC, 0x1FEC, 1, 0x1FE5); (0x1FF8, 0x1FF9, 1, 0x1F78); (0x1FFA, 0x1FFB, 1, 0x1F7C);
   (0x2126, 0x2126, 1, 0x3C9); (0x212A, 0x212A, 1, 0x6B); (0x212B, 0x212B, 1, 0xE5);
   (0x2132, 0x2132, 1, 0x214E); (0x2160, 0x216F, 1, 0x2170); (0x2183, 0x2183, 1, 0x2184);
   (0x24B6, 0x24CF, 1, 0x24D0); (0x2C00, 0x2C2F, 1, 0x2C30); (0x2C60, 0x2C60, 1, 0x2C61);
   (0x2C62, 0x2C62, 1, 0x26B); (0x2C63, 0x2C63, 1, 0x1D7D); (0x2C64, 0x2C64, 1, 0x27D);
   (0x2C67, 0x2C6B, 2, 0x2C68); (0x2C6D, 0x2C6D, 1, 0x251); (0x2C6E, 0x2C6E, 1, 0x271);
   (0x2C6F, 0x2C6F, 1, 0x250); (0x2C70, 0x2C70, 1, 0x252); (0x2C72, 0x2C72, 1, 0x2C73);
   (0x2C75, 0x2C75, 1, 0x2C76); (0x2C7E, 0x2C7F, 1, 0x23F); (0x2C80, 0x2CE2, 2, 0x2C81);
   (0x2CEB, 0x2CED, 2, 0x2CEC); (0x2CF2, 0x2CF2, 1, 0x2CF3); (0xA640, 0xA66C, 2, 0xA641);
   (0xA680, 0xA69A, 2, 0xA681); (0xA722, 0xA72E, 2, 0xA723); (0xA732, 0xA76E, 2, 0xA733);
   (0xA779, 0xA77B, 2, 0xA77A); (0xA77D, 0xA77D, 1, 0x1D79); (0xA77E, 0xA786, 2, 0xA77F);
   (0xA78B, 0xA78B, 1, 0xA78C); (0xA78D, 0xA78D, 1, 0x265); (0xA790, 0xA792, 2, 0xA791);
   (0xA796, 0xA7A8, 2, 0xA797); (0xA7AA, 0xA7AA, 1, 0x266); (0xA7AB, 0xA7AB, 1, 0x25C);
   (0xA7AC, 0xA7AC, 1, 0x261); (0xA7AD, 0xA7AD, 1, 0x26C); (0xA7AE, 0xA7AE, 1, 0x26A);
   (0xA7B0, 0xA7B0, 1, 0x29E); (0xA7B1, 0xA7B1, 1, 0x287); (0xA7B2, 0xA7B2, 1, 0x29D);
   (0xA7B3, 0xA7B3, 1, 0xAB53); (0xA7B4, 0xA7C2, 2, 0xA7B5); (0xA7C4, 0xA7C4, 1, 0xA794);
   (0xA7C5, 0xA7C5, 1, 0x282); (0xA7C6, 0xA7C6, 1, 0x1D8E); (0xA7C7, 0xA7C9, 2, 0xA7C8);
   (0xA7D0, 0xA7D0, 1, 0xA7D1); (0xA7D6, 0xA7D8, 2, 0xA7D7); (0xA7F5, 0xA7F5, 1, 0xA7F6);
   (0xAB70, 0xABBF, 1, 0x13A0); (0xFF21, 0xFF3A, 1, 0xFF41); (0x10400, 0x10427, 1, 0x10428);
   (0x104B0, 0x104D3, 1, 0x104D8); (0x10570, 0x1057A, 1, 0x10597); (0x1057C, 0x1058A, 1, 0x105A3);
   (0x1058C, 0x10592, 1, 0x105B3); (0x10594, 0x10595, 1, 0x105BB); (0x10C80, 0x10CB2, 1, 0x10CC0);
   (0x118A0, 0x118BF, 1, 0x118C0); (0x16E40, 0x16E5F, 1, 0x16E60); (0x1E900, 0x1E921, 1, 0x1E922)]%N.

Definition fold_special : list (N * list N) :=
  [(0xDF, [0x73; 0x73]); (0x130, [0x69; 0x307]); (0x149, [0x2BC; 0x6E]);
   (0x1F0, [0x6A; 0x30C]); (0x390, [0x3B9; 0x308; 0x301]); (0x3B0, [0x3C5; 0x308; 0x301]);
   (0x587, [0x565; 0x582]); (0x1E96, [0x68; 0x331]); (0x1E97, [0x74; 0x308]);
   (0x1E98, [0x77; 0x30A]); (0x1E99, [0x79; 0x30A]); (0x1E9A, [0x61; 0x2BE]);
   (0x1E9E, [0x73; 0x73]); (0x1F50, [0x3C5; 0x313]); (0x1F52, [0x3C5; 0x313; 0x300]);
   (0x1F54, [0x3C5; 0x313; 0x301]); (0x1F56, [0x3C5; 0x313; 0x342]); (0x1F80, [0x1F00; 0x3B9]);
   (0x1F81, [0x1F01; 0x3B9]); (0x1F82, [0x1F02; 0x3B9]); (0x1F83, [0x1F03; 0x3B9]);
   (0x1F84, [0x1F04; 0x3B9]); (0x1F85, [0x1F05; 0x3B9]); (0x1F86, [0x1F06; 0x3B9]);
   (0x1F87, [0x1F07; 0x3B9]); (0x1F88, [0x1F00; 0x3B9]); (0x1F89, [0x1F01; 0x3B9]);
   (0x1F8A, [0x1F02; 0x3B9]); (0x1F8B, [0x1F03; 0x3B9]); (0x1F8C, [0x1F04; 0x3B9]);
   (0x1F8D, [0x1F05; 0x3B9]); (0x1F8E, [0x1F06; 0x3B9]); (0x1F8F, [0x1F07; 0x3B9]);
   (0x1F90, [0x1F20; 0x3B9]); (0x1F91, [0x1F21; 0x3B9]); (0x1F92, [0x1F22; 0x3B9]);
   (0x1F93, [0x1F23; 0x3B9]); (0x1F94, [0x1F24; 0x3B9]); (0x1F95, [0x1F25; 0x3B9]);
   (0x1F96, [0x1F26; 0x3B9]); (0x1F97, [0x1F27; 0x3B9]); (0x1F98, [0x1F20; 0x3B9]);
   (0x1F99, [0x1F21; 0x3B9]); (0x1F9A, [0x1F22; 0x3B9]); (0x1F9B, [0x1F23; 0x3B9]);
   (0x1F9C, [0x1F24; 0x3B9]); (0x1F9D, [0x1F25; 0x3B9]); (0x1F9E, [0x1F26; 0x3B9]);
   (0x1F9F, [0x1F27; 0x3B9]); (0x1FA0, [0x1F60; 0x3B9]); (0x1FA1, [0x1F61; 0x3B9]);
   (0x1FA2, [0x1F62; 0x3B9]); (0x1FA3, [0x1F63; 0x3B9]); (0x1FA4, [0x1F64; 0x3B9]);
   (0x1FA5, [0x1F65; 0x3B9]); (0x1FA6, [0x1F66; 0x3B9]); (0x1FA7, [0x1F67; 0x3B9]);
   (0x1FA8, [0x1F60; 0x3B9]); (0x1FA9, [0x1F61; 0x3B9]); (0x1FAA, [0x1F62; 0x3B9]);
   (0x1FAB, [0x1F63; 0x3B9]); (0x1FAC, [0x1F64; 0x3B9]); (0x1FAD, [0x1F65; 0x3B9]);
   (0x1FAE, [0x1F66; 0x3B9]); (0x1FAF, [0x1F67; 0x3B9]); (0x1FB2, [0x1F70; 0x3B9]);
   (0x1FB3, [0x3B1; 0x3B9]); (0x1FB4, [0x3AC; 0x3B9]); (0x1FB6, [0x3B1; 0x342]);
   (0x1FB7, [0x3B1; 0x342; 0x3B9]); (0x1FBC, [0x3B1; 0x3B9]); (0x1FC2, [0x1F74; 0x3B9]);
   (0x1FC3, [0x3B7; 0x3B9]); (0x1FC4, [0x3AE; 0x3B9]); (0x1FC6, [0x3B7; 0x342]);
   (0x1FC7, [0x3B7; 0x342; 0x3B9]); (0x1FCC, [0x3B7; 0x3B9]); (0x1FD2, [0x3B9; 0x308; 0x300]);
   (0x1FD3, [0x3B9; 0x308; 0x301]); (0x1FD6, [0x3B9; 0x342]); (0x1FD7, [0x3B9; 0x308; 0x342]);
   (0x1FE2, [0x3C5; 0x308; 0x300]); (0x1FE3, [0x3C5; 0x308; 0x301]); (0x1FE4, [0x3C1; 0x313]);
   (0x1FE6, [0x3C5; 0x342]); (0x1FE7, [0x3C5; 0x308; 0x342]); (0x1FF2, [0x1F7C; 0x3B9]);
   (0x1FF3, [0x3C9; 0x3B9]); (0x1FF4, [0x3CE; 0x3B9]); (0x1FF6, [0x3C9; 0x342]);
   (0x1FF7, [0x3C9; 0x342; 0x3B9]); (0x1FFC, [0x3C9; 0x3B9]); (0xFB00, [0x66; 0x66]);
   (0xFB01, [0x66; 0x69]); (0xFB02, [0x66; 0x6C]); (0xFB03, [0x66; 0x66; 0x69]);
   (0xFB04, [0x66; 0x66; 0x6C]); (0xFB05, [0x73; 0x74]); (0xFB06, [0x73; 0x74]);
   (0xFB13, [0x574; 0x576]); (0xFB14, [0x574; 0x565]); (0xFB15, [0x574; 0x56B]);
   (0xFB16, [0x57E; 0x576]); (0xFB17, [0x574; 0x56D])]%N.

Definition casefold_char (c : char) : str :=
  match List.find (fun p => (fst p =? c)%N) fold_special with
  | Some (_, t) => t
  | None => [default c (run_lookup fold_runs c)]
  end.

(** [s.casefold()] *)
Definition casefold (s : str) : str := flat_map casefold_char s.

(** Lowercase of the ASCII letters alone, as the number parsers compare. *)
Definition ascii_lower (s : str) : str :=
  map (fun c => if ((0x41 <=? c) && (c <=? 0x5A))%N then (c + 32)%N else c) s.

(** Comparison of texts, [a < b]: lexicographic on code points. *)
Fixpoint str_ltb (a b : str) : bool :=
  match a, b with
  | _, [] => false
  | [], _ :: _ => true
  | x :: a', y :: b' => (x <? y)%N || (x =? y)%N && str_ltb a' b'
  end.

(** [str(n)] for a natural number: its decimal digits. *)
Fixpoint digits_of_uint (d : Decimal.uint) : str :=
  match d with
  | Decimal.Nil => []
  | Decimal.D0 d => 0x30%N :: digits_of_uint d
  | Decimal.D1 d => 0x31%N :: digits_of_uint d
  | Decimal.D2 d => 0x32%N :: digits_of_uint d
  | Decimal.D3 d => 0x33%N :: digits_of_uint d
  | Decimal.D4 d => 0x34%N :: digits_of_uint d
  | Decimal.D5 d => 0x35%N :: digits_of_uint d
  | Decimal.D6 d => 0x36%N :: digits_of_uint d
  | Decimal.D7 d => 0x37%N :: digits_of_uint d
  | Decimal.D8 d => 0x38%N :: digits_of_uint d
  | Decimal.D9 d => 0x39%N :: digits_of_uint d
  end.

Definition str_of_nat (n : nat) : str := digits_of_uint (Nat.to_uint n).

(** Slices [s[:n]] and [s[n:]] are [take n s] and [drop n s]. *)

(** *** Digits *)

(** First code points of the runs of ten decimal digits (category Nd); in
    each run the digit values are 0 to 9 in order. *)
Definition decimal_runs : list N :=
  [0x30; 0x660; 0x6F0; 0x7C0; 0x966; 0x9E6; 0xA66; 0xAE6; 0xB66; 0xBE6;
   0xC66; 0xCE6; 0xD66; 0xDE6; 0xE50; 0xED0; 0xF20; 0x1040; 0x1090; 0x17E0;
   0x1810; 0x1946; 0x19D0; 0x1A80; 0x1A90; 0x1B50; 0x1BB0; 0x1C40; 0x1C50;
   0xA620; 0xA8D0; 0xA900; 0xA9D0; 0xA9F0; 0xAA50; 0xABF0; 0xFF10; 0x104A0;
   0x10D30; 0x11066; 0x110F0; 0x11136; 0x111D0; 0x112F0; 0x11450; 0x114D0;
   0x11650; 0x116C0; 0x11730; 0x118E0; 0x11950; 0x11C50; 0x11D50; 0x11DA0;
   0x16A60; 0x16AC0; 0x16B50; 0x1D7CE; 0x1D7D8; 0x1D7E2; 0x1D7EC; 0x1D7F6;
   0x1E140; 0x1E2F0; 0x1E950; 0x1FBF0]%N.

(** The digit value of a decimal character. *)
Definition decimal_value (c : char) : option N :=
  match List.find (fun s => (s <=? c) && (c <? s + 10))%N decimal_runs with
  | Some s => Some (c - s)%N
  | None => None
  end.

(** Characters that are digits without being decimal characters
    (superscripts, circled digits and the like), as inclusive ranges. *)
Definition other_digit_ranges : list (N * N) :=
  [(0xB2, 0xB3); (0xB9, 0xB9); (0x1369, 0x1371); (0x19DA, 0x19DA);
   (0x2070, 0x2070); (0x2074, 0x2079); (0x2080, 0x2089); (0x2460, 0x2468);
   (0x2474, 0x247C); (0x2488, 0x2490); (0x24EA, 0x24EA); (0x24F5, 0x24FD);
   (0x24FF, 0x24FF); (0x2776, 0x277E); (0x2780, 0x2788); (0x278A, 0x2792);
   (0x10A40, 0x10A43); (0x10E60, 0x10E68); (0x11052, 0x1105A);
   (0x1F100, 0x1F10A)]%N.

Definition isdigit_char (c : char) : bool :=
  match decimal_value c with
  | Some _ => true
  | None => existsb (fun r => (fst r <=? c) && (c <=? snd r))%N other_digit_ranges
  end.

(** [s.isdigit()] *)
Definition isdigit (s : str) : bool :=
  truthy s && forallb isdigit_char s.

(** ** Exceptions *)

Inductive exn : Set :=
  | UnicodeDecodeError | LookupError | TypeError | ValueError | IndexError
  | csv_Error.

Inductive result (A : Type) : Type :=
  | Return (a : A)
  | Raise (e : exn).
Arguments Return {A} a.
Arguments Raise {A} e.

#[global] Instance result_ret : MRet result := fun A a => Return a.
#[global] Instance result_bind : MBind result := fun A B f r =>
  match r with Return a => f a | Raise e => Raise e end.
#[global] Instance result_fmap : FMap result := fun A B f r =>
  match r with Return a => Return (f a) | Raise e => Raise e end.

(** ** Numbers read from text *)

Definition is_ascii_space (c : char) : bool :=
  ((0x9 <=? c) && (c <=? 0xD) || (c =? 0x20))%N.

Definition ascii_digit (c : char) : option N :=
  if ((0x30 <=? c) && (c <=? 0x39))%N then Some (c - 0x30)%N else None.

Definition is_ascii_digit (c : char) : bool :=
  ((0x30 <=? c) && (c <=? 0x39))%N.

(** What [int] and [float] do to a text before they read it: decimal digits
    of any script become ASCII digits, white space becomes a blank, and the
    first other non-ASCII character becomes [?] and ends the text.  An ASCII
    text is left as it is. *)
Fixpoint transform_nonascii (s : str) : str :=
  match s with
  | [] => []
  | c :: t =>
      if (c <? 127)%N then c :: transform_nonascii t
      else if isspace c then 0x20%N :: transform_nonascii t
      else match decimal_value c with
           | Some d => (0x30 + d)%N :: transform_nonascii t
           | None => [0x3F%N]
           end
  end.

Definition to_ascii_digits (s : str) : str :=
  if forallb (fun c => (c <? 128)%N) s then s else transform_nonascii s.

Definition strip_ascii (s : str) : str :=
  rstrip_by is_ascii_space (lstrip_by is_ascii_space s).

(** An optional sign: [(negative, rest)]. *)
Definition read_sign (s : str) : bool * str :=
  match s with
  | 0x2D%N :: t => (true, t)
  | 0x2B%N :: t => (false, t)
  | _ => (false, s)
  end.

(** Digits with single underscores between them; [sep] says that the
    character before was an underscore. *)
Fixpoint int_digits (sep : bool) (acc : N) (s : str) : option N :=
  match s with
  | [] => if sep then None else Some acc
  | c :: t =>
      if (c =? 0x5F)%N then (if sep then None else int_digits true acc t)
      else match ascii_digit c with
           | Some d => int_digits false (acc * 10 + d)%N t
           | None => None
           end
  end.

(** [sys.int_max_str_digits], as the interpreter starts with it. *)
Definition int_max_str_digits : N := 4300.

(** [int(s)] in base ten.  A text with more digits than
    [int_max_str_digits] is refused: every digit counts, leading zeros too,
    the sign and the underscores do not. *)
Definition py_int (s : str) : result Z :=
  let '(neg, r) := read_sign (strip_ascii (to_ascii_digits s)) in
  match r with
  | c :: _ =>
      if is_ascii_digit c then
        match int_digits false 0%N r with
        | Some n =>
            if (int_max_str_digits
                <? N.of_nat (length (List.filter is_ascii_digit r)))%N
            then Raise ValueError
            else Return (if neg then - Z.of_N n else Z.of_N n)%Z
        | None => Raise ValueError
        end
      else Raise ValueError
  | [] => Raise ValueError
  end.

(** *** Floating-point numbers

    A [float] is an IEEE 754 binary64 value; a finite one is kept as the
    rational it denotes (the two zeros are not told apart: they compare
    equal). *)
Inductive float : Set :=
  | NaN
  | Inf (negative : bool)
  | Finite (q : Q).

(** [a < b] on floats: NaN compares false with everything. *)
Definition float_ltb (a b : float) : bool :=
  match a, b with
  | NaN, _ | _, NaN => false
  | Inf true, Inf true => false
  | Inf true, _ => true
  | _, Inf true => false
  | Inf false, _ => false
  | Finite _, Inf false => true
  | Finite p, Finite q => negb (Qle_bool q p)
  end.

(** The binary64 value nearest to [m * 10^e10] for [0 <= m], ties to even,
    with the sign [neg]; overflow gives an infinity, underflow a zero. *)
Definition round_binary64 (neg : bool) (m e10 : Z) : float :=
  (if m =? 0 then Finite 0
   else
     let num := if 0 <=? e10 then m * 10 ^ e10 else m in
     let den := if 0 <=? e10 then 1 else 10 ^ (- e10) in
     let scaled ex :=
       if 0 <=? ex then num / (den * 2 ^ ex) else (num * 2 ^ (- ex)) / den in
     let ex0 := Z.log2 num - Z.log2 den - 52 in
     let ex1 := if scaled ex0 <? 2 ^ 52 then ex0 - 1 else ex0 in
     let ex := Z.max ex1 (-1074) in
     let n' := if 0 <=? ex then num else num * 2 ^ (- ex) in
     let d' := if 0 <=? ex then den * 2 ^ ex else den in
     let q := n' / d' in
     let r := n' mod d' in
     let q' := if (d' <? 2 * r) || ((2 * r =? d') && Z.odd q) then q + 1 else q in
     let s := if neg then - q' else q' in
     if 0 <=? ex
     then (if 2 ^ 1024 <=? q' * 2 ^ ex then Inf neg else Finite (inject_Z (s * 2 ^ ex)))
     else Finite (Qmake s (Z.to_pos (2 ^ (- ex)))))%Z.

(** Underscores in a numeric literal: allowed only between two digits. *)
Fixpoint drop_underscores (prev : char) (s : str) : option str :=
  match s with
  | [] => if (prev =? 0x5F)%N then None else Some []
  | c :: t =>
      if (c =? 0x5F)%N
      then (if is_ascii_digit prev then drop_underscores c t else None)
      else if (prev =? 0x5F)%N && negb (is_ascii_digit c) then None
      else cons c <$> drop_underscores c t
  end.

Fixpoint span_digits (acc : N) (s : str) : N * nat * str :=
  match s with
  | c :: t =>
      match ascii_digit c with
      | Some d =>
          let '(v, n, r) := span_digits (acc * 10 + d)%N t in (v, S n, r)
      | None => (acc, 0, s)
      end
  | [] => (acc, 0, [])
  end.

(** The exponent part of a literal: empty, or [e]/[E], an optional sign and
    at least one digit, up to the end of the text. *)
Definition read_exponent (s : str) : option Z :=
  match s with
  | [] => Some 0%Z
  | c :: t =>
      if ((c =? 0x65) || (c =? 0x45))%N then
        let '(neg, r) := read_sign t in
        match span_digits 0%N r with
        | (v, S _, []) => Some (if neg then - Z.of_N v else Z.of_N v)%Z
        | _ => None
        end
      else None
  end.

Definition read_float (s : str) : option float :=
  let '(neg, r) := read_sign s in
  let '(ip, ni, r1) := span_digits 0%N r in
  let '(m, nf, r2) :=
    match r1 with
    | 0x2E%N :: t => span_digits ip t
    | _ => (ip, 0, r1)
    end in
  match ni + nf with
  | S _ =>
      match read_exponent r2 with
      | Some e => Some (round_binary64 neg (Z.of_N m) (e - Z.of_nat nf))
      | None => None
      end
  | O =>
      let w := ascii_lower r in
      if str_eqb w (lit "inf") || str_eqb w (lit "infinity") then Some (Inf neg)
      else if str_eqb w (lit "nan") then Some NaN
      else None
  end.

(** [float(s)]: [None] stands for the [ValueError] of an ill-formed text. *)
Definition py_float (s : str) : option float :=
  match drop_underscores 0%N (strip_ascii (to_ascii_digits s)) with
  | Some t => read_float t
  | None => None
  end.

(** ** Sorting

    [sorted(xs, key=f, reverse=r)] is a stable sort that compares keys with
    [<] only.  It is modelled by stable insertion, which gives the list that
    [sorted] gives whenever [<] is a strict weak order on the keys that occur
    (for floats: whenever none of them is NaN).  With [reverse] the list is
    reversed before and after the sort, as the interpreter does, so that equal
    keys keep their order. *)
Section Sorted.
Context {A K : Type} (ltb : K -> K -> bool) (key : A -> K).

Fixpoint insert_sorted (x : A) (l : list A) : list A :=
  match l with
  | [] => [x]
  | y :: l' =>
      if ltb (key y) (key x) then y :: insert_sorted x l' else x :: l
  end.

Fixpoint sort_asc (l : list A) : list A :=
  match l with
  | [] => []
  | x :: l' => insert_sorted x (sort_asc l')
  end.

Definition sorted (reverse : bool) (l : list A) : list A :=
  if reverse then rev (sort_asc (rev l)) else sort_asc l.
End Sorted.

(** ** Codecs *)

Definition bytes := list byte.

(** [raw.startswith(prefix)] *)
Fixpoint bytes_startswith (raw prefix : bytes) : bool :=
  match prefix, raw with
  | [], _ => true
  | _ :: _, [] => false
  | p :: ps, b :: bs => Byte.eqb p b && bytes_startswith bs ps
  end.

Definition continuation (c : N) : bool := ((0x80 <=? c) && (c <=? 0xBF))%N.

(** The second byte a lead byte of a three- or four-byte sequence admits
    (this excludes overlong forms, surrogates and values above U+10FFFF). *)
Definition second_ok (c1 c2 : N) : bool :=
  (if c1 =? 0xE0 then (0xA0 <=? c2) && (c2 <=? 0xBF)
   else if c1 =? 0xED then (0x80 <=? c2) && (c2 <=? 0x9F)
   else if c1 =? 0xF0 then (0x90 <=? c2) && (c2 <=? 0xBF)
   else if c1 =? 0xF4 then (0x80 <=? c2) && (c2 <=? 0x8F)
   else continuation c2)%N.

Definition cp2 (c1 c2 : N) : N := ((c1 - 0xC0) * 64 + (c2 - 0x80))%N.
Definition cp3 (c1 c2 c3 : N) : N :=
  ((c1 - 0xE0) * 4096 + (c2 - 0x80) * 64 + (c3 - 0x80))%N.
Definition cp4 (c1 c2 c3 c4 : N) : N :=
  ((c1 - 0xF0) * 262144 + (c2 - 0x80) * 4096 + (c3 - 0x80) * 64 + (c4 - 0x80))%N.

(** [raw.decode("utf-8")], strict. *)
Fixpoint utf_8_decode (raw : bytes) : result str :=
  match raw with
  | [] => Return []
  | b1 :: r1 =>
      let c1 := Byte.to_N b1 in
      if (c1 <? 0x80)%N then cons c1 <$> utf_8_decode r1
      else if (c1 <? 0xC2)%N then Raise UnicodeDecodeError
      else if (c1 <? 0xE0)%N then
        match r1 with
        | b2 :: r2 =>
            let c2 := Byte.to_N b2 in
            if continuation c2 then cons (cp2 c1 c2) <$> utf_8_decode r2
            else Raise UnicodeDecodeError
        | _ => Raise UnicodeDecodeError
        end
      else if (c1 <? 0xF0)%N then
        match r1 with
        | b2 :: b3 :: r3 =>
            let c2 := Byte.to_N b2 in
            let c3 := Byte.to_N b3 in
            if second_ok c1 c2 && continuation c3
            then cons (cp3 c1 c2 c3) <$> utf_8_decode r3
            else Raise UnicodeDecodeError
        | _ => Raise UnicodeDecodeError
        end
      else if (c1 <? 0xF5)%N then
        match r1 with
        | b2 :: b3 :: b4 :: r4 =>
            let c2 := Byte.to_N b2 in
            let c3 := Byte.to_N b3 in
            let c4 := Byte.to_N b4 in
            if second_ok c1 c2 && continuation c3 && continuation c4
            then cons (cp4 c1 c2 c3 c4) <$> utf_8_decode r4
            else Raise UnicodeDecodeError
        | _ => Raise UnicodeDecodeError
        end
      else Raise UnicodeDecodeError
  end.

(** [raw.decode("utf-8-sig")]: a leading EF BB BF is dropped. *)
Definition has_utf_8_bom (raw : bytes) : bool :=
  bytes_startswith raw [xef; xbb; xbf].

Definition utf_8_sig_decode (raw : bytes) : result str :=
  if has_utf_8_bom raw then utf_8_decode (drop 3 raw) else utf_8_decode raw.

Definition REPLACEMENT : char := 0xFFFD%N.

(** [raw.decode("utf-8", errors="replace")]: every maximal ill-formed part
    becomes U+FFFD.  It never fails. *)
Fixpoint utf_8_decode_replace (raw : bytes) : str :=
  match raw with
  | [] => []
  | b1 :: r1 =>
      let c1 := Byte.to_N b1 in
      if (c1 <? 0x80)%N then c1 :: utf_8_decode_replace r1
      else if (c1 <? 0xC2)%N then REPLACEMENT :: utf_8_decode_replace r1
      else if (c1 <? 0xE0)%N then
        match r1 with
        | [] => [REPLACEMENT]
        | b2 :: r2 =>
            let c2 := Byte.to_N b2 in
            if continuation c2 then cp2 c1 c2 :: utf_8_decode_replace r2
            else REPLACEMENT :: utf_8_decode_replace r1
        end
      else if (c1 <? 0xF0)%N then
        match r1 with
        | [] => [REPLACEMENT]
        | b2 :: r2 =>
            let c2 := Byte.to_N b2 in
            if second_ok c1 c2 then
              match r2 with
              | [] => [REPLACEMENT]
              | b3 :: r3 =>
                  let c3 := Byte.to_N b3 in
                  if continuation c3 then cp3 c1 c2 c3 :: utf_8_decode_replace r3
                  else REPLACEMENT :: utf_8_decode_replace r2
              end
            else REPLACEMENT :: utf_8_decode_replace r1
        end
      else if (c1 <? 0xF5)%N then
        match r1 with
        | [] => [REPLACEMENT]
        | b2 :: r2 =>
            let c2 := Byte.to_N b2 in
            if second_ok c1 c2 then
              match r2 with
              | [] => [REPLACEMENT]
              | b3 :: r3 =>
                  let c3 := Byte.to_N b3 in
                  if continuation c3 then
                    match r3 with
                    | [] => [REPLACEMENT]
                    | b4 :: r4 =>
                        let c4 := Byte.to_N b4 in
                        if continuation c4
                        then cp4 c1 c2 c3 c4 :: utf_8_decode_replace r4
                        else REPLACEMENT :: utf_8_decode_replace r3
                    end
                  else REPLACEMENT :: utf_8_decode_replace r2
              end
            else REPLACEMENT :: utf_8_decode_replace r1
        end
      else REPLACEMENT :: utf_8_decode_replace r1
  end.

(** [text.encode("utf-8")]: [None] for a surrogate or a value that is no
    code point. *)
Definition byte_of_N (n : N) : byte :=
  match Byte.of_N n with Some b => b | None => x00 end.

Definition utf_8_encode_char (c : char) : option bytes :=
  (if c <? 0x80 then Some [byte_of_N c]
   else if c <? 0x800 then
     Some [byte_of_N (0xC0 + c / 64); byte_of_N (0x80 + c mod 64)]
   else if c <? 0x10000 then
     if (0xD800 <=? c) && (c <=? 0xDFFF) then None
     else Some [byte_of_N (0xE0 + c / 64 / 64);
                byte_of_N (0x80 + (c / 64) mod 64);
                byte_of_N (0x80 + c mod 64)]
   else if c <? 0x110000 then
     Some [byte_of_N (0xF0 + c / 64 / 64 / 64);
           byte_of_N (0x80 + (c / 64 / 64) mod 64);
           byte_of_N (0x80 + (c / 64) mod 64); byte_of_N (0x80 + c mod 64)]
   else None)%N.

Fixpoint utf_8_encode (s : str) : option bytes :=
  match s with
  | [] => Some []
  | c :: t =>
      match utf_8_encode_char c, utf_8_encode t with
      | Some bs, Some r => Some (bs ++ r)
      | _, _ => None
      end
  end.

(** UTF-16 code units of a buffer, two bytes each; an odd byte at the end is
    an error. *)
Fixpoint utf_16_units (little : bool) (raw : bytes) : result (list N) :=
  match raw with
  | [] => Return []
  | [_] => Raise UnicodeDecodeError
  | b0 :: b1 :: r =>
      let u := (if little then Byte.to_N b0 + 256 * Byte.to_N b1
                else 256 * Byte.to_N b0 + Byte.to_N b1)%N in
      cons u <$> utf_16_units little r
  end.

(** Code points of a sequence of units; a surrogate that is not half of a
    well-formed pair is an error. *)
Fixpoint utf_16_points (us : list N) : result str :=
  match us with
  | [] => Return []
  | u :: t =>
      if ((0xD800 <=? u) && (u <=? 0xDBFF))%N then
        match t with
        | u2 :: t2 =>
            if ((0xDC00 <=? u2) && (u2 <=? 0xDFFF))%N
            then cons (0x10000 + (u - 0xD800) * 0x400 + (u2 - 0xDC00))%N
                   <$> utf_16_points t2
            else Raise UnicodeDecodeError
        | [] => Raise UnicodeDecodeError
        end
      else if ((0xDC00 <=? u) && (u <=? 0xDFFF))%N then Raise UnicodeDecodeError
      else cons u <$> utf_16_points t
  end.

(** [raw.decode("utf-16")]: a byte-order mark chooses the byte order and is
    dropped; without one the order is the machine's (little-endian). *)
Definition utf_16_decode (raw : bytes) : result str :=
  if bytes_startswith raw [xff; xfe]
  then utf_16_units true (drop 2 raw) ≫= utf_16_points
  else if bytes_startswith raw [xfe; xff]
  then utf_16_units false (drop 2 raw) ≫= utf_16_points
  else utf_16_units true raw ≫= utf_16_points.

(** The upper half of code page 1250; five bytes are not assigned. *)
Definition cp1250_table : list (option char) :=
  [Some 0x20AC; None; Some 0x201A; None; Some 0x201E; Some 0x2026;
   Some 0x2020; Some 0x2021; None; Some 0x2030; Some 0x0160; Some 0x2039;
   Some 0x015A; Some 0x0164; Some 0x017D; Some 0x0179; None; Some 0x2018;
   Some 0x2019; Some 0x201C; Some 0x201D; Some 0x2022; Some 0x2013; Some 0x2014;
   None; Some 0x2122; Some 0x0161; Some 0x203A; Some 0x015B; Some 0x0165;
   Some 0x017E; Some 0x017A; Some 0x00A0; Some 0x02C7; Some 0x02D8; Some 0x0141;
   Some 0x00A4; Some 0x0104; Some 0x00A6; Some 0x00A7; Some 0x00A8; Some 0x00A9;
   Some 0x015E; Some 0x00AB; Some 0x00AC; Some 0x00AD; Some 0x00AE; Some 0x017B;
   Some 0x00B0; Some 0x00B1; Some 0x02DB; Some 0x0142; Some 0x00B4; Some 0x00B5;
   Some 0x00B6; Some 0x00B7; Some 0x00B8; Some 0x0105; Some 0x015F; Some 0x00BB;
   Some 0x013D; Some 0x02DD; Some 0x013E; Some 0x017C; Some 0x0154; Some 0x00C1;
   Some 0x00C2; Some 0x0102; Some 0x00C4; Some 0x0139; Some 0x0106; Some 0x00C7;
   Some 0x010C; Some 0x00C9; Some 0x0118; Some 0x00CB; Some 0x011A; Some 0x00CD;
   Some 0x00CE; Some 0x010E; Some 0x0110; Some 0x0143; Some 0x0147; Some 0x00D3;
   Some 0x00D4; Some 0x0150; Some 0x00D6; Some 0x00D7; Some 0x0158; Some 0x016E;
   Some 0x00DA; Some 0x0170; Some 0x00DC; Some 0x00DD; Some 0x0162; Some 0x00DF;
   Some 0x0155; Some 0x00E1; Some 0x00E2; Some 0x0103; Some 0x00E4; Some 0x013A;
   Some 0x0107; Some 0x00E7; Some 0x010D; Some 0x00E9; Some 0x0119; Some 0x00EB;
   Some 0x011B; Some 0x00ED; Some 0x00EE; Some 0x010F; Some 0x0111; Some 0x0144;
   Some 0x0148; Some 0x00F3; Some 0x00F4; Some 0x0151; Some 0x00F6; Some 0x00F7;
   Some 0x0159; Some 0x016F; Some 0x00FA; Some 0x0171; Some 0x00FC; Some 0x00FD;
   Some 0x0163; Some 0x02D9]%N.

Definition cp1250_char (b : byte) : option char :=
  let c := Byte.to_N b in
  if (c <? 0x80)%N then Some c
  else mjoin (cp1250_table !! N.to_nat (c - 0x80)).

(** [raw.decode("cp1250")], strict. *)
Fixpoint cp1250_decode (raw : bytes) : result str :=
  match raw with
  | [] => Return []
  | b :: r =>
      match cp1250_char b with
      | Some c => cons c <$> cp1250_decode r
      | None => Raise UnicodeDecodeError
      end
  end.

(** ** The [csv] module: dialects and the reader

    A dialect is a class; its attributes are the fields below (the reader
    consults no others: [escapechar] is [None] and [strict] is off in every
    dialect this program meets). *)

Inductive Quoting : Set := QUOTE_MINIMAL | QUOTE_NONE.

Record Dialect : Set := mkDialect {
  dialect_delimiter : str;
  dialect_quotechar : str;
  dialect_quoting : Quoting;
  dialect_doublequote : bool;
  dialect_skipinitialspace : bool
}.

(** [csv.excel] as the module defines it. *)
Definition csv_excel : Dialect :=
  mkDialect (lit ",") [0x22%N] QUOTE_MINIMAL true false.

(** The dialect a reader works with, once checked. *)
Record ReaderDialect : Set := mkReaderDialect {
  rd_delimiter : char;
  rd_quotechar : char;
  rd_quoting : Quoting;
  rd_doublequote : bool;
  rd_skipinitialspace : bool
}.

(** What [csv.reader(lines, dialect, quotechar=q, quoting=k)] makes of its
    arguments: the keywords override the attributes of [dialect], and a
    delimiter that is not one character is a [TypeError]. *)
Definition reader_dialect (d : Dialect) (q : str) (k : Quoting)
  : result ReaderDialect :=
  match dialect_delimiter d, q with
  | [c], [qc] =>
      Return (mkReaderDialect c qc k (dialect_doublequote d)
                (dialect_skipinitialspace d))
  | _, _ => Raise TypeError
  end.

Inductive ParserState : Set :=
  | START_RECORD | START_FIELD | IN_FIELD | IN_QUOTED_FIELD
  | QUOTE_IN_QUOTED_FIELD | EAT_CRNL.

Record Reader : Set := mkReader {
  state : ParserState;
  field : str;
  fields : list str
}.

(** What the reader is fed: a character of the line, or the end of it. *)
Inductive event : Set := Char (c : char) | EOL.

Definition field_limit : N := 131072%N.

Definition parse_add_char (st : ParserState) (r : Reader) (c : char)
  : result Reader :=
  if (field_limit <=? N.of_nat (length (field r)))%N then Raise csv_Error
  else Return (mkReader st (field r ++ [c]) (fields r)).

Definition parse_save_field (st : ParserState) (r : Reader) : Reader :=
  mkReader st [] (fields r ++ [field r]).

Definition set_state (st : ParserState) (r : Reader) : Reader :=
  mkReader st (field r) (fields r).

Definition is_newline (e : event) : bool :=
  match e with Char c => ((c =? 10) || (c =? 13))%N | EOL => false end.

Definition is_char (e : event) (x : char) : bool :=
  match e with Char c => (c =? x)%N | EOL => false end.

Definition is_quote (d : ReaderDialect) (e : event) : bool :=
  is_char e (rd_quotechar d)
  && match rd_quoting d with QUOTE_NONE => false | _ => true end.

Definition after_line (e : event) : ParserState :=
  match e with EOL => START_RECORD | _ => EAT_CRNL end.

(** One step of the reader's state machine ([parse_process_char]). *)
Definition parse_process_char (d : ReaderDialect) (r : Reader) (e : event)
  : result Reader :=
  let start_field :=
    match e with
    | EOL => Return (parse_save_field START_RECORD r)
    | Char c =>
        if is_newline e then Return (parse_save_field EAT_CRNL r)
        else if is_quote d e then Return (set_state IN_QUOTED_FIELD r)
        else if (c =? 0x20)%N && rd_skipinitialspace d
        then Return (set_state START_FIELD r)
        else if (c =? rd_delimiter d)%N
        then Return (parse_save_field START_FIELD r)
        else parse_add_char IN_FIELD r c
    end in
  match state r with
  | START_RECORD =>
      match e with
      | EOL => Return r
      | Char _ =>
          if is_newline e then Return (set_state EAT_CRNL r) else start_field
      end
  | START_FIELD => start_field
  | IN_FIELD =>
      match e with
      | EOL => Return (parse_save_field START_RECORD r)
      | Char c =>
          if is_newline e then Return (parse_save_field EAT_CRNL r)
          else if (c =? rd_delimiter d)%N
          then Return (parse_save_field START_FIELD r)
          else parse_add_char IN_FIELD r c
      end
  | IN_QUOTED_FIELD =>
      match e with
      | EOL => Return r
      | Char c =>
          if is_quote d e
          then Return (set_state (if rd_doublequote d
                                  then QUOTE_IN_QUOTED_FIELD else IN_FIELD) r)
          else parse_add_char IN_QUOTED_FIELD r c
      end
  | QUOTE_IN_QUOTED_FIELD =>
      match e with
      | EOL => Return (parse_save_field START_RECORD r)
      | Char c =>
          if is_quote d e then parse_add_char IN_QUOTED_FIELD r c
          else if (c =? rd_delimiter d)%N
          then Return (parse_save_field START_FIELD r)
          else if is_newline e then Return (parse_save_field EAT_CRNL r)
          else parse_add_char IN_FIELD r c
      end
  | EAT_CRNL =>
      match e with
      | EOL => Return (set_state START_RECORD r)
      | Char _ => if is_newline e then Return r else Raise csv_Error
      end
  end.

Fixpoint feed_line (d : ReaderDialect) (r : Reader) (line : str)
  : result Reader :=
  match line with
  | [] => parse_process_char d r EOL
  | c :: t => parse_process_char d r (Char c) ≫= fun r' => feed_line d r' t
  end.

Definition fresh_reader : Reader := mkReader START_RECORD [] [].

(** The records of a sequence of lines: a record ends when the machine is
    back at [START_RECORD] after a line; at the end of the input an open
    quoted field closes the last record. *)
Fixpoint read_records (d : ReaderDialect) (r : Reader) (lines : list str)
  : result (list (list str)) :=
  match lines with
  | [] =>
      if truthy (field r)
         || match state r with IN_QUOTED_FIELD => true | _ => false end
      then Return [fields (parse_save_field START_RECORD r)]
      else Return []
  | line :: rest =>
      feed_line d r line ≫= fun r' =>
      match state r' with
      | START_RECORD => cons (fields r') <$> read_records d fresh_reader rest
      | _ => read_records d r' rest
      end
  end.

(** [list(csv.reader(lines, dialect, quotechar=q, quoting=k))] *)
Definition csv_reader (lines : list str) (d : Dialect) (q : str) (k : Quoting)
  : result (list (list str)) :=
  reader_dialect d q k ≫= fun rd => read_records rd fresh_reader lines.

(** The lines [io.StringIO(s, newline="")] yields: each keeps its line end,
    which is LF, CR or CR LF. *)
Fixpoint stringio_lines (cur : str) (s : str) : list str :=
  match s with
  | [] => if truthy cur then [cur] else []
  | c :: t =>
      if (c =? 10)%N then (cur ++ [c]) :: stringio_lines [] t
      else if (c =? 13)%N then
        match t with
        | 10%N :: t' => (cur ++ [c; 10%N]) :: stringio_lines [] t'
        | _ => (cur ++ [c]) :: stringio_lines [] t
        end
      else stringio_lines (cur ++ [c]) t
  end.

Definition is_linebreak (c : char) : bool :=
  ((0xA <=? c) && (c <=? 0xD) || (0x1C <=? c) && (c <=? 0x1E)
   || (c =? 0x85) || (c =? 0x2028) || (c =? 0x2029))%N.

(** [s.splitlines()]: the line ends are dropped. *)
Fixpoint splitlines_from (cur : str) (s : str) : list str :=
  match s with
  | [] => if truthy cur then [cur] else []
  | c :: t =>
      if (c =? 13)%N then
        match t with
        | 10%N :: t' => cur :: splitlines_from [] t'
        | _ => cur :: splitlines_from [] t
        end
      else if is_linebreak c then cur :: splitlines_from [] t
      else splitlines_from (cur ++ [c]) t
  end.

Definition splitlines (s : str) : list str := splitlines_from [] s.

(** [max(xs, key=f)] on a non-empty list: the first of the greatest. *)
Fixpoint max_by {A} (f : A -> Z) (best : A) (xs : list A) : A :=
  match xs with
  | [] => best
  | x :: t => max_by f (if (f best <? f x)%Z then x else best) t
  end.

(** ** Shared state

    [_parse_csv] assigns attributes of the class [csv.excel], which lives as
    long as the interpreter: the class is the state [M] threads. *)

Definition M (A : Type) : Type := Dialect -> result A * Dialect.

#[global] Instance M_ret : MRet M := fun A a excel => (Return a, excel).
#[global] Instance M_bind : MBind M := fun A B f m excel =>
  match m excel with
  | (Return a, excel') => f a excel'
  | (Raise e, excel') => (Raise e, excel')
  end.

(** A computation that touches no state. *)
Definition lift {A} (r : result A) : M A := fun excel => (r, excel).

(** * Part I, continued.  The program: [converter.py] *)

(** ** The decoder *)

Definition has_utf_16_bom (raw : bytes) : bool :=
  bytes_startswith raw [xff; xfe] || bytes_startswith raw [xfe; xff].

Definition decode_csv_bytes (raw : bytes) : result str :=
  if has_utf_16_bom raw then utf_16_decode raw
  else
    let attempt :=
      utf_8_sig_decode raw ≫= fun text =>
      if bool_decide (0%N ∈ text) then utf_16_decode raw else Return text in
    match attempt with
    | Return text => Return text
    | Raise UnicodeDecodeError =>
        match cp1250_decode raw with
        | Return text => Return text
        | Raise UnicodeDecodeError => Return (utf_8_decode_replace raw)
        | Raise e => Raise e
        end
    | Raise e => Raise e
    end.

Section Decoder.
(** The codecs the interpreter knows besides the three above, by name, with
    the [replace] error policy (an unknown name is a [LookupError]). *)
Variable codecs_decode_replace : str -> bytes -> result str.

Definition decode_csv_bytes_with_encoding (raw : bytes) (encoding : str)
  : result str :=
  let enc := lower (strip (str_or encoding (lit "auto"))) in
  if str_eqb enc (lit "auto") then decode_csv_bytes raw
  else if str_eqb enc (lit "utf-16") || str_eqb enc (lit "utf16")
  then utf_16_decode raw
  else if str_eqb enc (lit "utf-8") || str_eqb enc (lit "utf8")
  then utf_8_sig_decode raw
  else if str_eqb enc (lit "cp1250") || str_eqb enc (lit "windows-1250")
          || str_eqb enc (lit "win1250")
  then cp1250_decode raw
  else codecs_decode_replace enc raw.
End Decoder.

(** ** Cells, preambles, header labels *)

Definition _escape_md_cell (value : str) : str :=
  replace [13%N] (lit " ")
    (replace [10%N] (lit " ")
       (replace [13%N; 10%N] (lit " ")
          (replace (lit "|") (lit "\|")
             (replace [0%N] [] value)))).

Definition _normalize_preamble (preamble : str) : str :=
  if negb (truthy preamble) then []
  else
    let p1 := if negb (endswith preamble [10%N]) then preamble ++ [10%N]
              else preamble in
    if negb (endswith p1 [10%N; 10%N]) then p1 ++ [10%N] else p1.

Definition BOM : char := 0xFEFF%N.

Definition _clean_header (h : str) : str :=
  strip (lstrip_chars [BOM] (replace [0%N] [] h)).

(** ** Options *)

Record CsvParseOptions : Set := mkCsvParseOptions {
  delimiter : str;
  has_header : bool;
  skip_lines : Z;
  limit_lines : option Z;
  quote_mode : str;
  quotechar : str
}.

(** [CsvParseOptions()] *)
Definition default_options : CsvParseOptions :=
  mkCsvParseOptions (lit "auto") true 0 None (lit "standard") [0x22%N].

Record SortKey : Set := mkSortKey {
  field_1based : Z;
  type : str;
  direction : str;
  ignore_case : bool
}.

(** ** Positions *)

(** The loop of [_parse_positions] over the stripped, non-empty parts. *)
Fixpoint collect_positions (parts : list str) : result (list Z) :=
  match parts with
  | [] => Return []
  | p :: rest =>
      if negb (isdigit p) then collect_positions rest
      else py_int p ≫= fun n => cons n <$> collect_positions rest
  end.

Definition _parse_positions (positions : option str) : result (option (list Z)) :=
  match positions with
  | None | Some [] => Return None
  | Some positions =>
      let parts := filter (fun p => truthy p) (map strip (split (lit ",") positions)) in
      collect_positions parts ≫= fun out =>
      Return (match out with [] => None | _ => Some out end)
  end.

Definition _apply_positions (headers : list str) (rows : list (list str))
    (positions_1based : option (list Z)) : list str * list (list str) :=
  match positions_1based with
  | None | Some [] => (headers, rows)
  | Some ps =>
      let idxs := map (fun p => (p - 1)%Z) (filter (fun p => (0 < p)%Z) ps) in
      let idxs := filter (fun i => (i < Z.of_nat (length headers))%Z) idxs in
      match idxs with
      | [] => (headers, rows)
      | _ =>
          let new_headers := map (fun i => nth (Z.to_nat i) headers []) idxs in
          let new_rows :=
            map (fun r =>
                   map (fun i => if bool_decide (i < Z.of_nat (length r))%Z
                                 then nth (Z.to_nat i) r [] else []) idxs)
                rows in
          (new_headers, new_rows)
      end
  end.

(** ** The parser *)

(** [[f"Field {i+1}" for i in range(width)]] *)
Definition field_labels (width : nat) : list str :=
  map (fun i => lit "Field " ++ str_of_nat (i + 1)) (seq 0 width).

(** [# skip / limit] *)
Definition skip_and_limit (opts : CsvParseOptions) (reader : list (list str))
  : list (list str) :=
  let skip := Z.max 0 (skip_lines opts) in
  let reader := if (skip =? 0)%Z then reader else drop (Z.to_nat skip) reader in
  match limit_lines opts with
  | Some l => take (Z.to_nat (Z.max 0 l)) reader
  | None => reader
  end.

(** The rows that are left, turned into a header and data rows (the last
    part of [_parse_csv]). *)
Definition header_and_rows (has_header : bool) (reader : list (list str))
  : list str * list (list str) :=
  match reader with
  | [] => ([], [])
  | first :: rest =>
      if has_header then (map _clean_header first, rest)
      else
        let width := foldr Nat.max 0 (map length reader) in
        (field_labels width, reader)
  end.

(** The last-resort tier of the parser: a plain split of every non-empty
    line on the candidate that occurs most often in the first line. *)
Definition naive_split (dialect : Dialect) (normalized : str) : list (list str) :=
  let lines := filter (fun ln => truthy ln) (split [10%N] normalized) in
  let first := match lines with ln :: _ => ln | [] => [] end in
  let key (d : str) : Z := if truthy d then Z.of_nat (count d first) else (-1)%Z in
  let delim :=
    str_or (max_by key (dialect_delimiter dialect)
              [lit ";"; lit ","; [9%N]; lit "|"])
           (lit ",") in
  map (split delim) lines.

Section Parser.
(** [csv.Sniffer().sniff(sample, delimiters=",;\t|")]: the dialect class
    the sniffer builds, or [None] when it raises [csv.Error].  The sniffer is
    a heuristic of the standard library; the parser is verified for any
    sniffer. *)
Variable sniff : str -> option Dialect.

Definition _parse_csv (csv_text : str) (opts : CsvParseOptions)
  : M (list str * list (list str)) := fun excel =>
  let delim := str_or (delimiter opts) (lit "auto") in
  let delim := if str_eqb delim (lit "tab") then [9%N] else delim in
  let delim := if str_eqb delim (lit "pipe") then lit "|" else delim in
  (* [dialect] names either the shared class [csv.excel] ([None]) or a class
     of its own made by the sniffer *)
  let '(sniffed, excel) :=
    if negb (str_eqb delim (lit "auto"))
    then (None,
          mkDialect delim (dialect_quotechar excel) (dialect_quoting excel)
            (dialect_doublequote excel) (dialect_skipinitialspace excel))
    else (sniff (take 4096 csv_text), excel) in
  let quotechar := take 1 (str_or (quotechar opts) [0x22%N]) in
  let quoting :=
    if str_eqb (quote_mode opts) (lit "no_quotes") then QUOTE_NONE
    else QUOTE_MINIMAL in
  let assign (d : Dialect) :=
    mkDialect (dialect_delimiter d) quotechar quoting true
      (dialect_skipinitialspace d) in
  let '(dialect, excel) :=
    match sniffed with
    | Some d => (assign d, excel)
    | None => (assign excel, assign excel)
    end in
  let normalized := replace [13%N] [10%N] (replace [13%N; 10%N] [10%N] csv_text) in
  let parsed :=
    match csv_reader (stringio_lines [] normalized) dialect quotechar quoting with
    | Raise csv_Error =>
        match csv_reader (splitlines normalized) dialect quotechar quoting with
        | Raise csv_Error => Return (naive_split dialect normalized)
        | r => r
        end
    | r => r
    end in
  (header_and_rows (has_header opts) ∘ skip_and_limit opts <$> parsed, excel).
End Parser.

(** ** The sorter *)

(** The text [float] is given: the value stripped, commas turned to dots. *)
Definition numeric_text (v : str) : str :=
  replace (lit ",") (lit ".") (strip v).

Definition to_num (v : str) : float :=
  match py_float (numeric_text v) with
  | Some x => x
  | None => Inf true
  end.

(** The index of the sort column, clamped into the header. *)
Definition sort_index (key : SortKey) (headers_len : nat) : nat :=
  Z.to_nat (Z.max 0 (Z.min (Z.of_nat headers_len - 1) (field_1based key - 1))).

Definition get_val (idx : nat) (r : list str) : str := nth idx r [].

Definition _apply_sort (rows : list (list str)) (key : SortKey) (headers_len : nat)
  : list (list str) :=
  let idx := sort_index key headers_len in
  let reverse := str_eqb (lower (str_or (direction key) (lit "asc"))) (lit "desc") in
  let typ := lower (str_or (type key) (lit "string")) in
  if str_eqb typ (lit "numeric")
  then sorted float_ltb (fun r => to_num (get_val idx r)) reverse rows
  else if ignore_case key
  then sorted str_ltb (fun r => casefold (get_val idx r)) reverse rows
  else sorted str_ltb (get_val idx) reverse rows.

(** ** The table renderer *)

(** The table text for a header and rows (the part of
    [csv_text_to_markdown_table] after projection and sorting). *)
Definition table_lines (headers : list str) (rows : list (list str))
    (add_line_numbers : bool) (table_style : str) : list str :=
  let headers := if add_line_numbers then lit "#" :: headers else headers in
  let rows :=
    if add_line_numbers
    then imap (fun i r => str_of_nat (i + 1) :: r) rows
    else rows in
  let headers_escaped := map _escape_md_cell headers in
  let head :=
    if str_eqb table_style (lit "jira")
    then [lit "|| " ++ join (lit " || ") headers_escaped ++ lit " ||"]
    else [lit "| " ++ join (lit " | ") headers_escaped ++ lit " |";
          lit "|" ++ join (lit "|") (map (fun _ => lit "---") headers_escaped)
            ++ lit "|"] in
  head ++ map (fun row => lit "| " ++ join (lit " | ") (map _escape_md_cell row)
                            ++ lit " |") rows.

Definition render_table (headers : list str) (rows : list (list str))
    (add_line_numbers : bool) (eol table_style : str) : str :=
  let out := table_lines headers rows add_line_numbers table_style in
  let line_ending :=
    if str_eqb (lower (str_or eol (lit "lf"))) (lit "crlf")
    then [13%N; 10%N] else [10%N] in
  join line_ending out ++ line_ending.

Section Renderers.
Variable sniff : str -> option Dialect.

Definition csv_text_to_markdown_table (csv_text preamble : str)
    (parse : option CsvParseOptions) (positions : option str)
    (add_line_numbers : bool) (sort : option SortKey) (eol table_style : str)
  : M str :=
  let parse := default default_options parse in
  '(headers, rows) ← _parse_csv sniff csv_text parse;
  ps ← lift (_parse_positions positions);
  let '(headers, rows) := _apply_positions headers rows ps in
  let rows :=
    match sort, headers with
    | Some key, _ :: _ => _apply_sort rows key (length headers)
    | _, _ => rows
    end in
  mret (_normalize_preamble preamble
        ++ render_table headers rows add_line_numbers eol table_style).
End Renderers.

(** ** The outline renderer *)

Definition NOTEBOOKLM_MIN_FIELDS : list str :=
  map lit
    ["Keyword"; "Country"; "Languages"; "Volume"; "Global volume"; "KD";
     "Difficulty"; "Keyword difficulty"; "CPC"; "CPS"; "Traffic potential";
     "Global traffic potential"; "SERP features"; "SERP Features";
     "Current organic traffic"; "Previous organic traffic";
     "Organic traffic change"; "Current position"; "Previous position";
     "Current URL"; "Previous URL"; "Parent Keyword"; "Parent keyword";
     "Last Update"; "Last update"; "First seen"; "Intents"; "Intent"]%string.

(** A dict built from pairs in order: a later pair replaces an earlier one
    with the same key. *)
Definition dict_of (pairs : list (str * str)) : gmap str str :=
  foldl (fun m kv => <[kv.1 := kv.2]> m) ∅ pairs.

(** [{_clean_header(h).lower(): h for h in headers}] *)
Definition header_map_of (headers : list str) : gmap str str :=
  dict_of (map (fun h => (lower (_clean_header h), h)) headers).

Definition is_full (detail : str) : bool := str_eqb (lower detail) (lit "full").

(** The fields the bullets are drawn from. *)
Definition choose_fields (detail : str) (headers : list str) : list str :=
  let header_map := header_map_of headers in
  if is_full detail then headers
  else
    let fields := omap (fun f => header_map !! lower f) NOTEBOOKLM_MIN_FIELDS in
    let keyword_header_candidate := header_map !! lit "keyword" in
    if negb (bool_decide (fields <> []))
       || match keyword_header_candidate with
          | Some k => bool_decide (k ∈ headers)
                      && forallb (fun h => str_eqb h k) fields
          | None => false
          end
    then take (Nat.min (length headers) 8) headers
    else fields.

(** [headers.index(h)]: the first position of [h]. *)
Fixpoint index_of (h : str) (headers : list str) : nat :=
  match headers with
  | [] => 0
  | x :: t => if str_eqb x h then 0 else S (index_of h t)
  end.

Definition keyword_index (headers : list str) : nat :=
  match header_map_of headers !! lit "keyword" with
  | Some k => if bool_decide (k ∈ headers) then index_of k headers else 0
  | None => 0
  end.

(** [rows[:n]] for an integer [n] of either sign. *)
Definition slice_to {A} (n : Z) (l : list A) : list A :=
  if (n <? 0)%Z then take (length l - Z.to_nat (- n)) l else take (Z.to_nat n) l.

(** "Radek " with its Czech letters: the label of a record without title. *)
Definition ROW_LABEL : str := [0x158; 0xE1]%N ++ lit "dek ".

Definition bullet (keyword_header : option str) (row_by_header : gmap str str)
    (h : str) : option str :=
  if bool_decide (keyword_header = Some h) then None
  else
    let v := strip (_escape_md_cell (default [] (row_by_header !! h))) in
    if negb (truthy v) then None
    else
      let v := if startswith v (lit "http://") || startswith v (lit "https://")
               then lit "<" ++ v ++ lit ">" else v in
      Some (lit "- **" ++ h ++ lit "**: " ++ v).

(** The lines of one record: the body of the loop over the rows; [i] is the
    position of the row, from 1. *)
Definition record_lines (headers fields : list str) (i : nat) (row : list str)
  : result (list str) :=
  let keyword_header := header_map_of headers !! lit "keyword" in
  let values := take (length headers) (row ++ replicate (length headers) []) in
  match values !! keyword_index headers with
  | None => Raise IndexError
  | Some cell =>
      let kw := strip (_escape_md_cell cell) in
      let kw := if truthy kw then kw else ROW_LABEL ++ str_of_nat i in
      let row_by_header := dict_of (zip headers values) in
      Return ([lit "### " ++ kw]
                ++ omap (bullet keyword_header row_by_header) fields ++ [[]])
  end.

Fixpoint records_from (headers fields : list str) (i : nat)
    (rows : list (list str)) : result (list str) :=
  match rows with
  | [] => Return []
  | row :: rest =>
      record_lines headers fields i row ≫= fun ls =>
      app ls <$> records_from headers fields (S i) rest
  end.

(** The outline of a header and rows (the part of
    [csv_text_to_markdown_notebooklm] after projection and sorting). *)
Definition outline_lines (headers : list str) (rows : list (list str))
    (detail : str) (max_rows : option Z) : result (list str) :=
  let fields := choose_fields detail headers in
  let rows := match max_rows with Some n => slice_to n rows | None => rows end in
  let intro :=
    [lit "## Export (NotebookLM)" ++ [10%N];
     lit "- **" ++ [0x158; 0xE1; 0x64; 0x6B; 0x16F]%N ++ lit "**: "
       ++ str_of_nat (length rows);
     lit "- **Re" ++ [0x17E%N] ++ lit "im**: "
       ++ (if is_full detail then lit "full" else lit "minimal");
     [];
     lit "## Z" ++ [0xE1%N] ++ lit "znamy" ++ [10%N]] in
  app intro <$> records_from headers fields 1 rows.

Section Outline.
Variable sniff : str -> option Dialect.

Definition csv_text_to_markdown_notebooklm (csv_text preamble detail : str)
    (max_rows : option Z) (parse : option CsvParseOptions)
    (positions : option str) (sort : option SortKey) : M str :=
  let parse := default default_options parse in
  '(headers, rows) ← _parse_csv sniff csv_text parse;
  ps ← lift (_parse_positions positions);
  let '(headers, rows) := _apply_positions headers rows ps in
  let rows :=
    match sort, headers with
    | Some key, _ :: _ => _apply_sort rows key (length headers)
    | _, _ => rows
    end in
  out ← lift (outline_lines headers rows detail max_rows);
  mret (_normalize_preamble preamble ++ rstrip (join [10%N] out) ++ [10%N]).
End Outline.

(** ** The script [csv_to_md.py]

    The script reads the bytes of [data.csv], converts them with the
    defaults, writes the header [CONTEXT], made with the date of the day,
    and the table to [data.md], and prints a closing line.  A fresh
    interpreter that has imported [converter] and [datetime] runs it: the
    shared dialect starts as [csv.excel], and the date of the day is given.

    What the file system and the terminal do is outside the program.  The
    three operations the script uses on them are parameters: each is a step
    on the state [W] of the outside that returns, or raises an exception of
    the outside, of type [E] (a file that is missing, a terminal that cannot
    encode the closing line, ...). *)

(** What ends the script early: an exception of the outside, or one of the
    conversion. *)
Inductive script_exn (E : Type) : Type :=
  | Outside (e : E)
  | Inside (x : exn).
Arguments Outside {E} e.
Arguments Inside {E} x.

Definition Script (W E A : Type) : Type := W -> (script_exn E + A) * W.

#[global] Instance Script_bind {W E} : MBind (Script W E) := fun A B f m w =>
  match m w with
  | (inr a, w') => f a w'
  | (inl e, w') => (inl e, w')
  end.

(** A step of the outside, and a step of the program. *)
Definition outside {W E A} (op : W -> (E + A) * W) : Script W E A := fun w =>
  match op w with
  | (inr a, w') => (inr a, w')
  | (inl e, w') => (inl (Outside e), w')
  end.

Definition inside {W E A} (r : result A) : Script W E A := fun w =>
  match r with
  | Return a => (inr a, w)
  | Raise x => (inl (Inside x), w)
  end.

(** [s.rfind(c)] *)
Fixpoint rfind (c : char) (s : str) : option nat :=
  match s with
  | [] => None
  | x :: t =>
      match rfind c t with
      | Some i => Some (S i)
      | None => if (x =? c)%N then Some 0 else None
      end
  end.

(** [Path(name).suffix], for a name without a directory. *)
Definition path_suffix (name : str) : str :=
  match rfind 0x2E%N name with
  | Some i => if (0 <? i) && (i <? length name - 1) then drop i name else []
  | None => []
  end.

(** [Path(name).with_suffix(suffix).name], for a name without a directory
    that is not empty and a suffix made of a dot and more. *)
Definition with_suffix (name suffix : str) : str :=
  let old_suffix := path_suffix name in
  if negb (truthy old_suffix) then name ++ suffix
  else take (length name - length old_suffix) name ++ suffix.

Definition INPUT : str := lit "data.csv".
Definition OUTPUT : str := with_suffix INPUT (lit ".md").

(** [f"{today.day}. {today.month}. {today.year}"] *)
Definition cz_date (day month year : nat) : str :=
  str_of_nat day ++ lit ". " ++ str_of_nat month ++ lit ". " ++ str_of_nat year.

Definition CONTEXT (day month year : nat) : str :=
  lit "# SEO data " ++ [0x2013%N] ++ lit " organick" ++ [0xE1%N] ++ lit " kl"
    ++ [0xED; 0x10D]%N ++ lit "ov" ++ [0xE1%N] ++ lit " slova" ++ [10%N]
    ++ lit "Zdroj: CSV export" ++ [10%N]
    ++ lit "Datum: " ++ cz_date day month year ++ [10; 10]%N.

(** The line printed at the end. *)
Definition DONE : str := [0x2705%N] ++ lit " Hotovo: data.md".

Section Script.
Variable sniff : str -> option Dialect.
Variables W E : Type.
(** [open(name, "rb").read()] *)
Variable read_bytes : str -> W -> (E + bytes) * W.
(** [with open(name, "w", encoding="utf-8") as f:] and in it one [f.write]
    for each of the texts, in their order. *)
Variable write_texts : str -> list str -> W -> (E + unit) * W.
(** [print(text)] *)
Variable print_line : str -> W -> (E + unit) * W.

(** The script, with the date of the day. *)
Definition csv_to_md (day month year : nat) : Script W E unit :=
  raw ← outside (read_bytes INPUT);
  csv_text ← inside (decode_csv_bytes raw);
  table_md ← inside (csv_text_to_markdown_table sniff csv_text [] None None
                       false None (lit "lf") (lit "markdown") csv_excel).1;
  _ ← outside (write_texts OUTPUT [CONTEXT day month year; table_md]);
  outside (print_line DONE).
End Script.

(** * Part II.  Notions the properties are stated with

    The functions and predicates below are not part of the program: they say
    in their own terms what the properties compare the program with. *)

(** ** Cells *)

Definition remove_nul (s : str) : str := List.filter (fun c => negb (c =? 0)%N) s.

(** Pipes escaped one character at a time. *)
Definition escape_pipes (s : str) : str :=
  flat_map (fun c => if (c =? 0x7C)%N then [0x5C; 0x7C]%N else [c]) s.

(** Line ends flattened in one pass: CR LF counts as one line end. *)
Fixpoint flatten_newlines (s : str) : str :=
  match s with
  | [] => []
  | c :: t =>
      if (c =? 13)%N then
        match t with
        | 10%N :: t' => 0x20%N :: flatten_newlines t'
        | _ => 0x20%N :: flatten_newlines t
        end
      else if (c =? 10)%N then 0x20%N :: flatten_newlines t
      else c :: flatten_newlines t
  end.

Definition subst_char (x y : char) (s : str) : str :=
  map (fun c => if (c =? x)%N then y else c) s.

(** ** Header labels *)

(** A header label as the specification words it: the byte-order marks in
    front are stripped, then the white space around. *)
Definition label_stripped (h : str) : str := strip (lstrip_chars [BOM] h).

(** ** Decoding *)

(** The fallback as the specification words it: after a NUL in the UTF-8
    text the buffer is decoded as UTF-16, whatever that gives. *)
Definition decode_auto_as_specified (raw : bytes) : result str :=
  if has_utf_16_bom raw then utf_16_decode raw
  else
    match utf_8_sig_decode raw with
    | Return text =>
        if bool_decide (0%N ∈ text) then utf_16_decode raw else Return text
    | Raise _ =>
        match cp1250_decode raw with
        | Return text => Return text
        | Raise _ => Return (utf_8_decode_replace raw)
        end
    end.

(** What the program falls back to after UTF-8 (or the UTF-16 second try)
    has failed. *)
Definition single_byte_fallback (raw : bytes) : str :=
  match cp1250_decode raw with
  | Return text => text
  | Raise _ => utf_8_decode_replace raw
  end.

(** ** Sorting *)

(** [a] may stand before [b]: the key of [b] is not below the key of [a]. *)
Definition in_order {A K : Type} (ltb : K -> K -> bool) (key : A -> K)
    (a b : A) : Prop :=
  ltb (key b) (key a) = false.

Definition not_nan (x : float) : Prop := x <> NaN.

(** ** The outline *)

(** The name a header is matched by: cleaned and lowered. *)
Definition header_key (h : str) : str := lower (_clean_header h).

(** [h] is the last of the headers with its key. *)
Definition last_with_key (headers : list str) (h : str) : Prop :=
  exists l1 l2, headers = l1 ++ h :: l2
                /\ forall h', h' ∈ l2 -> header_key h' <> header_key h.

(** [h] matches the allowlist, case apart. *)
Definition allowlisted (h : str) : Prop :=
  header_key h ∈ map lower NOTEBOOKLM_MIN_FIELDS.

(** The columns the minimal mode draws from the allowlist. *)
Definition matched (headers : list str) (h : str) : Prop :=
  allowlisted h /\ last_with_key headers h.

(** The heading of a record: the cell of the keyword column, escaped and
    trimmed, or the label with the position when that is empty. *)
Definition record_heading (headers : list str) (i : nat) (row : list str) : str :=
  let value := strip (_escape_md_cell (nth (keyword_index headers) row [])) in
  if truthy value then value else ROW_LABEL ++ str_of_nat i.

(** ** Escaped pipes *)

(** Every pipe of [s] stands behind a backslash; [escaped] tells whether the
    character before [s] is a backslash. *)
Fixpoint pipes_escaped (escaped : bool) (s : str) : bool :=
  match s with
  | [] => true
  | c :: t =>
      (if (c =? 0x7C)%N then escaped else true) && pipes_escaped (c =? 0x5C)%N t
  end.

(** ** Positions *)

(** The positions that name a column of the header. *)
Definition valid_positions (headers : list str) (ps : list Z) : list Z :=
  filter (fun p => (0 < p <= Z.of_nat (length headers))%Z) ps.

(** The cells of [r] at the positions [valid], an empty text where the row is
    too short. *)
Definition project (valid : list Z) (r : list str) : list str :=
  map (fun p => nth (Z.to_nat (p - 1)) r []) valid.

(** ** The parser *)

(** The delimiter a call works with: the option, [auto] when it is empty,
    with the names [tab] and [pipe] replaced by their characters. *)
Definition effective_delimiter (opts : CsvParseOptions) : str :=
  let delim := str_or (delimiter opts) (lit "auto") in
  let delim := if str_eqb delim (lit "tab") then [9%N] else delim in
  if str_eqb delim (lit "pipe") then lit "|" else delim.

Definition effective_quotechar (opts : CsvParseOptions) : str :=
  take 1 (str_or (quotechar opts) [0x22%N]).

Definition effective_quoting (opts : CsvParseOptions) : Quoting :=
  if str_eqb (quote_mode opts) (lit "no_quotes") then QUOTE_NONE
  else QUOTE_MINIMAL.

(** The text the readers are given: CR LF and CR turned into LF. *)
Definition normalize_line_ends (csv_text : str) : str :=
  replace [13%N] [10%N] (replace [13%N; 10%N] [10%N] csv_text).

(** The three tiers of the parser: the reader on the lines of the text with
    their line ends, then on the lines without them, then the plain split. *)
Definition three_tiers (dialect : Dialect) (quotechar : str) (quoting : Quoting)
    (normalized : str) : result (list (list str)) :=
  match csv_reader (stringio_lines [] normalized) dialect quotechar quoting with
  | Raise csv_Error =>
      match csv_reader (splitlines normalized) dialect quotechar quoting with
      | Raise csv_Error => Return (naive_split dialect normalized)
      | r => r
      end
  | r => r
  end.

(** ** Plain CSV text *)

(** A character that is neither the delimiter [d], nor the quote character
    [q], nor a line end. *)
Definition ordinary (d q c : char) : Prop :=
  c <> d /\ c <> q /\ c <> 10%N /\ c <> 13%N.

(** A field written as it stands: ordinary characters, not more than the
    reader admits in one field. *)
Definition plain_field (d q : char) (f : str) : Prop :=
  Forall (ordinary d q) f /\ (N.of_nat (length f) <= field_limit)%N.

(** A row of plain fields that is not written as an empty line: it has a
    field, and more than the one empty field. *)
Definition plain_row (d q : char) (row : list str) : Prop :=
  Forall (plain_field d q) row /\ row <> [] /\ row <> [[]].

(** The CSV text of rows: the fields of a row joined by the delimiter, every
    row ended by a line feed. *)
Definition csv_of (d : char) (rows : list (list str)) : str :=
  concat (map (fun row => join [d] row ++ [10%N]) rows).

(** ** The cells of a record *)

(** The position of the last column labelled [h]. *)
Fixpoint last_column (h : str) (headers : list str) : option nat :=
  match headers with
  | [] => None
  | x :: t =>
      match last_column h t with
      | Some j => Some (S j)
      | None => if str_eqb x h then Some 0 else None
      end
  end.

(** The cell of a row under the label [h]: that of the last column labelled
    [h], empty when the row is too short or no column has the label. *)
Definition labelled_cell (headers row : list str) (h : str) : str :=
  match last_column h headers with
  | Some j => nth j row []
  | None => []
  end.

(** ** UTF-16 *)

(** A character of the Basic Multilingual Plane that is no surrogate. *)
Definition bmp_scalar (c : char) : Prop :=
  (c < 0xD800 \/ 0xE000 <= c < 0x10000)%N.

(** UTF-16 of such characters: two bytes each, the low byte first when
    [little]. *)
Definition utf_16_encode_bmp (little : bool) (text : str) : bytes :=
  flat_map (fun c => if little
                     then [byte_of_N (c mod 256); byte_of_N (c / 256)]
                     else [byte_of_N (c / 256); byte_of_N (c mod 256)])%N
    text.

(** * Part III.  Properties *)

(** ** Results *)

Lemma fmap_raise {A B} (f : A -> B) (r : result A) (e : exn) :
  f <$> r = Raise e -> r = Raise e.
Proof. destruct r; cbn; congruence. Qed.

Lemma fmap_return {A B} (f : A -> B) (r : result A) (b : B) :
  f <$> r = Return b -> exists a, r = Return a /\ b = f a.
Proof. destruct r; cbn; [|done]. intros [= <-]. eauto. Qed.

(** ** Text lemmas *)

Lemma startswith_nil (s : str) : startswith s [] = true.
Proof. by destruct s. Qed.

(** Replacing a single character is a character-wise substitution. *)
Lemma replace_char (x : char) (new s : str) :
  replace [x] new s = flat_map (fun c => if (c =? x)%N then new else [c]) s.
Proof.
  unfold replace. induction s as [|c t IH]; [done|].
  cbn [replace_from flat_map startswith length Nat.sub].
  rewrite startswith_nil, andb_true_r, N.eqb_sym, IH.
  by destruct (c =? x)%N.
Qed.

Lemma replace_nul (s : str) : replace [0%N] [] s = remove_nul s.
Proof.
  rewrite replace_char. induction s as [|c t IH]; [done|].
  cbn [flat_map remove_nul List.filter]. fold (remove_nul t). rewrite IH.
  by destruct (c =? 0)%N.
Qed.

Lemma replace_char_char (x y : char) (s : str) :
  replace [x] [y] s = subst_char x y s.
Proof.
  rewrite replace_char. induction s as [|c t IH]; [done|].
  cbn [flat_map subst_char map]. fold (subst_char x y t). rewrite IH.
  by destruct (c =? x)%N.
Qed.

(** The three passes over line ends, CR LF first, agree with the one pass. *)
Lemma three_passes_flatten (n : nat) (s : str) :
  length s <= n ->
  subst_char 13%N 0x20%N
    (subst_char 10%N 0x20%N (replace_from [13; 10]%N [0x20%N] 0 s))
  = flatten_newlines s.
Proof.
  unfold subst_char.
  revert s. induction n as [|n IH]; intros s Hn.
  { destruct s; [done | simpl in Hn; lia]. }
  destruct s as [|c t]; [done|].
  simpl in Hn.
  cbn [replace_from startswith length Nat.sub flatten_newlines].
  destruct (N.eqb_spec 13 c) as [<-|Hc].
  - destruct t as [|c2 t2]; [done|].
    cbn [startswith]. rewrite startswith_nil, andb_true_r.
    destruct (N.eqb_spec 10 c2) as [<-|Hc2].
    + cbn [andb app replace_from map N.eqb Pos.eqb].
      rewrite IH by (simpl in Hn; lia). reflexivity.
    + cbn [andb N.eqb Pos.eqb map].
      rewrite IH by lia.
      destruct c2 as [|p]; [done|].
      repeat (destruct p as [p|p|]; try done).
  - cbn [andb map]. rewrite IH by lia.
    destruct (N.eqb_spec c 10) as [->|_]; [done|].
    by destruct (N.eqb_spec c 13) as [->|_].
Qed.

(** C7.  A rendered cell is the input with every NUL removed, every pipe
    escaped with a backslash, and every line end (CR LF as one, else a lone
    LF or a lone CR) turned into one blank; [a|b] renders as [a\|b], and a
    line end inside a cell renders as one blank. *)
Theorem escape_md_cell_spec :
  (forall value : str,
     _escape_md_cell value = flatten_newlines (escape_pipes (remove_nul value)))
  /\ _escape_md_cell (lit "a|b") = lit "a\|b"
  /\ _escape_md_cell (lit "a" ++ [10%N] ++ lit "b") = lit "a b"
  /\ _escape_md_cell (lit "a" ++ [13; 10]%N ++ lit "b") = lit "a b"
  /\ _escape_md_cell (lit "a" ++ [13%N] ++ lit "b") = lit "a b".
Proof.
  split; [|by vm_compute].
  intros value. unfold _escape_md_cell.
  rewrite replace_nul.
  change (lit "|") with [0x7C%N]. change (lit "\|") with [0x5C; 0x7C]%N.
  change (lit " ") with [0x20%N].
  rewrite (replace_char 0x7C%N). fold (escape_pipes (remove_nul value)).
  rewrite !replace_char_char.
  unfold replace. by eapply three_passes_flatten.
Qed.

(** ** The table of an empty parse *)

Lemma apply_positions_no_headers (rows : list (list str)) (ps : option (list Z)) :
  _apply_positions [] rows ps = ([], rows).
Proof.
  destruct ps as [[|p ps]|]; try done.
  unfold _apply_positions.
  set (idxs := filter _ (map _ _)).
  assert (idxs = []) as ->; [|done].
  apply elem_of_nil_inv. intros i Hi. (* no index lies below zero *)
  subst idxs. apply list_elem_of_filter in Hi as [Hlt Hi].
  apply list_elem_of_In, in_map_iff in Hi as (q & <- & Hq).
  apply list_elem_of_In, list_elem_of_filter in Hq as [Hq _].
  simpl in Hlt. lia.
Qed.

(** C10.  The table of the empty parse (no header, no rows) is never the
    empty text: in markdown style it is a header line and a separator line
    without cells, in jira style a header line without cells, each ended by
    the chosen line end; [csv_text_to_markdown_table] returns it, after the
    preamble, whenever the parser yields the empty table. *)
Theorem render_empty_table (eol table_style : str) :
  let le := if str_eqb (lower (str_or eol (lit "lf"))) (lit "crlf")
            then [13; 10]%N else [10%N] in
  render_table [] [] false eol table_style
    = (if str_eqb table_style (lit "jira") then lit "||  ||" ++ le
       else lit "|  |" ++ le ++ lit "||" ++ le)
  /\ render_table [] [] true eol table_style
    = (if str_eqb table_style (lit "jira") then lit "|| # ||" ++ le
       else lit "| # |" ++ le ++ lit "|---|" ++ le)
  /\ (forall add_line_numbers,
        render_table [] [] add_line_numbers eol table_style <> []
        /\ endswith (render_table [] [] add_line_numbers eol table_style) le = true)
  /\ (forall sniff csv_text preamble parse positions add_line_numbers sort excel excel' ps,
        _parse_csv sniff csv_text (default default_options parse) excel
          = (Return ([], []), excel') ->
        _parse_positions positions = Return ps ->
        csv_text_to_markdown_table sniff csv_text preamble parse positions
          add_line_numbers sort eol table_style excel
        = (Return (_normalize_preamble preamble
                   ++ render_table [] [] add_line_numbers eol table_style),
           excel')).
Proof.
  intros le. unfold render_table, table_lines. fold le.
  split_and!.
  - clearbody le. destruct (str_eqb table_style _); cbn;
      by rewrite <- ?app_assoc.
  - clearbody le. destruct (str_eqb table_style _); cbn;
      by rewrite <- ?app_assoc.
  - intros add. subst le.
    by destruct add, (str_eqb table_style _), (str_eqb (lower _) _).
  - intros sniff csv_text preamble parse positions add sort excel excel' ps Hp Hps.
    unfold csv_text_to_markdown_table, mbind, M_bind.
    rewrite Hp. unfold lift. rewrite Hps.
    rewrite apply_positions_no_headers. by destruct sort.
Qed.

(** The theorem above at the empty text, for a sniffer that is inconclusive
    on it (as the library's is). *)
Lemma render_empty_table_witness :
  csv_text_to_markdown_table (fun _ => None) [] (lit "Note") None None false
    None (lit "lf") (lit "markdown") csv_excel
  = (Return (lit "Note" ++ [10; 10]%N ++ lit "|  |" ++ [10%N] ++ lit "||" ++ [10%N]),
     csv_excel).
Proof.
  pose proof (render_empty_table (lit "lf") (lit "markdown")) as (_ & _ & _ & H).
  by rewrite (H (fun _ => None) [] (lit "Note") None None false None
                csv_excel csv_excel None).
Defined.

(** ** Header derivation *)

(** Whatever tier reads the text, the parser ends with skip, limit and the
    derivation of the header. *)
Lemma parse_csv_shape (sniff : str -> option Dialect) (csv_text : str)
    (opts : CsvParseOptions) (excel : Dialect) :
  exists parsed excel',
    _parse_csv sniff csv_text opts excel
    = (header_and_rows (has_header opts) ∘ skip_and_limit opts <$> parsed, excel').
Proof. unfold _parse_csv. repeat case_match; by eexists _, _. Qed.

Lemma clean_header_remove_nul (h : str) :
  _clean_header h = label_stripped (remove_nul h).
Proof. unfold _clean_header. by rewrite replace_nul. Qed.

Lemma remove_nul_id (h : str) : 0%N ∉ h -> remove_nul h = h.
Proof.
  induction h as [|c t IH]; [done|]. intros Hin.
  apply not_elem_of_cons in Hin as [Hc Ht].
  cbn [remove_nul List.filter]. fold (remove_nul t). rewrite IH by done.
  by destruct (N.eqb_spec c 0) as [->|_].
Qed.

Lemma length_field_labels (width : nat) : length (field_labels width) = width.
Proof. unfold field_labels. by rewrite length_map, length_seq. Qed.

Lemma lookup_field_labels (width i : nat) :
  i < width ->
  field_labels width !! i = Some (lit "Field " ++ str_of_nat (i + 1)).
Proof.
  intros Hi. unfold field_labels.
  change (map ?f ?l) with (f <$> l).
  by rewrite list_lookup_fmap, lookup_seq_lt.
Qed.

Lemma max_length_spec (reader : list (list str)) :
  let width := foldr Nat.max 0 (map length reader) in
  (forall r, r ∈ reader -> length r <= width)
  /\ (reader <> [] -> exists r, r ∈ reader /\ length r = width).
Proof.
  induction reader as [|r0 rs [IHle IHex]]; cbn.
  - split; [by intros r ?%elem_of_nil | done].
  - split.
    + intros r [->|Hr]%elem_of_cons; [lia|]. specialize (IHle r Hr). lia.
    + intros _. destruct (Nat.max_spec (length r0) (foldr Nat.max 0 (map length rs)))
        as [[Hlt ->]|[Hge ->]].
      * destruct rs as [|r1 rs']; [simpl in Hlt; lia|].
        destruct IHex as (r & Hr & Hlen); [done|].
        exists r. split; [by apply list_elem_of_further | done].
      * exists r0. split; [apply list_elem_of_here | done].
Qed.

(** The claim as worded (labels only stripped of marks and white space)
    fails on a label that holds a NUL: the program removes it as well. *)
Lemma header_label_nul_counterexample :
  header_and_rows true [[[0x41; 0; 0x42]%N]] = ([[0x41; 0x42]%N], [])
  /\ map label_stripped [[0x41; 0; 0x42]%N] = [[0x41; 0; 0x42]%N]
  /\ (header_and_rows true [[[0x41; 0; 0x42]%N]]).1
     <> map label_stripped [[0x41; 0; 0x42]%N].
Proof. by vm_compute. Qed.

(** C6 (amended).  From the rows left after skip and limit: with the header
    flag, the first row becomes the header, each label with its NULs removed,
    then stripped of leading byte-order marks and of surrounding white space,
    and the other rows are the data; without the flag the header is
    [Field 1], [Field 2], ... as wide as the widest row and all rows are data;
    no rows give an empty header and no data, and nothing is raised.  On
    labels without NUL the cleaning is the stripping alone. *)
Theorem header_and_rows_spec :
  (forall has_header, header_and_rows has_header [] = ([], []))
  /\ (forall first rest,
        header_and_rows true (first :: rest)
        = (map (fun h => label_stripped (remove_nul h)) first, rest))
  /\ (forall h, 0%N ∉ h -> _clean_header h = label_stripped h)
  /\ (forall reader, reader <> [] ->
        exists headers,
          header_and_rows false reader = (headers, reader)
          /\ (forall i, i < length headers ->
                headers !! i = Some (lit "Field " ++ str_of_nat (i + 1)))
          /\ (forall r, r ∈ reader -> length r <= length headers)
          /\ (exists r, r ∈ reader /\ length r = length headers))
  /\ (forall sniff csv_text opts excel rows,
        (_parse_csv sniff csv_text opts excel).1 = Return rows ->
        exists reader,
          rows = header_and_rows (has_header opts) (skip_and_limit opts reader)).
Proof.
  split_and!.
  - done.
  - intros first rest. cbn. f_equal. apply map_ext, clean_header_remove_nul.
  - intros h Hh. by rewrite clean_header_remove_nul, remove_nul_id.
  - intros reader Hne. destruct (max_length_spec reader) as [Hle Hex].
    exists (field_labels (foldr Nat.max 0 (map length reader))).
    rewrite length_field_labels. split_and!.
    + by destruct reader.
    + apply lookup_field_labels.
    + apply Hle.
    + by apply Hex.
  - intros sniff csv_text opts excel rows Hr.
    destruct (parse_csv_shape sniff csv_text opts excel) as (parsed & excel' & Hp).
    rewrite Hp in Hr. cbn [fst] in Hr.
    apply fmap_return in Hr as (reader & _ & ->). by exists reader.
Qed.

Lemma header_and_rows_witness :
  header_and_rows true [[lit " a "; BOM :: lit "b"]; [lit "1"; lit "2"]]
    = ([lit "a"; lit "b"], [[lit "1"; lit "2"]])
  /\ header_and_rows false [[lit "x"]; [lit "1"; lit "2"]]
    = ([lit "Field 1"; lit "Field 2"], [[lit "x"]; [lit "1"; lit "2"]]).
Proof.
  destruct header_and_rows_spec as (_ & Hh & _ & _ & _).
  split; [by rewrite Hh | by vm_compute].
Defined.

(** ** Positions *)

(** The projection asked for in the specification's example. *)
Example project_2_1 :
  _parse_positions (Some (lit "2,1")) = Return (Some [2; 1]%Z)
  /\ _apply_positions [lit "A"; lit "B"; lit "C"]
       [[lit "a1"; lit "b1"; lit "c1"]; [lit "a2"; lit "b2"; lit "c2"]; [lit "a3"]]
       (Some [2; 1]%Z)
     = ([lit "B"; lit "A"],
        [[lit "b1"; lit "a1"]; [lit "b2"; lit "a2"]; [[]; lit "a3"]]).
Proof. by vm_compute. Qed.

(** Tokens that are not digits, and indices out of range, are dropped. *)
Example positions_dropped :
  _parse_positions (Some (lit "x, 2 ,,1e3,-1,99,0")) = Return (Some [2; 99; 0]%Z)
  /\ _apply_positions [lit "A"; lit "B"; lit "C"] [[lit "a"; lit "b"; lit "c"]]
       (Some [2; 99; 0]%Z)
     = ([lit "B"], [[lit "b"]])
  /\ _parse_positions (Some (lit "x,y")) = Return None
  /\ _apply_positions [lit "A"; lit "B"] [[lit "a"; lit "b"]] (Some [7; 0]%Z)
     = ([lit "A"; lit "B"], [[lit "a"; lit "b"]]).
Proof. by vm_compute. Qed.

(** C5 (the program fails the claim).  A token such as the superscript two
    (U+00B2) passes [isdigit], yet [int] refuses it: [_parse_positions] raises
    [ValueError] where the claim has the token discarded, and the table
    function raises with it. *)
Theorem parse_positions_superscript_raises :
  isdigit [0xB2%N] = true
  /\ py_int [0xB2%N] = Raise ValueError
  /\ _parse_positions (Some [0xB2%N]) = Raise ValueError
  /\ _parse_positions (Some (lit "2," ++ [0xB2%N])) = Raise ValueError
  /\ (forall sniff csv_text preamble parse add_line_numbers sort eol table_style
             excel excel' table,
        _parse_csv sniff csv_text (default default_options parse) excel
          = (Return table, excel') ->
        csv_text_to_markdown_table sniff csv_text preamble parse
          (Some [0xB2%N]) add_line_numbers sort eol table_style excel
        = (Raise ValueError, excel')).
Proof.
  split_and!; [by vm_compute..|].
  intros sniff csv_text preamble parse add sort eol style excel excel' [h r] Hp.
  unfold csv_text_to_markdown_table, mbind, M_bind. by rewrite Hp.
Qed.

Lemma parse_positions_superscript_raises_witness :
  csv_text_to_markdown_table (fun _ => None) (lit "A,B") [] None
    (Some [0xB2%N]) false None (lit "lf") (lit "markdown") csv_excel
  = (Raise ValueError, csv_excel).
Proof.
  destruct parse_positions_superscript_raises as (_ & _ & _ & _ & H).
  eapply H. vm_compute. reflexivity.
Defined.

(** ** The decoder *)

(** The codecs raise nothing but [UnicodeDecodeError]. *)
Lemma utf_8_decode_raises (raw : bytes) (e : exn) :
  utf_8_decode raw = Raise e -> e = UnicodeDecodeError.
Proof.
  remember (length raw) as n eqn:Hn. revert raw Hn.
  induction n as [n IH] using lt_wf_ind. intros raw Hn.
  destruct raw as [|b1 r1]; [done|]. cbn [utf_8_decode].
  repeat case_match; try congruence; subst;
    intros ?%fmap_raise; (eapply IH; [|reflexivity|eassumption]); simpl; lia.
Qed.

Lemma utf_8_sig_decode_raises (raw : bytes) (e : exn) :
  utf_8_sig_decode raw = Raise e -> e = UnicodeDecodeError.
Proof.
  unfold utf_8_sig_decode. case_match; apply utf_8_decode_raises.
Qed.

Lemma cp1250_decode_raises (raw : bytes) (e : exn) :
  cp1250_decode raw = Raise e -> e = UnicodeDecodeError.
Proof.
  induction raw as [|b r IH]; [done|]. cbn [cp1250_decode].
  case_match; [|congruence]. by intros ?%fmap_raise%IH.
Qed.

Lemma utf_16_units_raises (little : bool) (raw : bytes) (e : exn) :
  utf_16_units little raw = Raise e -> e = UnicodeDecodeError.
Proof.
  remember (length raw) as n eqn:Hn. revert raw Hn.
  induction n as [n IH] using lt_wf_ind. intros raw Hn.
  destruct raw as [|b0 [|b1 r]]; [done|cbn; congruence|]. cbn [utf_16_units].
  intros ?%fmap_raise. eapply IH; [|reflexivity|eassumption]. subst. simpl. lia.
Qed.

Lemma utf_16_points_raises (us : list N) (e : exn) :
  utf_16_points us = Raise e -> e = UnicodeDecodeError.
Proof.
  remember (length us) as n eqn:Hn. revert us Hn.
  induction n as [n IH] using lt_wf_ind. intros us Hn.
  destruct us as [|u t]; [done|]. cbn [utf_16_points].
  repeat case_match; try congruence; subst;
    intros ?%fmap_raise; (eapply IH; [|reflexivity|eassumption]); simpl; lia.
Qed.

Lemma utf_16_decode_raises (raw : bytes) (e : exn) :
  utf_16_decode raw = Raise e -> e = UnicodeDecodeError.
Proof.
  unfold utf_16_decode.
  assert (forall little r, utf_16_units little r ≫= utf_16_points = Raise e ->
                           e = UnicodeDecodeError) as H.
  { intros little r. destruct (utf_16_units little r) as [us|e'] eqn:Hu; cbn.
    - apply utf_16_points_raises.
    - intros [= <-]. by eapply utf_16_units_raises. }
  repeat case_match; apply H.
Qed.

(** Without a UTF-16 byte-order mark in front, automatic decoding returns a
    text for every buffer. *)
Lemma decode_csv_bytes_returns (raw : bytes) :
  has_utf_16_bom raw = false -> exists text, decode_csv_bytes raw = Return text.
Proof.
  intros Hbom. unfold decode_csv_bytes. rewrite Hbom.
  set (attempt := utf_8_sig_decode raw ≫= _).
  assert (forall e, attempt = Raise e -> e = UnicodeDecodeError) as Hatt.
  { intros e. subst attempt.
    destruct (utf_8_sig_decode raw) as [text|e'] eqn:Hu; cbn.
    - case_bool_decide; [apply utf_16_decode_raises | done].
    - intros [= <-]. by eapply utf_8_sig_decode_raises. }
  destruct attempt as [text|e]; [by eauto|].
  rewrite (Hatt e eq_refl).
  destruct (cp1250_decode raw) as [text|e'] eqn:Hc; [by eauto|].
  rewrite (cp1250_decode_raises _ _ Hc). by eauto.
Qed.

(** C1 (the program fails the claim).  A buffer that starts with a UTF-16
    byte-order mark is decoded as UTF-16 outside every handler: when the rest
    is ill-formed (here one odd byte) automatic decoding raises
    [UnicodeDecodeError] instead of returning a text. *)
Theorem decode_auto_utf16_bom_raises :
  decode_csv_bytes [xff; xfe; x00] = Raise UnicodeDecodeError
  /\ decode_csv_bytes [xfe; xff; xd8; x00] = Raise UnicodeDecodeError
  /\ (forall codecs,
        decode_csv_bytes_with_encoding codecs [xff; xfe; x00] (lit "auto")
        = Raise UnicodeDecodeError)
  /\ (forall codecs,
        decode_csv_bytes_with_encoding codecs [xff; xfe; x00] []
        = Raise UnicodeDecodeError).
Proof. by split_and!. Qed.

(** *** UTF-8: decoding inverts encoding *)

Ltac divlia := zify; Z.to_euclidean_division_equations; lia.

Lemma to_N_byte_of_N (n : N) : (n < 256)%N -> Byte.to_N (byte_of_N n) = n.
Proof.
  intros Hn. unfold byte_of_N.
  destruct (Byte.of_N n) as [b|] eqn:Hb.
  - by apply Byte.to_of_N.
  - apply Byte.of_N_None_iff in Hb. lia.
Qed.

(** The decoder on a well-formed sequence of one to four bytes. *)
Lemma utf_8_decode_1 (b1 : byte) (r : bytes) :
  (Byte.to_N b1 < 0x80)%N ->
  utf_8_decode (b1 :: r) = cons (Byte.to_N b1) <$> utf_8_decode r.
Proof.
  intros H. cbn [utf_8_decode]. by destruct (N.ltb_spec (Byte.to_N b1) 0x80); [|lia].
Qed.

Lemma utf_8_decode_2 (b1 b2 : byte) (r : bytes) :
  (0xC2 <= Byte.to_N b1 < 0xE0)%N -> continuation (Byte.to_N b2) = true ->
  utf_8_decode (b1 :: b2 :: r)
  = cons (cp2 (Byte.to_N b1) (Byte.to_N b2)) <$> utf_8_decode r.
Proof.
  intros H H2. cbn [utf_8_decode]. rewrite H2.
  destruct (N.ltb_spec (Byte.to_N b1) 0x80); [lia|].
  destruct (N.ltb_spec (Byte.to_N b1) 0xC2); [lia|].
  by destruct (N.ltb_spec (Byte.to_N b1) 0xE0); [|lia].
Qed.

Lemma utf_8_decode_3 (b1 b2 b3 : byte) (r : bytes) :
  (0xE0 <= Byte.to_N b1 < 0xF0)%N ->
  second_ok (Byte.to_N b1) (Byte.to_N b2) = true ->
  continuation (Byte.to_N b3) = true ->
  utf_8_decode (b1 :: b2 :: b3 :: r)
  = cons (cp3 (Byte.to_N b1) (Byte.to_N b2) (Byte.to_N b3)) <$> utf_8_decode r.
Proof.
  intros H H2 H3. cbn [utf_8_decode]. rewrite H2, H3.
  destruct (N.ltb_spec (Byte.to_N b1) 0x80); [lia|].
  destruct (N.ltb_spec (Byte.to_N b1) 0xC2); [lia|].
  destruct (N.ltb_spec (Byte.to_N b1) 0xE0); [lia|].
  by destruct (N.ltb_spec (Byte.to_N b1) 0xF0); [|lia].
Qed.

Lemma utf_8_decode_4 (b1 b2 b3 b4 : byte) (r : bytes) :
  (0xF0 <= Byte.to_N b1 < 0xF5)%N ->
  second_ok (Byte.to_N b1) (Byte.to_N b2) = true ->
  continuation (Byte.to_N b3) = true ->
  continuation (Byte.to_N b4) = true ->
  utf_8_decode (b1 :: b2 :: b3 :: b4 :: r)
  = cons (cp4 (Byte.to_N b1) (Byte.to_N b2) (Byte.to_N b3) (Byte.to_N b4))
      <$> utf_8_decode r.
Proof.
  intros H H2 H3 H4. cbn [utf_8_decode]. rewrite H2, H3, H4.
  destruct (N.ltb_spec (Byte.to_N b1) 0x80); [lia|].
  destruct (N.ltb_spec (Byte.to_N b1) 0xC2); [lia|].
  destruct (N.ltb_spec (Byte.to_N b1) 0xE0); [lia|].
  destruct (N.ltb_spec (Byte.to_N b1) 0xF0); [lia|].
  by destruct (N.ltb_spec (Byte.to_N b1) 0xF5); [|lia].
Qed.

Ltac split_second_ok :=
  unfold second_ok;
  repeat match goal with
  | |- context [if ?b then _ else _] => destruct b eqn:?
  end.

Lemma utf_8_decode_char (c : char) (bs r : bytes) :
  utf_8_encode_char c = Some bs ->
  utf_8_decode (bs ++ r) = cons c <$> utf_8_decode r.
Proof.
  unfold utf_8_encode_char.
  destruct (N.ltb_spec c 0x80) as [H1|H1].
  { intros [= <-]. cbn [app].
    rewrite utf_8_decode_1; rewrite to_N_byte_of_N by lia; done. }
  destruct (N.ltb_spec c 0x800) as [H2|H2].
  { intros [= <-]. cbn [app].
    rewrite utf_8_decode_2; rewrite ?to_N_byte_of_N by divlia.
    - unfold cp2. do 2 f_equal. divlia.
    - divlia.
    - unfold continuation. divlia. }
  destruct (N.ltb_spec c 0x10000) as [H3|H3].
  { destruct ((0xD800 <=? c)%N && (c <=? 0xDFFF)%N) eqn:Hs; [done|].
    intros [= <-]. cbn [app].
    rewrite utf_8_decode_3; rewrite ?to_N_byte_of_N by divlia.
    - unfold cp3. do 2 f_equal. divlia.
    - divlia.
    - split_second_ok; unfold continuation; divlia.
    - unfold continuation. divlia. }
  destruct (N.ltb_spec c 0x110000) as [H4|H4]; [|done].
  intros [= <-]. cbn [app].
  rewrite utf_8_decode_4; rewrite ?to_N_byte_of_N by divlia.
  - unfold cp4. do 2 f_equal. divlia.
  - divlia.
  - split_second_ok; unfold continuation; divlia.
  - unfold continuation. divlia.
  - unfold continuation. divlia.
Qed.

(** Decoding the UTF-8 encoding of a text gives the text back. *)
Lemma utf_8_decode_encode (text : str) (raw : bytes) :
  utf_8_encode text = Some raw -> utf_8_decode raw = Return text.
Proof.
  revert raw. induction text as [|c t IH]; intros raw; cbn [utf_8_encode].
  { by intros [= <-]. }
  destruct (utf_8_encode_char c) as [bs|] eqn:Hc; [|done].
  destruct (utf_8_encode t) as [r|]; [|done].
  intros [= <-]. rewrite (utf_8_decode_char c bs r Hc), (IH r eq_refl). done.
Qed.

(** *** The fallback order of automatic decoding *)

(** The claim fails on a text with a NUL: the two bytes [61 00] are the
    UTF-8 encoding of the text "a", NUL, have no byte-order mark, and decode
    to the one-character text "a"; and on the single byte [00] the program
    returns a text where the worded fallback decodes as UTF-16 and fails. *)
Lemma decode_auto_nul_counterexample :
  utf_8_encode [0x61; 0]%N = Some [x61; x00]
  /\ has_utf_8_bom [x61; x00] = false
  /\ decode_csv_bytes [x61; x00] = Return [0x61%N]
  /\ decode_csv_bytes [x61; x00] <> Return [0x61; 0]%N
  /\ decode_csv_bytes [x00] = Return [0%N]
  /\ decode_auto_as_specified [x00] = Raise UnicodeDecodeError.
Proof. by split_and!. Qed.

Lemma bytes_startswith_cons (b p : byte) (raw ps : bytes) :
  bytes_startswith (b :: raw) (p :: ps) = true -> b = p.
Proof. cbn. intros [H _]%andb_true_iff. symmetry. by apply Byte.byte_dec_bl. Qed.

(** A buffer that decodes as UTF-8 starts with no UTF-16 byte-order mark. *)
Lemma utf_8_decode_no_utf_16_bom (raw : bytes) (text : str) :
  utf_8_decode raw = Return text -> has_utf_16_bom raw = false.
Proof.
  intros Hd. unfold has_utf_16_bom.
  destruct raw as [|b raw]; [done|].
  destruct (bytes_startswith (b :: raw) [xff; xfe]) eqn:H1.
  { apply bytes_startswith_cons in H1 as ->. by cbn in Hd. }
  destruct (bytes_startswith (b :: raw) [xfe; xff]) eqn:H2; [|done].
  apply bytes_startswith_cons in H2 as ->. by cbn in Hd.
Qed.

(** C3 (amended).  Automatic decoding: a buffer that starts with a UTF-16
    byte-order mark is decoded as UTF-16; otherwise it is decoded as UTF-8,
    a UTF-8 byte-order mark dropped, and the text is returned if it holds no
    NUL; if it holds one, the buffer is decoded as UTF-16 and that text is
    returned when the decoding succeeds; when UTF-8 decoding fails (or the
    UTF-16 second try does), the buffer is decoded as cp1250, and when that
    fails too, as UTF-8 with replacement.  A valid UTF-8 buffer without
    byte-order mark whose text holds no NUL decodes to exactly that text. *)
Theorem decode_csv_bytes_fallback (raw : bytes) :
  (has_utf_16_bom raw = true -> decode_csv_bytes raw = utf_16_decode raw)
  /\ (has_utf_16_bom raw = false ->
        (forall text, utf_8_sig_decode raw = Return text -> 0%N ∉ text ->
           decode_csv_bytes raw = Return text)
        /\ (forall text text16, utf_8_sig_decode raw = Return text -> 0%N ∈ text ->
              utf_16_decode raw = Return text16 ->
              decode_csv_bytes raw = Return text16)
        /\ (forall text e, utf_8_sig_decode raw = Return text -> 0%N ∈ text ->
              utf_16_decode raw = Raise e ->
              decode_csv_bytes raw = Return (single_byte_fallback raw))
        /\ (forall e, utf_8_sig_decode raw = Raise e ->
              decode_csv_bytes raw = Return (single_byte_fallback raw))
        /\ (forall text, cp1250_decode raw = Return text ->
              single_byte_fallback raw = text)
        /\ (forall e, cp1250_decode raw = Raise e ->
              single_byte_fallback raw = utf_8_decode_replace raw))
  /\ (forall text, utf_8_encode text = Some raw -> has_utf_8_bom raw = false ->
        0%N ∉ text -> decode_csv_bytes raw = Return text).
Proof.
  assert (forall e, utf_16_decode raw = Raise e \/ utf_8_sig_decode raw = Raise e ->
            match e with
            | UnicodeDecodeError =>
                match cp1250_decode raw with
                | Return text => Return text
                | Raise UnicodeDecodeError => Return (utf_8_decode_replace raw)
                | Raise e' => Raise e'
                end
            | _ => Raise e
            end = Return (single_byte_fallback raw)) as Hfall.
  { intros e He.
    assert (e = UnicodeDecodeError) as ->
      by (destruct He; eauto using utf_16_decode_raises, utf_8_sig_decode_raises).
    unfold single_byte_fallback.
    destruct (cp1250_decode raw) as [t|e'] eqn:Hc; [done|].
    by rewrite (cp1250_decode_raises _ _ Hc). }
  assert (has_utf_16_bom raw = false ->
          forall text, utf_8_sig_decode raw = Return text -> 0%N ∉ text ->
                       decode_csv_bytes raw = Return text) as Hplain.
  { intros Hb text Hu Hn. unfold decode_csv_bytes. rewrite Hb, Hu. cbn.
    by rewrite bool_decide_eq_false_2. }
  split_and!.
  - intros Hb. unfold decode_csv_bytes. by rewrite Hb.
  - intros Hb. split_and!.
    + by apply Hplain.
    + intros text text16 Hu Hn H16. unfold decode_csv_bytes. rewrite Hb, Hu. cbn.
      by rewrite bool_decide_eq_true_2, H16.
    + intros text e Hu Hn H16. unfold decode_csv_bytes. rewrite Hb, Hu. cbn.
      rewrite bool_decide_eq_true_2, H16 by done. apply Hfall. by left.
    + intros e Hu. unfold decode_csv_bytes. rewrite Hb, Hu. cbn.
      apply Hfall. by right.
    + intros text Hc. unfold single_byte_fallback. by rewrite Hc.
    + intros e Hc. unfold single_byte_fallback. by rewrite Hc.
  - intros text He Hb Hn.
    pose proof (utf_8_decode_encode _ _ He) as Hd.
    apply Hplain; [by eapply utf_8_decode_no_utf_16_bom | | done].
    unfold utf_8_sig_decode. by rewrite Hb.
Qed.

(** The fallback at work: a cp1250 buffer with the letter r-caron (F8), a
    UTF-16 buffer without mark, an unassigned cp1250 byte, and a UTF-8
    round trip. *)
Lemma decode_csv_bytes_fallback_witness :
  decode_csv_bytes [xf8] = Return [0x159%N]
  /\ decode_csv_bytes [x61; x00; x62; x00] = Return (lit "ab")
  /\ decode_csv_bytes [x81] = Return [REPLACEMENT]
  /\ decode_csv_bytes [xc5; x99; x2c; x41] = Return (0x159%N :: lit ",A").
Proof.
  split_and!.
  - destruct (decode_csv_bytes_fallback [xf8]) as (_ & H & _).
    destruct (H eq_refl) as (_ & _ & _ & H4 & H5 & _).
    by rewrite (H4 UnicodeDecodeError eq_refl), (H5 [0x159%N] eq_refl).
  - destruct (decode_csv_bytes_fallback [x61; x00; x62; x00]) as (_ & H & _).
    destruct (H eq_refl) as (_ & H2 & _).
    apply (H2 [0x61; 0; 0x62; 0]%N); [done| |done].
    apply list_elem_of_further, list_elem_of_here.
  - destruct (decode_csv_bytes_fallback [x81]) as (_ & H & _).
    destruct (H eq_refl) as (_ & _ & _ & H4 & _ & H6).
    by rewrite (H4 UnicodeDecodeError eq_refl), (H6 UnicodeDecodeError eq_refl).
  - destruct (decode_csv_bytes_fallback [xc5; x99; x2c; x41]) as (_ & _ & H).
    apply H; [done|done|]. vm_compute. intros Hin.
    repeat (apply elem_of_cons in Hin as [|Hin]; [done|]).
    by apply elem_of_nil in Hin.
Defined.

(** ** The parser and the shared dialect *)

(** With an explicit delimiter the parser assigns every attribute the
    reader consults before it reads: the result does not depend on what
    earlier calls left in [csv.excel] (the one attribute the program never
    assigns, [skipinitialspace], being the same). *)
Lemma parse_explicit_delimiter (sniff : str -> option Dialect)
    (csv_text : str) (opts : CsvParseOptions) (excel1 excel2 : Dialect) :
  let d := str_or (delimiter opts) (lit "auto") in
  let d := if str_eqb d (lit "tab") then [9%N] else d in
  let d := if str_eqb d (lit "pipe") then lit "|" else d in
  str_eqb d (lit "auto") = false ->
  dialect_skipinitialspace excel1 = dialect_skipinitialspace excel2 ->
  (_parse_csv sniff csv_text opts excel1).1
  = (_parse_csv sniff csv_text opts excel2).1.
Proof.
  intros d0 d1 d Hd Hs. unfold _parse_csv. fold d0 d1 d. rewrite Hd. cbn.
  by rewrite Hs.
Qed.

(** With the delimiter left to the sniffer, and the sniffer settled on a
    dialect, the result does not depend on the shared class either. *)
Lemma parse_sniffed (sniff : str -> option Dialect)
    (csv_text : str) (opts : CsvParseOptions) (excel1 excel2 sniffed : Dialect) :
  str_eqb (str_or (delimiter opts) (lit "auto")) (lit "auto") = true ->
  sniff (take 4096 csv_text) = Some sniffed ->
  (_parse_csv sniff csv_text opts excel1).1
  = (_parse_csv sniff csv_text opts excel2).1.
Proof.
  intros Hd Hs. unfold _parse_csv.
  apply bool_decide_eq_true in Hd. rewrite Hd. cbn. by rewrite Hs.
Qed.

(** C2 (the program fails the claim).  The text [a;b], [c] on two lines, on
    which the sniffer is inconclusive, parsed with the default options: before
    any other call the header is the one label [a;b]; after one call with the
    explicit delimiter [;] (on any text) the same call returns the two labels
    [a] and [b].  The delimiter of the earlier call has stayed in the shared
    class [csv.excel]. *)
Theorem parse_csv_depends_on_earlier_call (sniff : str -> option Dialect) :
  let text := lit "a;b" ++ [10%N] ++ lit "c" ++ [10%N] in
  let semicolon :=
    mkCsvParseOptions (lit ";") true 0 None (lit "standard") [0x22%N] in
  sniff text = None ->
  (_parse_csv sniff text default_options csv_excel).1
    = Return ([lit "a;b"], [[lit "c"]])
  /\ (let excel' := (_parse_csv sniff (lit "x") semicolon csv_excel).2 in
      dialect_delimiter excel' = lit ";"
      /\ (_parse_csv sniff text default_options excel').1
         = Return ([lit "a"; lit "b"], [[lit "c"]])).
Proof.
  intros text semicolon Hs. unfold _parse_csv.
  change (take 4096 text) with text. rewrite Hs. by vm_compute.
Qed.

(** The theorem above with a sniffer that is never conclusive. *)
Lemma parse_csv_depends_on_earlier_call_witness :
  (_parse_csv (fun _ => None) (lit "a;b" ++ [10%N] ++ lit "c" ++ [10%N])
     default_options csv_excel).1
  <> (_parse_csv (fun _ => None) (lit "a;b" ++ [10%N] ++ lit "c" ++ [10%N])
        default_options
        (_parse_csv (fun _ => None) (lit "x")
           (mkCsvParseOptions (lit ";") true 0 None (lit "standard") [0x22%N])
           csv_excel).2).1.
Proof.
  destruct (parse_csv_depends_on_earlier_call (fun _ => None) eq_refl)
    as (H1 & _ & H2).
  rewrite H1, H2. discriminate.
Defined.

(** ** The sorter *)

Section SortedFacts.
Context {A K : Type} (ltb : K -> K -> bool) (key : A -> K).
(** The keys that occur are well behaved: [ok] marks them, and on marked
    keys [<] is asymmetric and "not greater" is transitive. *)
Context (ok : K -> Prop).
Hypothesis asym : forall a b, ok a -> ok b -> ltb a b = true -> ltb b a = false.
Hypothesis le_trans : forall a b c, ok a -> ok b -> ok c ->
  ltb b a = false -> ltb c b = false -> ltb c a = false.


Lemma insert_sorted_perm (x : A) (l : list A) :
  insert_sorted ltb key x l ≡ₚ x :: l.
Proof.
  induction l as [|y l IH]; cbn; [done|].
  destruct (ltb (key y) (key x)); [|done].
  rewrite IH. apply Permutation_swap.
Qed.

Lemma sort_asc_perm (l : list A) : sort_asc ltb key l ≡ₚ l.
Proof.
  induction l as [|x l IH]; cbn; [done|].
  by rewrite insert_sorted_perm, IH.
Qed.

Lemma sorted_perm (reverse : bool) (l : list A) : sorted ltb key reverse l ≡ₚ l.
Proof.
  unfold sorted. destruct reverse; [|apply sort_asc_perm].
  by rewrite <- Permutation_rev, sort_asc_perm, <- Permutation_rev.
Qed.

Lemma insert_sorted_sorted (x : A) (l : list A) :
  ok (key x) -> Forall (fun y => ok (key y)) l ->
  StronglySorted (in_order ltb key) l ->
  StronglySorted (in_order ltb key) (insert_sorted ltb key x l).
Proof.
  intros Hx Hl Hs. induction Hs as [|y l Hs IH Hy]; cbn.
  { repeat constructor. }
  apply Forall_cons in Hl as [Hoy Hl].
  destruct (ltb (key y) (key x)) eqn:Hyx.
  - constructor; [by apply IH|].
    rewrite insert_sorted_perm. constructor; [|done].
    unfold in_order. by apply asym.
  - constructor; [by constructor|].
    constructor; [done|].
    rewrite Forall_forall in Hy, Hl. apply Forall_forall. intros z Hz.
    unfold in_order in *. apply (le_trans _ (key y)); auto.
Qed.

Lemma sort_asc_sorted (l : list A) :
  Forall (fun y => ok (key y)) l ->
  StronglySorted (in_order ltb key) (sort_asc ltb key l).
Proof.
  induction l as [|x l IH]; cbn; [constructor|].
  intros [Hx Hl]%Forall_cons. apply insert_sorted_sorted; [done| |by apply IH].
  by rewrite sort_asc_perm.
Qed.

Lemma strongly_sorted_lookup (l : list A) (i j : nat) (a b : A) :
  StronglySorted (in_order ltb key) l -> i < j ->
  l !! i = Some a -> l !! j = Some b -> (in_order ltb key) a b.
Proof.
  intros Hs. revert i j. induction Hs as [|y l Hs IH Hy]; intros i j Hij Ha Hb.
  { done. }
  destruct j as [|j]; [lia|]. cbn in Hb.
  destruct i as [|i]; cbn in Ha.
  - injection Ha as ->. rewrite Forall_forall in Hy.
    by eapply Hy, list_elem_of_lookup_2.
  - apply (IH i j); [lia|done|done].
Qed.
End SortedFacts.

Lemma float_ltb_asym (a b : float) :
  not_nan a -> not_nan b -> float_ltb a b = true -> float_ltb b a = false.
Proof.
  destruct a as [|[]|p], b as [|[]|q]; cbn; try done.
  intros _ _ H. apply negb_true_iff in H. apply negb_false_iff.
  apply Qle_bool_iff. apply Qlt_le_weak, Qnot_le_lt.
  intros Hle. apply Qle_bool_iff in Hle. congruence.
Qed.

Lemma float_le_trans (a b c : float) :
  not_nan a -> not_nan b -> not_nan c ->
  float_ltb b a = false -> float_ltb c b = false -> float_ltb c a = false.
Proof.
  destruct a as [|[]|p], b as [|[]|q], c as [|[]|r]; cbn; try done.
  intros _ _ _ H1 H2. apply negb_false_iff in H1, H2. apply negb_false_iff.
  apply Qle_bool_iff in H1, H2. apply Qle_bool_iff. by eapply Qle_trans.
Qed.

(** Stability of the sort: elements whose keys tie with one another keep
    their order.  [P] picks such elements. *)
Section StableTies.
Context {A K : Type} (ltb : K -> K -> bool) (key : A -> K).
Context (ok : K -> Prop) (P : A -> Prop) `{!forall a, Decision (P a)}.
Hypothesis ties : forall a b,
  ok (key a) -> ok (key b) -> P a -> P b -> ltb (key a) (key b) = false.


End StableTies.




(** ** The outline renderer: fields *)

Lemma dict_of_snoc (pairs : list (str * str)) (k v : str) :
  dict_of (pairs ++ [(k, v)]) = <[k := v]> (dict_of pairs).
Proof. unfold dict_of. by rewrite foldl_app. Qed.

(** A dict holds for a key the value of the last pair with that key. *)
Lemma dict_of_lookup_Some (pairs : list (str * str)) (k v : str) :
  dict_of pairs !! k = Some v <->
  exists l1 l2, pairs = l1 ++ (k, v) :: l2 /\ forall p, p ∈ l2 -> p.1 <> k.
Proof.
  induction pairs as [|[k' v'] pairs IH] using rev_ind.
  { split; [done|]. intros (l1 & l2 & H & _). by destruct l1. }
  rewrite dict_of_snoc. destruct (decide (k' = k)) as [->|Hk].
  - rewrite lookup_insert_eq. split.
    + intros [= ->]. exists pairs, []. split; [done|]. by intros p ?%elem_of_nil.
    + intros (l1 & l2 & H & Hl2).
      destruct l2 as [|p l2 _] using rev_ind.
      * apply app_inj_tail in H as [_ [= ->]]. done.
      * rewrite app_comm_cons, app_assoc in H. apply app_inj_tail in H as [_ <-].
        exfalso. apply (Hl2 (k, v')); [|done]. apply elem_of_app. right.
        apply list_elem_of_here.
  - rewrite lookup_insert_ne by done. rewrite IH. split.
    + intros (l1 & l2 & -> & Hl2). exists l1, (l2 ++ [(k', v')]). split.
      * by rewrite <- app_assoc.
      * intros p [Hp|Hp%list_elem_of_singleton]%elem_of_app; [by apply Hl2|].
        by subst p.
    + intros (l1 & l2 & H & Hl2).
      destruct l2 as [|p l2 _] using rev_ind.
      * apply app_inj_tail in H as [_ [= -> ->]]. done.
      * rewrite app_comm_cons, app_assoc in H. apply app_inj_tail in H as [-> <-].
        exists l1, l2. split; [done|]. intros p Hp. apply Hl2, elem_of_app. by left.
Qed.

Lemma header_map_lookup (headers : list str) (k h : str) :
  header_map_of headers !! k = Some h <->
  header_key h = k /\ last_with_key headers h.
Proof.
  unfold header_map_of. rewrite dict_of_lookup_Some. split.
  - intros (l1 & l2 & H & Hl2).
    apply map_eq_app in H as (h1 & h2' & -> & <- & H).
    apply map_eq_cons in H as (h0 & h2 & -> & [= <- <-] & <-).
    split; [done|]. exists h1, h2. split; [done|].
    intros h' Hh'. apply (Hl2 (lower (_clean_header h'), h')).
    apply list_elem_of_In, in_map_iff. exists h'. split; [done|].
    by apply list_elem_of_In.
  - intros [<- (l1 & l2 & -> & Hl2)].
    exists (map (fun h => (lower (_clean_header h), h)) l1),
           (map (fun h => (lower (_clean_header h), h)) l2).
    split; [by rewrite map_app|].
    intros p (h' & <- & Hh')%list_elem_of_In%in_map_iff. cbn.
    by apply Hl2, list_elem_of_In.
Qed.

Lemma last_with_key_elem (headers : list str) (h : str) :
  last_with_key headers h -> h ∈ headers.
Proof.
  intros (l1 & l2 & -> & _). apply elem_of_app. right. apply list_elem_of_here.
Qed.

(** The fields the allowlist selects are the matched columns. *)
Lemma allowlist_fields (headers : list str) (h : str) :
  h ∈ omap (fun f => header_map_of headers !! lower f) NOTEBOOKLM_MIN_FIELDS
  <-> matched headers h.
Proof.
  rewrite list_elem_of_omap. unfold matched, allowlisted. split.
  - intros (f & Hf & [Hk Hl]%header_map_lookup). split; [|done].
    rewrite Hk. apply list_elem_of_In, in_map. by apply list_elem_of_In.
  - intros [(f & Hf & Hin)%list_elem_of_In%in_map_iff Hl].
    exists f. split; [by apply list_elem_of_In|]. by apply header_map_lookup.
Qed.

(** With keys that differ from header to header, every header is the last
    with its key. *)
Lemma last_with_key_NoDup (headers : list str) (h : str) :
  NoDup (map header_key headers) -> h ∈ headers -> last_with_key headers h.
Proof.
  intros Hnd (l1 & l2 & ->)%list_elem_of_split. exists l1, l2. split; [done|].
  intros h' Hh' Heq.
  rewrite map_app, map_cons in Hnd. apply NoDup_app in Hnd as (_ & _ & Hnd).
  apply NoDup_cons in Hnd as [Hnd _]. apply Hnd.
  rewrite <- Heq. apply list_elem_of_In, in_map. by apply list_elem_of_In.
Qed.

(** The claim fails where two headers differ in case only: of [Volume] and
    [volume], both on the allowlist, only the second is a field. *)
Lemma choose_fields_case_counterexample :
  choose_fields (lit "minimal") [lit "Volume"; lit "volume"] = [lit "volume"]
  /\ allowlisted (lit "Volume")
  /\ lit "Volume" ∈ [lit "Volume"; lit "volume"]
  /\ lit "Volume" ∉ choose_fields (lit "minimal") [lit "Volume"; lit "volume"].
Proof.
  split_and!.
  - by vm_compute.
  - unfold allowlisted. apply (bool_decide_unpack _). by vm_compute.
  - apply list_elem_of_here.
  - assert (choose_fields (lit "minimal") [lit "Volume"; lit "volume"]
            = [lit "volume"]) as -> by by vm_compute.
    by intros [=]%list_elem_of_singleton.
Qed.

(** C8 (amended).  In minimal mode the fields are the columns whose cleaned
    header matches the allowlist, case apart, each column standing for the
    headers that share its name up to case (the last of them is the one
    taken); if every such column is the keyword column, in particular if
    there is none, the fields are the first eight columns, or all columns if
    there are fewer.  When no two headers share a name up to case the fields
    are exactly the columns whose header matches the allowlist. *)
Theorem choose_fields_minimal (detail : str) (headers : list str) :
  is_full detail = false ->
  let only_keyword := forall h, matched headers h -> header_key h = lit "keyword" in
  (only_keyword -> choose_fields detail headers = take 8 headers)
  /\ (~ only_keyword ->
        forall h, h ∈ choose_fields detail headers <-> matched headers h)
  /\ (~ only_keyword -> NoDup (map header_key headers) ->
        forall h, h ∈ choose_fields detail headers <-> h ∈ headers /\ allowlisted h).
Proof.
  intros Hfull only_keyword. unfold choose_fields. rewrite Hfull.
  set (fields := omap _ NOTEBOOKLM_MIN_FIELDS).
  set (cond := negb _ || _).
  assert (cond = true <-> only_keyword) as Hcond.
  { subst cond. rewrite orb_true_iff, negb_true_iff, bool_decide_eq_false.
    split.
    - intros [Hnil|Hall] h Hm.
      + apply allowlist_fields in Hm. fold fields in Hm.
        destruct fields; [by apply elem_of_nil in Hm | by destruct Hnil].
      + destruct (header_map_of headers !! lit "keyword") as [k|] eqn:Hk; [|done].
        apply andb_true_iff in Hall as [_ Hall].
        rewrite forallb_forall in Hall.
        apply allowlist_fields in Hm. fold fields in Hm.
        apply list_elem_of_In, Hall, bool_decide_eq_true in Hm as ->.
        by apply header_map_lookup in Hk as [Hk _].
    - intros Honly. destruct fields as [|h0 fs] eqn:Hf; [left; by intros []|].
      right.
      assert (forall h, h ∈ fields -> header_map_of headers !! lit "keyword" = Some h)
        as Hkey.
      { intros h Hh. apply allowlist_fields in Hh as Hm.
        apply header_map_lookup. split; [by apply Honly | by destruct Hm]. }
      rewrite (Hkey h0) by (rewrite Hf; apply list_elem_of_here).
      apply andb_true_iff. split.
      + apply bool_decide_eq_true.
        eapply last_with_key_elem, header_map_lookup, Hkey.
        rewrite Hf. apply list_elem_of_here.
      + apply forallb_forall. intros h Hh%list_elem_of_In.
        apply bool_decide_eq_true.
        rewrite <- Hf in Hh. apply Hkey in Hh.
        rewrite (Hkey h0) in Hh by (rewrite Hf; apply list_elem_of_here).
        congruence. }
  split_and!.
  - intros Ho. apply Hcond in Ho as ->.
    destruct (Nat.min_spec (length headers) 8) as [[Hlt ->]|[Hge ->]]; [|done].
    by rewrite !take_ge by lia.
  - intros Hno h. destruct cond; [by destruct Hno; apply Hcond|].
    apply allowlist_fields.
  - intros Hno Hnd h. destruct cond; [by destruct Hno; apply Hcond|].
    subst fields. rewrite allowlist_fields. unfold matched. split.
    + intros [Ha Hl]. split; [by eapply last_with_key_elem | done].
    + intros [Hh Ha]. split; [done | by apply last_with_key_NoDup].
Qed.

Lemma choose_fields_minimal_witness :
  choose_fields (lit "minimal") (map lit ["a"; "b"; "c"; "d"; "e"; "f"; "g"; "h"; "i"]%string)
  = map lit ["a"; "b"; "c"; "d"; "e"; "f"; "g"; "h"]%string.
Proof.
  destruct (choose_fields_minimal (lit "minimal")
              (map lit ["a"; "b"; "c"; "d"; "e"; "f"; "g"; "h"; "i"]%string) eq_refl)
    as (H & _).
  rewrite H; [done|].
  intros h [Ha Hl]. apply last_with_key_elem in Hl. exfalso. revert Ha.
  unfold allowlisted. cbn [map] in Hl.
  repeat (apply elem_of_cons in Hl as [->|Hl];
          [intros Ha; apply (bool_decide_pack _) in Ha; by vm_compute in Ha|]).
  by apply elem_of_nil in Hl.
Defined.

(** ** The outline renderer: headings *)

Lemma dict_of_lookup_None (pairs : list (str * str)) (k : str) :
  dict_of pairs !! k = None <-> forall p, p ∈ pairs -> p.1 <> k.
Proof.
  induction pairs as [|[k' v'] pairs IH] using rev_ind.
  { split; [by intros _ p ?%elem_of_nil | done]. }
  rewrite dict_of_snoc. destruct (decide (k' = k)) as [->|Hk].
  - rewrite lookup_insert_eq. split; [done|]. intros H.
    destruct (H (k, v')); [|done]. apply elem_of_app. right. apply list_elem_of_here.
  - rewrite lookup_insert_ne by done. rewrite IH. split.
    + intros H p [Hp|Hp%list_elem_of_singleton]%elem_of_app; [by apply H|].
      by subst p.
    + intros H p Hp. apply H, elem_of_app. by left.
Qed.

Lemma header_map_lookup_None (headers : list str) (k : str) :
  header_map_of headers !! k = None <->
  forall h, h ∈ headers -> header_key h <> k.
Proof.
  unfold header_map_of. rewrite dict_of_lookup_None. split.
  - intros H h Hh. apply (H (lower (_clean_header h), h)).
    apply list_elem_of_In, in_map_iff. exists h. split; [done|].
    by apply list_elem_of_In.
  - intros H p (h & <- & Hh)%list_elem_of_In%in_map_iff. cbn.
    by apply H, list_elem_of_In.
Qed.

Lemma index_of_lookup (k : str) (headers : list str) :
  k ∈ headers -> headers !! index_of k headers = Some k.
Proof.
  induction headers as [|x t IH]; [by intros ?%elem_of_nil|].
  intros Hk. cbn [index_of]. unfold str_eqb. case_bool_decide as Hx.
  - by subst x.
  - apply elem_of_cons in Hk as [->|Hk]; [done|]. by apply IH.
Qed.

(** The column of the headings. *)
Lemma keyword_index_spec (headers : list str) :
  headers <> [] ->
  keyword_index headers < length headers
  /\ ((exists h, h ∈ headers /\ header_key h = lit "keyword") ->
      exists k, headers !! keyword_index headers = Some k
                /\ header_key k = lit "keyword")
  /\ ((forall h, h ∈ headers -> header_key h <> lit "keyword") ->
      keyword_index headers = 0).
Proof.
  intros Hne. unfold keyword_index.
  destruct (header_map_of headers !! lit "keyword") as [k|] eqn:Hk.
  - apply header_map_lookup in Hk as [Hkey Hlast].
    pose proof (last_with_key_elem _ _ Hlast) as Hin.
    rewrite bool_decide_eq_true_2 by done.
    pose proof (index_of_lookup _ _ Hin) as Hl. split_and!.
    + by eapply lookup_lt_Some.
    + by eauto.
    + intros Hno. by destruct (Hno k Hin).
  - split_and!.
    + destruct headers; [done | simpl; lia].
    + intros (h & Hh & Hkey).
      by destruct (proj1 (header_map_lookup_None _ _) Hk h Hh).
    + done.
Qed.

(** A row made as long as the header: a cell that is missing is empty. *)
Lemma padded_lookup (n i : nat) (row : list str) :
  i < n -> take n (row ++ replicate n []) !! i = Some (nth i row []).
Proof.
  intros Hi. rewrite lookup_take_lt by done.
  destruct (decide (i < length row)) as [Hlt|Hge].
  - rewrite lookup_app_l by done.
    destruct (lookup_lt_is_Some_2 row i Hlt) as [x Hx].
    by rewrite Hx, (nth_lookup_Some _ _ _ _ Hx).
  - rewrite lookup_app_r by lia. rewrite lookup_replicate_2 by lia.
    by rewrite nth_overflow by lia.
Qed.

Lemma record_lines_heading (headers fields : list str) (i : nat) (row : list str) :
  headers <> [] ->
  exists bullets,
    record_lines headers fields i row
    = Return ((lit "### " ++ record_heading headers i row) :: bullets).
Proof.
  intros Hne. unfold record_lines.
  destruct (keyword_index_spec headers Hne) as (Hlt & _).
  rewrite padded_lookup by done. cbn [app]. by eexists.
Qed.

Lemma records_from_headings (headers fields : list str) (rows : list (list str)) :
  headers <> [] ->
  forall i0, exists blocks,
    records_from headers fields i0 rows = Return (concat blocks)
    /\ length blocks = length rows
    /\ forall n row, rows !! n = Some row ->
         exists bullets,
           blocks !! n
           = Some ((lit "### " ++ record_heading headers (i0 + n) row) :: bullets).
Proof.
  intros Hne. induction rows as [|row rows IH]; intros i0.
  { exists []. split_and!; [done|done|]. by intros n row. }
  destruct (record_lines_heading headers fields i0 row Hne) as (bullets & Hr).
  destruct (IH (S i0)) as (blocks & Hb & Hlen & Hrows).
  exists (((lit "### " ++ record_heading headers i0 row) :: bullets) :: blocks).
  cbn [records_from]. rewrite Hr, Hb. split_and!.
  - done.
  - cbn. by rewrite Hlen.
  - intros [|n] r Hn; cbn in Hn.
    + injection Hn as <-. rewrite Nat.add_0_r. by eexists.
    + destruct (Hrows n r Hn) as (bs & Hbs). exists bs.
      by rewrite Nat.add_succ_r.
Qed.

(** Without any column the outline of a row cannot be made. *)
Lemma outline_without_columns_raises (row : list str) (rows : list (list str))
    (detail : str) :
  outline_lines [] (row :: rows) detail None = Raise IndexError.
Proof. done. Qed.

(** The claim fails on the label, which is the Czech word and not [Row], and
    on the heading itself, which is trimmed. *)
Lemma record_heading_counterexample :
  record_lines [lit "Keyword"] [lit "Keyword"] 3 [[]]
    = Return [lit "### " ++ [0x158; 0xE1]%N ++ lit "dek 3"; []]
  /\ record_lines [lit "Keyword"] [lit "Keyword"] 3 [[]]
     <> Return [lit "### Row 3"; []]
  /\ record_lines [lit "Keyword"] [lit "Keyword"] 1 [lit " a "]
     = Return [lit "### a"; []].
Proof. by split_and!. Qed.

(** C9 (amended).  For a table with at least one column, the heading of
    every record is the value of the column whose header matches [keyword],
    case apart (the first column if none matches), a missing cell counting
    as empty, escaped as a table cell and trimmed; if that is empty the
    heading is the label "Radek N" in its Czech spelling, N the position of
    the row, from 1, among the rows shown. *)
Theorem outline_headings (headers : list str) :
  headers <> [] ->
  (keyword_index headers < length headers
   /\ ((exists h, h ∈ headers /\ header_key h = lit "keyword") ->
       exists k, headers !! keyword_index headers = Some k
                 /\ header_key k = lit "keyword")
   /\ ((forall h, h ∈ headers -> header_key h <> lit "keyword") ->
       keyword_index headers = 0))
  /\ (forall i row,
        record_heading headers i row
        = let value := strip (_escape_md_cell (nth (keyword_index headers) row [])) in
          match value with
          | [] => [0x158; 0xE1]%N ++ lit "dek " ++ str_of_nat i
          | _ => value
          end)
  /\ (forall rows detail max_rows,
        let shown := match max_rows with
                     | Some n => slice_to n rows
                     | None => rows
                     end in
        exists intro blocks,
          outline_lines headers rows detail max_rows = Return (intro ++ concat blocks)
          /\ length intro = 5
          /\ length blocks = length shown
          /\ forall n row, shown !! n = Some row ->
               exists bullets,
                 blocks !! n
                 = Some ((lit "### " ++ record_heading headers (n + 1) row) :: bullets)).
Proof.
  intros Hne. split_and!.
  - by apply keyword_index_spec.
  - by apply keyword_index_spec.
  - by apply keyword_index_spec.
  - intros i row. unfold record_heading. cbn zeta.
    by destruct (strip _).
  - intros rows detail max_rows shown. unfold outline_lines. fold shown.
    destruct (records_from_headings headers (choose_fields detail headers) shown Hne 1)
      as (blocks & Hb & Hlen & Hrows).
    rewrite Hb. eexists _, blocks. split_and!; [done|done|done|].
    intros n row Hn. destruct (Hrows n row Hn) as (bs & Hbs).
    exists bs. by rewrite Nat.add_comm.
Qed.

Lemma outline_headings_witness :
  keyword_index [lit "Volume"; lit "KEYWORD "] < 2
  /\ record_heading [lit "Volume"; lit "KEYWORD "] 1 [lit "5"; lit " a|b "]
     = lit "a\|b"
  /\ record_heading [lit "Volume"; lit "KEYWORD "] 2 [lit "7"]
     = [0x158; 0xE1]%N ++ lit "dek 2".
Proof.
  assert ([lit "Volume"; lit "KEYWORD "] <> []) as Hne by done.
  destruct (outline_headings _ Hne) as ((Hlt & _) & Hh & _).
  split; [exact Hlt|]. rewrite !Hh. by vm_compute.
Defined.

(** The outline of the same table, in full. *)
Example outline_example :
  outline_lines [lit "Volume"; lit "KEYWORD "] [[lit "5"; lit "a|b"]; [lit "7"]]
    (lit "full") None
  = Return [lit "## Export (NotebookLM)" ++ [10%N];
            lit "- **" ++ [0x158; 0xE1; 0x64; 0x6B; 0x16F]%N ++ lit "**: 2";
            lit "- **Re" ++ [0x17E%N] ++ lit "im**: full";
            [];
            lit "## Z" ++ [0xE1%N] ++ lit "znamy" ++ [10%N];
            lit "### a\|b"; lit "- **Volume**: 5"; [];
            lit "### " ++ [0x158; 0xE1]%N ++ lit "dek 2"; lit "- **Volume**: 7"; []].
Proof. by vm_compute. Qed.

(** ** The decoder: what it cannot do *)

(** X1.  Automatic decoding can fail in one way only: with
    [UnicodeDecodeError], on a buffer that starts with a UTF-16 byte-order
    mark.  Every other buffer is decoded to some text. *)
Theorem decode_csv_bytes_raises (raw : bytes) (e : exn) :
  decode_csv_bytes raw = Raise e ->
  e = UnicodeDecodeError /\ has_utf_16_bom raw = true.
Proof.
  intros He. destruct (has_utf_16_bom raw) eqn:Hbom.
  - split; [|done]. unfold decode_csv_bytes in He. rewrite Hbom in He.
    by eapply utf_16_decode_raises.
  - destruct (decode_csv_bytes_returns raw Hbom) as [text Ht]. congruence.
Qed.

Lemma decode_csv_bytes_raises_witness :
  UnicodeDecodeError = UnicodeDecodeError
  /\ has_utf_16_bom [xff; xfe; x00] = true.
Proof. apply (decode_csv_bytes_raises [xff; xfe; x00]). by vm_compute. Defined.

Lemma bytes_startswith_app (raw prefix : bytes) :
  bytes_startswith raw prefix = true -> raw = prefix ++ drop (length prefix) raw.
Proof.
  revert raw. induction prefix as [|p ps IH]; intros [|b raw]; try done.
  cbn. intros [H1 H2]%andb_true_iff.
  apply Byte.byte_dec_bl in H1 as ->. by rewrite <- (IH raw H2).
Qed.

(** A buffer that starts with EF BB BF encodes a text that starts with
    U+FEFF. *)
Lemma utf_8_encode_bom (text : str) (raw : bytes) :
  utf_8_encode text = Some raw -> has_utf_8_bom raw = true ->
  head text = Some BOM.
Proof.
  intros Henc Hbom. apply utf_8_decode_encode in Henc.
  apply bytes_startswith_app in Hbom. rewrite Hbom in Henc.
  set (r := drop _ raw) in Henc. clearbody r. cbn [app] in Henc.
  rewrite utf_8_decode_3 in Henc by (by vm_compute).
  destruct (utf_8_decode r) as [t|]; [|done].
  by injection Henc as <-.
Qed.

Lemma utf_8_sig_decode_bom (raw : bytes) :
  utf_8_sig_decode ([xef; xbb; xbf] ++ raw) = utf_8_decode raw.
Proof. by destruct raw. Qed.

(** X2.  With the hint [utf-8] or [utf8], in any case and with white space
    around, the decoder inverts the UTF-8 encoder on every text that does not
    start with U+FEFF, NUL characters included; one byte-order mark EF BB BF
    in front of the encoding is dropped. *)
Theorem decode_utf_8_hint_round_trip (codecs : str -> bytes -> result str)
    (hint text : str) (raw : bytes) :
  lower (strip (str_or hint (lit "auto"))) ∈ [lit "utf-8"; lit "utf8"] ->
  utf_8_encode text = Some raw ->
  (head text <> Some BOM ->
   decode_csv_bytes_with_encoding codecs raw hint = Return text)
  /\ decode_csv_bytes_with_encoding codecs ([xef; xbb; xbf] ++ raw) hint
     = Return text.
Proof.
  intros Hhint Henc.
  assert (forall raw', decode_csv_bytes_with_encoding codecs raw' hint
                       = utf_8_sig_decode raw') as Hdec.
  { intros raw'. unfold decode_csv_bytes_with_encoding.
    set (enc := lower _) in *. clearbody enc.
    rewrite !elem_of_cons in Hhint.
    destruct Hhint as [->| [->|[]%elem_of_nil]]; reflexivity. }
  rewrite !Hdec. split.
  - intros Hhead. unfold utf_8_sig_decode.
    destruct (has_utf_8_bom raw) eqn:Hbom.
    + by apply (utf_8_encode_bom text) in Hbom.
    + by apply utf_8_decode_encode.
  - rewrite utf_8_sig_decode_bom. by apply utf_8_decode_encode.
Qed.

Lemma decode_utf_8_hint_round_trip_witness :
  decode_csv_bytes_with_encoding (fun _ _ => Raise LookupError)
    [x61; x00; xc5; x99] (lit " UTF-8 ") = Return [0x61; 0; 0x159]%N
  /\ decode_csv_bytes_with_encoding (fun _ _ => Raise LookupError)
       ([xef; xbb; xbf] ++ [x61; x00; xc5; x99]) (lit " UTF-8 ")
     = Return [0x61; 0; 0x159]%N.
Proof.
  destruct (decode_utf_8_hint_round_trip (fun _ _ => Raise LookupError)
              (lit " UTF-8 ") [0x61; 0; 0x159]%N [x61; x00; xc5; x99])
    as [H1 H2].
  - apply (bool_decide_unpack _). by vm_compute.
  - by vm_compute.
  - split; [apply H1; by vm_compute | exact H2].
Defined.

(** X3.  Automatic decoding drops one UTF-8 byte-order mark: a text without
    NUL, encoded as UTF-8 behind EF BB BF, is decoded to itself. *)
Theorem decode_csv_bytes_utf_8_bom (text : str) (raw : bytes) :
  utf_8_encode text = Some raw -> 0%N ∉ text ->
  decode_csv_bytes ([xef; xbb; xbf] ++ raw) = Return text.
Proof.
  intros Henc Hnul. unfold decode_csv_bytes.
  change (has_utf_16_bom ([xef; xbb; xbf] ++ raw)) with false.
  rewrite utf_8_sig_decode_bom, (utf_8_decode_encode _ _ Henc). cbn.
  by rewrite bool_decide_eq_false_2.
Qed.

Lemma decode_csv_bytes_utf_8_bom_witness :
  decode_csv_bytes ([xef; xbb; xbf] ++ [xc5; x99; x3b; x41])
  = Return [0x159; 0x3B; 0x41]%N.
Proof.
  apply decode_csv_bytes_utf_8_bom; [by vm_compute|].
  apply (bool_decide_unpack _). by vm_compute.
Defined.

(** ** Cells: what a rendered cell is made of *)

Lemma escape_md_cell_passes (value : str) :
  _escape_md_cell value = flatten_newlines (escape_pipes (remove_nul value)).
Proof.
  unfold _escape_md_cell. rewrite replace_nul.
  change (lit "|") with [0x7C%N]. change (lit "\|") with [0x5C; 0x7C]%N.
  change (lit " ") with [0x20%N].
  rewrite (replace_char 0x7C%N). fold (escape_pipes (remove_nul value)).
  rewrite !replace_char_char.
  unfold replace. by eapply three_passes_flatten.
Qed.

(** Induction on a text two characters at a time. *)
Lemma str_ind2 (P : str -> Prop) :
  P [] -> (forall c, P [c]) ->
  (forall c d t, P t -> P (d :: t) -> P (c :: d :: t)) ->
  forall s, P s.
Proof.
  intros H0 H1 H2 s.
  assert (P s /\ forall c, P (c :: s)) as [H _]; [|done].
  induction s as [|d t [IH1 IH2]]; [by split|].
  split; [done|]. intros c. by apply H2.
Qed.

Lemma flatten_newlines_cr (d : char) (t : str) :
  d <> 10%N ->
  flatten_newlines (13%N :: d :: t) = 0x20%N :: flatten_newlines (d :: t).
Proof.
  intros Hd. destruct d as [|p]; [done|].
  do 4 (destruct p as [p|p|]; try done).
Qed.

(** The three ways a text goes through [flatten_newlines]. *)
Lemma flatten_newlines_cases (P : str -> str -> Prop) :
  P [] [] ->
  (forall t, P t (flatten_newlines t) ->
             P (13%N :: 10%N :: t) (0x20%N :: flatten_newlines t)) ->
  (forall c t, (c = 13%N -> head t <> Some 10%N) ->
               P t (flatten_newlines t) ->
               P (c :: t) ((if (c =? 13)%N || (c =? 10)%N then 0x20%N else c)
                             :: flatten_newlines t)) ->
  forall s, P s (flatten_newlines s).
Proof.
  intros H0 H1 H2. induction s as [|c|c d t IH1 IH2] using str_ind2.
  - done.
  - specialize (H2 c [] ltac:(done) H0). cbn in *.
    by destruct (c =? 13)%N, (c =? 10)%N.
  - destruct (N.eqb_spec c 13%N) as [->|Hc].
    + destruct (N.eq_dec d 10%N) as [->|Hd]; [by apply H1|].
      rewrite flatten_newlines_cr by done.
      apply (H2 13%N (d :: t)); [|done]. cbn. congruence.
    + specialize (H2 c (d :: t) ltac:(done) IH2).
      apply N.eqb_neq in Hc. cbn [flatten_newlines]. rewrite Hc in *.
      cbn [orb] in H2. by destruct (c =? 10)%N.
Qed.

Lemma flatten_newlines_Forall (P : char -> Prop) (s : str) :
  P 0x20%N -> Forall P s -> Forall P (flatten_newlines s).
Proof.
  intros Hsp. pattern s, (flatten_newlines s).
  apply flatten_newlines_cases; clear s.
  - done.
  - intros t IH [_ [_ Ht]%Forall_cons_1]%Forall_cons_1.
    constructor; [done|]. by apply IH.
  - intros c t _ IH [Hc Ht]%Forall_cons_1. constructor; [|by apply IH].
    by destruct (_ || _).
Qed.

Lemma flatten_newlines_no_line_end (s : str) :
  Forall (fun c => c <> 10%N /\ c <> 13%N) (flatten_newlines s).
Proof.
  pattern s, (flatten_newlines s). apply flatten_newlines_cases; clear s.
  - done.
  - intros t IH. by constructor.
  - intros c t _ IH. constructor; [|done].
    destruct (N.eqb_spec c 13%N), (N.eqb_spec c 10%N); cbn; done.
Qed.

Lemma escape_pipes_Forall (P : char -> Prop) (s : str) :
  P 0x5C%N -> Forall P s -> Forall P (escape_pipes s).
Proof.
  intros Hb. induction 1 as [|c t Hc Ht IH]; [done|].
  cbn. destruct (c =? 0x7C)%N eqn:E; cbn; [|by constructor].
  apply N.eqb_eq in E as ->. by repeat constructor.
Qed.

Lemma remove_nul_Forall (s : str) : Forall (fun c => c <> 0%N) (remove_nul s).
Proof.
  apply Forall_forall. intros c [_ Hc%negb_true_iff]%list_elem_of_In%filter_In.
  by apply N.eqb_neq in Hc.
Qed.

Lemma pipes_escaped_escape_pipes (escaped : bool) (s : str) :
  pipes_escaped escaped (escape_pipes s) = true.
Proof.
  revert escaped. induction s as [|c t IH]; intros escaped; [done|].
  cbn. destruct (N.eqb_spec c 0x7C%N) as [->|Hc]; cbn; [by rewrite IH|].
  apply N.eqb_neq in Hc. by rewrite Hc, IH.
Qed.

Lemma pipes_escaped_flatten_newlines (escaped : bool) (s : str) :
  pipes_escaped escaped s = true ->
  pipes_escaped escaped (flatten_newlines s) = true.
Proof.
  revert escaped. pattern s, (flatten_newlines s).
  apply flatten_newlines_cases; clear s.
  - done.
  - intros t IH escaped. cbn. apply IH.
  - intros c t _ IH escaped. cbn [pipes_escaped].
    intros [Hc Ht]%andb_true_iff.
    destruct (N.eqb_spec c 13%N) as [->|H13]; [by apply IH|].
    destruct (N.eqb_spec c 10%N) as [->|H10]; [by apply IH|].
    cbn [orb]. rewrite Hc. by apply IH.
Qed.

Lemma pipes_escaped_lookup (s : str) (i : nat) :
  pipes_escaped false s = true -> s !! i = Some 0x7C%N ->
  exists j, i = S j /\ s !! j = Some 0x5C%N.
Proof.
  assert (forall escaped s i,
            pipes_escaped escaped s = true -> s !! i = Some 0x7C%N ->
            (i = 0 /\ escaped = true)
            \/ exists j, i = S j /\ s !! j = Some 0x5C%N) as H.
  { clear. intros escaped s. revert escaped.
    induction s as [|c t IH]; intros escaped [|i]; try done.
    - cbn. intros [Hc _]%andb_true_iff [= ->]. by left.
    - cbn [pipes_escaped]. intros [_ Ht]%andb_true_iff Hi. right.
      destruct (IH _ i Ht Hi) as [[-> Hc]|(j & -> & Hj)].
      + apply N.eqb_eq in Hc as ->. by exists 0.
      + by exists (S j). }
  intros Hs Hi. by destruct (H _ _ _ Hs Hi) as [[_ ?]|?].
Qed.

Lemma escape_md_cell_alphabet (value : str) :
  (0%N ∉ _escape_md_cell value) /\ (10%N ∉ _escape_md_cell value)
  /\ (13%N ∉ _escape_md_cell value).
Proof.
  rewrite escape_md_cell_passes.
  pose proof (flatten_newlines_no_line_end (escape_pipes (remove_nul value)))
    as Hle.
  assert (Forall (fun c => c <> 0%N)
            (flatten_newlines (escape_pipes (remove_nul value)))) as Hnul.
  { apply flatten_newlines_Forall; [done|].
    apply escape_pipes_Forall; [done|]. apply remove_nul_Forall. }
  rewrite Forall_forall in Hle, Hnul.
  split_and!; intros Hin.
  - by destruct (Hnul _ Hin).
  - by destruct (Hle _ Hin) as [? _].
  - by destruct (Hle _ Hin) as [_ ?].
Qed.

(** X4.  A rendered cell cannot break a table row: it holds no NUL, no line
    feed and no carriage return, and each of its pipes stands directly behind
    a backslash. *)
Theorem escape_md_cell_safe (value : str) (i : nat) :
  let out := _escape_md_cell value in
  ((0%N ∉ out) /\ (10%N ∉ out) /\ (13%N ∉ out))
  /\ (out !! i = Some 0x7C%N -> exists j, i = S j /\ out !! j = Some 0x5C%N).
Proof.
  cbn zeta. split; [apply escape_md_cell_alphabet|].
  rewrite escape_md_cell_passes.
  apply pipes_escaped_lookup, pipes_escaped_flatten_newlines,
    pipes_escaped_escape_pipes.
Qed.

Lemma escape_pipes_cons (c : char) (t : str) :
  escape_pipes (c :: t)
  = (if (c =? 0x7C)%N then [0x5C; 0x7C]%N else [c]) ++ escape_pipes t.
Proof. done. Qed.

Lemma escape_pipes_id (s : str) : 0x7C%N ∉ s -> escape_pipes s = s.
Proof.
  induction s as [|c t IH]; [done|].
  intros [Hc Ht]%not_elem_of_cons. rewrite escape_pipes_cons.
  apply not_eq_sym, N.eqb_neq in Hc. rewrite Hc. cbn. by rewrite IH.
Qed.

Lemma flatten_newlines_id (s : str) :
  10%N ∉ s -> 13%N ∉ s -> flatten_newlines s = s.
Proof.
  induction s as [|c t IH]; [done|].
  intros [Hc Ht]%not_elem_of_cons [Hc' Ht']%not_elem_of_cons. cbn.
  apply not_eq_sym, N.eqb_neq in Hc, Hc'. rewrite Hc, Hc'. by rewrite IH.
Qed.

Lemma length_escape_pipes (s : str) :
  length s <= length (escape_pipes s)
  /\ (0x7C%N ∈ s -> length s < length (escape_pipes s)).
Proof.
  induction s as [|c t [IH1 IH2]]; [split; [done|by intros ?%elem_of_nil]|].
  rewrite escape_pipes_cons.
  destruct (N.eqb_spec c 0x7C%N) as [->|Hc]; cbn [app length].
  - split; [lia|]. intros _. lia.
  - split; [lia|]. intros [?|Hin]%elem_of_cons; [done|]. apply IH2 in Hin. lia.
Qed.

(** X5.  The cells the escaping leaves as they are, are exactly those without
    NUL, pipe, line feed and carriage return. *)
Theorem escape_md_cell_fixed (value : str) :
  _escape_md_cell value = value
  <-> Forall (fun c => c ∉ [0; 0x7C; 10; 13]%N) value.
Proof.
  rewrite Forall_forall. split.
  - intros Heq.
    destruct (escape_md_cell_alphabet value) as (H0 & H10 & H13).
    rewrite Heq in H0, H10, H13.
    assert (0x7C%N ∉ value) as Hp.
    { intros Hin. rewrite escape_md_cell_passes in Heq.
      rewrite remove_nul_id in Heq by done.
      assert (Forall (fun c => c <> 10%N /\ c <> 13%N) (escape_pipes value))
        as Hle.
      { apply escape_pipes_Forall; [done|]. apply Forall_forall.
        intros c Hc. split; by intros ->. }
      rewrite Forall_forall in Hle.
      rewrite flatten_newlines_id in Heq.
      - apply length_escape_pipes in Hin. rewrite Heq in Hin. lia.
      - intros Hc. by destruct (Hle _ Hc) as [? _].
      - intros Hc. by destruct (Hle _ Hc) as [_ ?]. }
    intros c Hc. rewrite !elem_of_cons.
    intros [->|[->|[->|[->|[]%elem_of_nil]]]]; done.
  - intros H.
    assert (forall x, x ∈ [0; 0x7C; 10; 13]%N -> x ∉ value) as Hx.
    { intros x Hx Hin. by apply (H x Hin). }
    rewrite escape_md_cell_passes.
    rewrite remove_nul_id by (apply Hx; set_solver).
    rewrite escape_pipes_id by (apply Hx; set_solver).
    apply flatten_newlines_id; apply Hx; set_solver.
Qed.

(** ** Preambles *)

Lemma endswith_snoc (s p : str) (c d : char) :
  endswith (s ++ [c]) (p ++ [d]) = (d =? c)%N && endswith s p.
Proof. unfold endswith. by rewrite !rev_unit. Qed.

Lemma endswith_nil (s : str) : endswith s [] = true.
Proof. unfold endswith. apply startswith_nil. Qed.

Lemma endswith_two_one (s : str) :
  endswith s [10; 10]%N = true -> endswith s [10%N] = true.
Proof.
  unfold endswith. generalize (rev s). intros [|a u]; [done|]. cbn.
  intros [-> _]%andb_true_iff. by rewrite startswith_nil.
Qed.

(** X6.  A preamble that is not empty is extended by the fewest line feeds
    that make it end in an empty line: none, one or two.  The result ends in
    two line feeds and is left as it is when normalised again. *)
Theorem normalize_preamble_spec (preamble : str) :
  preamble <> [] ->
  let out := _normalize_preamble preamble in
  out = preamble
          ++ (if endswith preamble [10; 10]%N then []
              else if endswith preamble [10%N] then [10%N] else [10; 10]%N)
  /\ endswith out [10; 10]%N = true
  /\ _normalize_preamble out = out.
Proof.
  intros Hne.
  assert (forall p, p <> [] -> endswith p [10; 10]%N = true ->
                    _normalize_preamble p = p) as Hfix.
  { intros p Hp H2. unfold _normalize_preamble.
    destruct p as [|c t]; [done|]. cbn [truthy negb].
    rewrite (endswith_two_one _ H2). cbn [negb]. by rewrite H2. }
  assert (_normalize_preamble preamble
          = preamble
              ++ (if endswith preamble [10; 10]%N then []
                  else if endswith preamble [10%N] then [10%N]
                       else [10; 10]%N)) as Hout.
  { destruct (endswith preamble [10; 10]%N) eqn:H2.
    - rewrite Hfix by done. by rewrite app_nil_r.
    - unfold _normalize_preamble.
      destruct preamble as [|c t]; [done|]. cbn [truthy negb].
      destruct (endswith (c :: t) [10%N]) eqn:H1; cbn [negb].
      + by rewrite H2.
      + change [10; 10]%N with ([10%N] ++ [10%N]) at 1.
        rewrite endswith_snoc, H1. cbn. by rewrite <- app_assoc. }
  cbn zeta. split; [done|].
  assert (endswith (_normalize_preamble preamble) [10; 10]%N = true) as Hend.
  { rewrite Hout.
    destruct (endswith preamble [10; 10]%N) eqn:H2; [by rewrite app_nil_r|].
    destruct (endswith preamble [10%N]) eqn:H1.
    - change [10; 10]%N with ([10%N] ++ [10%N]).
      by rewrite endswith_snoc, H1.
    - change (preamble ++ [10; 10]%N) with (preamble ++ [10%N] ++ [10%N]).
      rewrite app_assoc.
      change [10; 10]%N with ([10%N] ++ [10%N]).
      rewrite endswith_snoc. cbn [N.eqb Pos.eqb andb].
      change [10%N] with ([] ++ [10%N]) at 2.
      by rewrite endswith_snoc, endswith_nil. }
  split; [done|]. apply Hfix; [|done].
  rewrite Hout. by destruct preamble.
Qed.

Lemma normalize_preamble_spec_witness :
  _normalize_preamble (lit "Note" ++ [10%N]) = lit "Note" ++ [10; 10]%N.
Proof.
  destruct (normalize_preamble_spec (lit "Note" ++ [10%N])) as (H & _ & _);
    [done|exact H].
Defined.

(** ** Header labels *)

Lemma lstrip_by_split (f : char -> bool) (s : str) :
  exists l, s = l ++ lstrip_by f s
            /\ forall c, head (lstrip_by f s) = Some c -> f c = false.
Proof.
  induction s as [|c t (l & Hl & Hh)]; [by exists []|].
  cbn. destruct (f c) eqn:Hc.
  - exists (c :: l). split; [cbn; congruence|done].
  - exists []. split; [done|]. by intros ? [= <-].
Qed.

Lemma rstrip_by_split (f : char -> bool) (s : str) :
  exists r, s = rstrip_by f s ++ r
            /\ forall c, last (rstrip_by f s) = Some c -> f c = false.
Proof.
  unfold rstrip_by.
  destruct (lstrip_by_split f (rev s)) as (l & Hl & Hh).
  exists (rev l). split.
  - rewrite <- rev_app_distr, <- Hl. by rewrite rev_involutive.
  - intros c. replace (last (rev (lstrip_by f (rev s))))
      with (head (lstrip_by f (rev s))); [apply Hh|].
    destruct (lstrip_by f (rev s)); [done|]. cbn [rev head].
    by rewrite last_snoc.
Qed.

Lemma rstrip_by_head (f : char -> bool) (s : str) (c : char) :
  head s = Some c -> f c = false -> head (rstrip_by f s) = Some c.
Proof.
  intros Hh Hc. destruct s as [|x t]; [done|]. injection Hh as ->.
  unfold rstrip_by. cbn [rev].
  assert (forall u, exists v, lstrip_by f (u ++ [c]) = v ++ [c]) as H.
  { induction u as [|y u [v Hv]]; cbn.
    - rewrite Hc. by exists [].
    - destruct (f y); [by exists v|]. by exists (y :: u). }
  destruct (H (rev t)) as [v ->]. by rewrite rev_unit.
Qed.

(** X7.  A cleaned header label holds no NUL and neither starts nor ends
    with white space; it is a piece of the label without its NULs. *)
Theorem clean_header_trimmed (h : str) :
  let out := _clean_header h in
  (0%N ∉ out)
  /\ (forall c, head out = Some c -> isspace c = false)
  /\ (forall c, last out = Some c -> isspace c = false)
  /\ exists l r, remove_nul h = l ++ out ++ r.
Proof.
  cbn zeta. unfold _clean_header. rewrite replace_nul.
  set (s := remove_nul h).
  destruct (lstrip_by_split (mem_char [BOM]) s) as (l1 & Hl1 & _).
  fold (lstrip_chars [BOM] s) in Hl1. set (s1 := lstrip_chars [BOM] s) in *.
  unfold strip.
  destruct (lstrip_by_split isspace s1) as (l2 & Hl2 & Hh).
  set (s2 := lstrip_by isspace s1) in *.
  destruct (rstrip_by_split isspace s2) as (r & Hr & Hlast).
  assert (s = (l1 ++ l2) ++ rstrip_by isspace s2 ++ r) as Hs.
  { rewrite <- app_assoc, <- Hr, <- Hl2. done. }
  split_and!.
  - intros Hin. pose proof (remove_nul_Forall h) as Hn. fold s in Hn.
    rewrite Forall_forall in Hn. apply (Hn 0%N); [|done].
    rewrite Hs. set_solver.
  - intros c Hc. destruct s2 as [|x t] eqn:E; [done|].
    destruct (isspace x) eqn:Hx; [by rewrite (Hh x eq_refl) in Hx|].
    rewrite (rstrip_by_head isspace (x :: t) x eq_refl Hx) in Hc.
    by injection Hc as <-.
  - done.
  - by exists (l1 ++ l2), r.
Qed.

(** ** Positions: numbers in, numbers out *)

Lemma startswith_app (p r : str) : startswith (p ++ r) p = true.
Proof. induction p as [|c p IH]; [apply startswith_nil|]. cbn. by rewrite N.eqb_refl. Qed.

Lemma startswith_other (c x : char) (sep s : str) :
  x <> c -> startswith (x :: s) (c :: sep) = false.
Proof. intros H. cbn. by apply not_eq_sym, N.eqb_neq in H as ->. Qed.

Lemma split_from_skip (sep cur u rest : str) :
  split_from sep (length u) cur (u ++ rest) = split_from sep 0 cur rest.
Proof.
  induction u as [|x u IH]; [done|].
  cbn [length app]. destruct rest as [|y rest'] eqn:E.
  - rewrite app_nil_r in *. cbn [split_from]. apply IH.
  - cbn [split_from]. apply IH.
Qed.

(** A piece without the first character of the separator is read through. *)
Lemma split_from_piece (c : char) (sep cur p rest : str) :
  c ∉ p ->
  split_from (c :: sep) 0 cur (p ++ rest)
  = split_from (c :: sep) 0 (cur ++ p) rest.
Proof.
  revert cur. induction p as [|x p IH]; intros cur Hp.
  - by rewrite app_nil_r.
  - apply not_elem_of_cons in Hp as [Hx Hp].
    cbn [app]. cbn [split_from].
    rewrite startswith_other by done.
    rewrite IH by done. by rewrite <- app_assoc.
Qed.

Lemma split_from_sep (sep cur rest : str) :
  sep <> [] ->
  split_from sep 0 cur (sep ++ rest) = cur :: split_from sep 0 [] rest.
Proof.
  intros Hsep. destruct sep as [|c sep']; [done|].
  cbn [app]. cbn [split_from].
  change (c :: sep' ++ rest) with ((c :: sep') ++ rest).
  rewrite startswith_app. f_equal.
  replace (length (c :: sep') - 1) with (length sep') by (cbn; lia).
  apply split_from_skip.
Qed.

(** Splitting inverts joining when no piece holds the first character of the
    separator. *)
Lemma split_join (c : char) (sep : str) (parts : list str) :
  parts <> [] -> Forall (fun p => c ∉ p) parts ->
  split (c :: sep) (join (c :: sep) parts) = parts.
Proof.
  intros Hne Hall. unfold split.
  assert (forall cur, split_from (c :: sep) 0 cur (join (c :: sep) parts)
                      = match parts with
                        | p :: ps => (cur ++ p) :: ps
                        | [] => [cur]
                        end) as H.
  { clear Hne. induction Hall as [|p ps Hp Hps IH]; intros cur; [done|].
    destruct ps as [|q ps].
    - cbn [join]. rewrite <- (app_nil_r p) at 1.
      by rewrite split_from_piece.
    - change (join (c :: sep) (p :: q :: ps))
        with (p ++ (c :: sep) ++ join (c :: sep) (q :: ps)).
      rewrite split_from_piece by done.
      rewrite split_from_sep by done. by rewrite IH. }
  rewrite H. by destruct parts.
Qed.

Lemma lstrip_by_id (f : char -> bool) (s : str) :
  Forall (fun c => f c = false) s -> lstrip_by f s = s.
Proof. destruct 1 as [|c t Hc _]; [done|]. cbn. by rewrite Hc. Qed.

Lemma rstrip_by_id (f : char -> bool) (s : str) :
  Forall (fun c => f c = false) s -> rstrip_by f s = s.
Proof.
  intros H. unfold rstrip_by. rewrite lstrip_by_id; [apply rev_involutive|].
  apply Forall_forall. intros c Hc%list_elem_of_In%in_rev%list_elem_of_In.
  rewrite Forall_forall in H. by apply H.
Qed.

Lemma digits_of_uint_digits (d : Decimal.uint) :
  Forall (fun c => is_ascii_digit c = true) (digits_of_uint d).
Proof. induction d; by constructor. Qed.

Lemma str_of_nat_digits (n : nat) :
  Forall (fun c => is_ascii_digit c = true) (str_of_nat n).
Proof. apply digits_of_uint_digits. Qed.

Lemma str_of_nat_nonempty (n : nat) : str_of_nat n <> [].
Proof.
  unfold str_of_nat. intros H.
  assert (Nat.to_uint n = Decimal.Nil) as Hn by (by destruct (Nat.to_uint n)).
  pose proof (DecimalNat.Unsigned.of_to n) as Hof. rewrite Hn in Hof.
  cbn in Hof. by subst n.
Qed.

Lemma ascii_digit_facts (c : char) :
  is_ascii_digit c = true ->
  isspace c = false /\ is_ascii_space c = false /\ (c <? 128)%N = true
  /\ isdigit_char c = true /\ c <> 0x2C%N /\ c <> 0x2D%N /\ c <> 0x2B%N
  /\ c <> 0x5F%N /\ ascii_digit c = Some (c - 0x30)%N.
Proof.
  unfold is_ascii_digit, isspace, is_ascii_space, ascii_digit. intros H.
  rewrite H. split_and!; try lia; [|done].
  unfold isdigit_char, decimal_value, decimal_runs. cbn [List.find].
  by replace ((0x30 <=? c) && (c <? 0x30 + 10))%N with true by lia.
Qed.

Lemma read_sign_other (c : char) (t : str) :
  c <> 0x2D%N -> c <> 0x2B%N -> read_sign (c :: t) = (false, c :: t).
Proof.
  intros H1 H2. destruct c as [|p]; [done|].
  do 6 (destruct p as [p|p|]; try done).
Qed.

Lemma int_digits_of_uint (d : Decimal.uint) (acc : N) :
  int_digits false acc (digits_of_uint d)
  = Some (N.of_nat (Nat.of_uint_acc d (N.to_nat acc))).
Proof.
  revert acc. induction d; intros acc; cbn [digits_of_uint int_digits];
    [cbn; by rewrite N2Nat.id|..];
    cbn [N.eqb Pos.eqb ascii_digit N.leb N.compare Pos.compare
         Pos.compare_cont andb N.sub Pos.sub Pos.sub_mask Pos.double_mask
         Pos.succ_double_mask Pos.double_pred_mask Pos.pred_double];
    rewrite IHd; cbn [Nat.of_uint_acc]; rewrite Nat.tail_mul_spec;
    do 3 f_equal; lia.
Qed.

Lemma int_digits_ascii (t : str) (acc : N) :
  Forall (fun c => is_ascii_digit c = true) t ->
  exists v, int_digits false acc t = Some v.
Proof.
  intros Ht. revert acc. induction Ht as [|c t Hc _ IH]; intros acc.
  { by eexists. }
  destruct (ascii_digit_facts c Hc) as (_ & _ & _ & _ & _ & _ & _ & Hu & Hd).
  cbn [int_digits]. apply N.eqb_neq in Hu. rewrite Hu, Hd. apply IH.
Qed.

Lemma filter_ascii_digits (t : str) :
  Forall (fun c => is_ascii_digit c = true) t ->
  List.filter is_ascii_digit t = t.
Proof. induction 1 as [|c t Hc _ IH]; [done|]. cbn. by rewrite Hc, IH. Qed.

(** [int] on a text of ASCII digits: the number, unless the digits are more
    than the cap. *)
Lemma py_int_ascii_digits (t : str) :
  t <> [] -> Forall (fun c => is_ascii_digit c = true) t ->
  py_int t
  = if (int_max_str_digits <? N.of_nat (length t))%N then Raise ValueError
    else Return (Z.of_N (default 0%N (int_digits false 0%N t))).
Proof.
  intros Hne Hd.
  unfold py_int, to_ascii_digits, strip_ascii.
  replace (forallb (fun c => (c <? 128)%N) t) with true.
  2:{ symmetry. apply forallb_forall. intros c Hc%list_elem_of_In.
      rewrite Forall_forall in Hd. by apply ascii_digit_facts, Hd. }
  assert (Forall (fun c => is_ascii_space c = false) t) as Hsp.
  { eapply Forall_impl; [exact Hd|]. intros c Hc. by apply ascii_digit_facts. }
  rewrite (lstrip_by_id _ _ Hsp), (rstrip_by_id _ _ Hsp).
  destruct (int_digits_ascii t 0%N Hd) as [v Hv].
  pose proof (filter_ascii_digits t Hd) as Hf.
  destruct t as [|c t'] eqn:E; [done|]. rewrite <- E in *.
  assert (is_ascii_digit c = true) as Hc.
  { rewrite E in Hd. by apply Forall_cons in Hd as [? _]. }
  destruct (ascii_digit_facts c Hc) as (_ & _ & _ & _ & _ & Hm & Hp & _).
  rewrite E at 1. rewrite read_sign_other by done. rewrite <- E.
  by rewrite Hc, Hv, Hf.
Qed.

Lemma py_int_str_of_nat (n : nat) :
  (N.of_nat (length (str_of_nat n)) <= int_max_str_digits)%N ->
  py_int (str_of_nat n) = Return (Z.of_nat n).
Proof.
  intros Hlen.
  rewrite py_int_ascii_digits
    by (apply str_of_nat_nonempty || apply str_of_nat_digits).
  replace (int_max_str_digits <? N.of_nat (length (str_of_nat n)))%N
    with false by lia.
  unfold str_of_nat. rewrite int_digits_of_uint.
  change (Nat.of_uint_acc (Nat.to_uint n) (N.to_nat 0))
    with (Nat.of_uint (Nat.to_uint n)).
  rewrite DecimalNat.Unsigned.of_to. cbn. apply f_equal. lia.
Qed.

Lemma isdigit_ascii_digits (t : str) :
  t <> [] -> Forall (fun c => is_ascii_digit c = true) t -> isdigit t = true.
Proof.
  intros Hne Hd. unfold isdigit. apply andb_true_iff. split.
  - by destruct t.
  - apply forallb_forall. intros c Hc%list_elem_of_In.
    rewrite Forall_forall in Hd. by apply ascii_digit_facts, Hd.
Qed.

Lemma collect_positions_str_of_nat (ns : list nat) :
  Forall (fun n => (N.of_nat (length (str_of_nat n)) <= int_max_str_digits)%N)
    ns ->
  collect_positions (map str_of_nat ns) = Return (map Z.of_nat ns).
Proof.
  induction 1 as [|n ns Hn _ IH]; [done|].
  cbn [map collect_positions].
  rewrite isdigit_ascii_digits
    by (apply str_of_nat_nonempty || apply str_of_nat_digits).
  cbn [negb]. rewrite py_int_str_of_nat, IH; done.
Qed.

(** One part with more digits than the cap stops the loop. *)
Lemma collect_positions_too_long (tokens : list str) :
  Forall (fun t => t <> [] /\ Forall (fun c => is_ascii_digit c = true) t)
    tokens ->
  Exists (fun t => (int_max_str_digits < N.of_nat (length t))%N) tokens ->
  collect_positions tokens = Raise ValueError.
Proof.
  induction 1 as [|t tokens [Hne Hd] _ IH]; intros Hex.
  { by apply Exists_nil in Hex. }
  cbn [collect_positions]. rewrite isdigit_ascii_digits by done. cbn [negb].
  rewrite py_int_ascii_digits by done.
  destruct (int_max_str_digits <? N.of_nat (length t))%N eqn:Hlen; [done|].
  apply Exists_cons in Hex as [Hex|Hex]; [lia|].
  cbn [mbind result_bind]. by rewrite IH.
Qed.

(** A text made of parts of ASCII digits and commas is split into the
    parts. *)
Lemma parse_positions_tokens (tokens : list str) :
  tokens <> [] ->
  Forall (fun t => t <> [] /\ Forall (fun c => is_ascii_digit c = true) t)
    tokens ->
  _parse_positions (Some (join (lit ",") tokens))
  = collect_positions tokens ≫= fun out =>
    Return (match out with [] => None | _ => Some out end).
Proof.
  intros Hne Hparts. unfold _parse_positions.
  destruct (join (lit ",") tokens) as [|c0 t0] eqn:Hj.
  { destruct tokens as [|p [|q ps]]; [done|..].
    - apply Forall_cons in Hparts as [[Hp _] _]. by cbn in Hj.
    - apply Forall_cons in Hparts as [[Hp _] _]. cbn in Hj.
      by destruct p. }
  rewrite <- Hj. change (lit ",") with (0x2C%N :: []).
  rewrite split_join; [|done|].
  2:{ eapply Forall_impl; [exact Hparts|]. intros p [_ Hp] Hin.
      rewrite Forall_forall in Hp. apply Hp, ascii_digit_facts in Hin.
      by destruct Hin as (_ & _ & _ & _ & ? & _). }
  replace (filter (fun p => truthy p) (map strip tokens)) with tokens; [done|].
  clear Hj Hne.
  induction Hparts as [|p ps [Hpne Hp] _ IH]; [done|].
  cbn [map]. assert (strip p = p) as ->.
  { unfold strip. rewrite lstrip_by_id, rstrip_by_id; [done|..];
      (eapply Forall_impl; [exact Hp|]; intros c Hc;
       by apply ascii_digit_facts). }
  rewrite filter_cons_True by (by destruct p). by rewrite <- IH.
Qed.

(** X8.  A list of numbers written in decimal and separated by commas is read
    as those numbers, in that order, as long as none is written with more
    digits than [int] takes (4300); a text of parts of ASCII digits and
    commas with a longer part is refused with [ValueError]. *)
Theorem parse_positions_decimal :
  (forall ns : list nat,
     ns <> [] ->
     Forall (fun n =>
               (N.of_nat (length (str_of_nat n)) <= int_max_str_digits)%N) ns ->
     _parse_positions (Some (join (lit ",") (map str_of_nat ns)))
     = Return (Some (map Z.of_nat ns)))
  /\ (forall tokens : list str,
        Forall (fun t => t <> []
                         /\ Forall (fun c => is_ascii_digit c = true) t)
          tokens ->
        Exists (fun t => (int_max_str_digits < N.of_nat (length t))%N)
          tokens ->
        _parse_positions (Some (join (lit ",") tokens)) = Raise ValueError).
Proof.
  split.
  - intros ns Hne Hcap.
    rewrite parse_positions_tokens.
    + rewrite collect_positions_str_of_nat by done. cbn. by destruct ns.
    + by destruct ns.
    + apply Forall_forall. intros p (n & -> & _)%list_elem_of_fmap.
      split; [apply str_of_nat_nonempty | apply str_of_nat_digits].
  - intros tokens Hparts Hex.
    rewrite parse_positions_tokens; [|by destruct Hex|done].
    by rewrite collect_positions_too_long.
Qed.

Lemma parse_positions_decimal_witness :
  _parse_positions (Some (lit "3,1,12")) = Return (Some [3; 1; 12]%Z)
  /\ _parse_positions (Some (lit "7," ++ replicate 4301 0x31%N))
     = Raise ValueError.
Proof.
  destruct parse_positions_decimal as [Hread Hcap]. split.
  - apply (Hread [3; 1; 12]); [done|]. repeat constructor; by vm_compute.
  - apply (Hcap [lit "7"; replicate 4301 0x31%N]).
    + apply Forall_cons. split; [by split; [|repeat constructor]|].
      apply Forall_cons. split; [|constructor]. split; [done|].
      apply Forall_forall. by intros c [-> _]%elem_of_replicate.
    + apply Exists_cons_tl, Exists_cons_hd. by vm_compute.
Defined.

(** ** Positions: the projection *)

Lemma valid_indexes (n : nat) (ps : list Z) :
  filter (fun i => (i < Z.of_nat n)%Z)
    (map (fun p => (p - 1)%Z) (filter (fun p => (0 < p)%Z) ps))
  = map (fun p => (p - 1)%Z)
      (filter (fun p => (0 < p <= Z.of_nat n)%Z) ps).
Proof.
  induction ps as [|p ps IH]; [done|].
  rewrite !(filter_cons _ p).
  destruct (decide (0 < p)%Z), (decide (0 < p <= Z.of_nat n)%Z);
    cbn [map]; rewrite ?filter_cons; try case_decide; try lia;
    by rewrite IH.
Qed.

(** X9.  Projection keeps the positions from 1 to the number of columns, in
    the order given and as often as given.  When none is left the table is
    unchanged; otherwise header and rows are rebuilt from the columns named,
    every new row is as long as the new header (a cell missing from a short
    row is empty), and every new label is a label of the table. *)
Theorem apply_positions_spec (headers : list str) (rows : list (list str))
    (ps : list Z) :
  let valid := valid_positions headers ps in
  _apply_positions headers rows (Some ps)
  = (if bool_decide (valid = []) then (headers, rows)
     else (project valid headers, map (project valid) rows))
  /\ Forall (fun r => length r = length (project valid headers))
       (map (project valid) rows)
  /\ Forall (fun h => h ∈ headers) (project valid headers).
Proof.
  cbn zeta. split_and!.
  - unfold _apply_positions.
    destruct ps as [|p0 ps0] eqn:Eps; [done|]. rewrite <- Eps. clear Eps.
    rewrite valid_indexes. fold (valid_positions headers ps).
    assert (Forall (fun p => (0 < p)%Z) (valid_positions headers ps)) as Hpos.
    { apply Forall_forall. intros p [Hp _]%list_elem_of_filter. lia. }
    case_bool_decide as Hv; [by rewrite Hv|].
    destruct (map _ (valid_positions headers ps)) as [|i idxs] eqn:Ei.
    { by destruct (valid_positions headers ps). }
    rewrite <- Ei. clear Ei. unfold project. f_equal.
    + by rewrite map_map.
    + apply map_ext. intros r. rewrite map_map.
      apply map_ext_in. intros p Hp%list_elem_of_In.
      rewrite Forall_forall in Hpos. specialize (Hpos p Hp).
      case_bool_decide as Hlt; [done|]. symmetry. apply nth_overflow.
      apply Z.nlt_ge in Hlt. apply Nat2Z.inj_le. rewrite Z2Nat.id by lia.
      exact Hlt.
  - apply Forall_forall. intros r (r0 & -> & _)%list_elem_of_fmap.
    unfold project. by rewrite !length_map.
  - apply Forall_forall. intros h (p & -> & Hp)%list_elem_of_fmap.
    apply list_elem_of_filter in Hp as [Hp _].
    apply list_elem_of_In, nth_In. lia.
Qed.

(** ** The sorter: order and stability *)

Lemma str_ltb_irrefl (a : str) : str_ltb a a = false.
Proof.
  induction a as [|x a IH]; [done|]. cbn.
  by rewrite N.ltb_irrefl, N.eqb_refl, IH.
Qed.

Lemma str_ltb_asym (a b : str) : str_ltb a b = true -> str_ltb b a = false.
Proof.
  revert b. induction a as [|x a IH]; intros [|y b]; cbn; try done.
  destruct (N.ltb_spec x y), (N.eqb_spec x y), (N.ltb_spec y x),
    (N.eqb_spec y x); cbn; try lia; try done.
  apply IH.
Qed.

Lemma str_le_trans (a b c : str) :
  str_ltb b a = false -> str_ltb c b = false -> str_ltb c a = false.
Proof.
  revert b c. induction a as [|x a IH]; intros [|y b] [|z c]; cbn; try done.
  destruct (N.ltb_spec y x), (N.eqb_spec y x), (N.ltb_spec z y),
    (N.eqb_spec z y), (N.ltb_spec z x), (N.eqb_spec z x);
    cbn; try lia; try done.
  apply IH.
Qed.

Lemma float_ltb_irrefl (a : float) : float_ltb a a = false.
Proof.
  destruct a as [|[]|q]; cbn; try done.
  apply negb_false_iff, Qle_bool_iff, Qle_refl.
Qed.

Lemma lookup_rev {A} (l : list A) (i : nat) :
  i < length l -> rev l !! i = l !! (length l - S i).
Proof. rewrite rev_alt. apply reverse_lookup. Qed.

Section StableSort.
Context {A K : Type} (ltb : K -> K -> bool) (key : A -> K).
Context (ok : K -> Prop).
Hypothesis irrefl : forall a, ltb a a = false.
Hypothesis asym : forall a b, ok a -> ok b -> ltb a b = true -> ltb b a = false.
Hypothesis le_trans : forall a b c, ok a -> ok b -> ok c ->
  ltb b a = false -> ltb c b = false -> ltb c a = false.

(** The order of the result, in either direction. *)
Lemma sorted_order (reverse : bool) (l : list A) (i j : nat) (a b : A) :
  Forall (fun y => ok (key y)) l -> i < j ->
  sorted ltb key reverse l !! i = Some a ->
  sorted ltb key reverse l !! j = Some b ->
  if reverse then ltb (key a) (key b) = false else ltb (key b) (key a) = false.
Proof.
  intros Hok Hij Ha Hb. unfold sorted in *. destruct reverse.
  - assert (Forall (fun y => ok (key y)) (rev l)) as Hok'.
    { apply Forall_forall. intros y Hy%list_elem_of_In%in_rev%list_elem_of_In.
      rewrite Forall_forall in Hok. by apply Hok. }
    pose proof (sort_asc_sorted ltb key ok asym le_trans (rev l) Hok') as Hs.
    set (s := sort_asc ltb key (rev l)) in *.
    pose proof (lookup_lt_Some _ _ _ Ha) as Hi.
    pose proof (lookup_lt_Some _ _ _ Hb) as Hj.
    rewrite length_rev in Hi, Hj.
    rewrite lookup_rev in Ha, Hb by done.
    apply (strongly_sorted_lookup ltb key s (length s - S j) (length s - S i)
             b a Hs); [lia|done|done].
  - apply (strongly_sorted_lookup ltb key (sort_asc ltb key l) i j a b);
      [|done..].
    by apply (sort_asc_sorted ltb key ok asym le_trans).
Qed.

Context (P : A -> Prop) `{!forall a, Decision (P a)}.
Hypothesis same_key : forall a b, P a -> P b -> key a = key b.

Lemma insert_sorted_filter (x : A) (l : list A) :
  filter P (insert_sorted ltb key x l) = filter P (x :: l).
Proof.
  induction l as [|y l IH]; [done|]. cbn [insert_sorted].
  destruct (ltb (key y) (key x)) eqn:E; [|done].
  rewrite (filter_cons _ y), IH, !filter_cons.
  destruct (decide (P y)) as [Hy|], (decide (P x)) as [Hx|]; try done.
  rewrite (same_key _ _ Hy Hx), irrefl in E. done.
Qed.

Lemma sort_asc_filter (l : list A) :
  filter P (sort_asc ltb key l) = filter P l.
Proof.
  induction l as [|x l IH]; [done|]. cbn [sort_asc].
  by rewrite insert_sorted_filter, !filter_cons, IH.
Qed.

Lemma filter_rev (l : list A) : filter P (rev l) = rev (filter P l).
Proof.
  induction l as [|x l IH]; [done|]. cbn [rev].
  rewrite filter_app, IH, !filter_cons, filter_nil.
  destruct (decide (P x)); [done|]. by rewrite app_nil_r.
Qed.

(** Stability: the elements of one key keep their order, in either
    direction. *)
Lemma sorted_filter (reverse : bool) (l : list A) :
  filter P (sorted ltb key reverse l) = filter P l.
Proof.
  unfold sorted. destruct reverse; [|apply sort_asc_filter].
  by rewrite filter_rev, sort_asc_filter, filter_rev, rev_involutive.
Qed.
End StableSort.

Lemma apply_sort_text_eq (rows : list (list str)) (key : SortKey)
    (headers_len : nat) :
  lower (str_or (type key) (lit "string")) <> lit "numeric" ->
  _apply_sort rows key headers_len
  = sorted str_ltb
      (fun r => if ignore_case key
                then casefold (get_val (sort_index key headers_len) r)
                else get_val (sort_index key headers_len) r)
      (str_eqb (lower (str_or (direction key) (lit "asc"))) (lit "desc"))
      rows.
Proof.
  intros Htyp. unfold _apply_sort. cbn zeta.
  destruct (str_eqb (lower (str_or (type key) (lit "string"))) (lit "numeric"))
    eqn:E; [by apply bool_decide_eq_true in E|].
  by destruct (ignore_case key).
Qed.

Lemma sort_index_clamped (key : SortKey) (headers_len : nat) :
  (0 < headers_len -> sort_index key headers_len < headers_len)
  /\ ((1 <= field_1based key <= Z.of_nat headers_len)%Z ->
      Z.of_nat (sort_index key headers_len) = (field_1based key - 1)%Z)
  /\ ((field_1based key < 1)%Z -> sort_index key headers_len = 0)
  /\ ((Z.of_nat headers_len < field_1based key)%Z ->
      sort_index key headers_len = headers_len - 1).
Proof. unfold sort_index. lia. Qed.

(** X10.  Sorting by text.  When the type is not [numeric], the rows are
    rearranged so that the texts of the sort column (case-folded when case is
    ignored) stand in code-point order, ascending, or descending when the
    direction is [desc]; rows whose key is the same keep the order they had.
    The sort column is the field asked for, clamped into the header. *)
Theorem apply_sort_text (rows : list (list str)) (key : SortKey)
    (headers_len : nat) :
  lower (str_or (type key) (lit "string")) <> lit "numeric" ->
  let column := sort_index key headers_len in
  let k r := if ignore_case key then casefold (get_val column r)
             else get_val column r in
  let desc := str_eqb (lower (str_or (direction key) (lit "asc"))) (lit "desc") in
  let out := _apply_sort rows key headers_len in
  ((0 < headers_len -> column < headers_len)
   /\ ((1 <= field_1based key <= Z.of_nat headers_len)%Z ->
       Z.of_nat column = (field_1based key - 1)%Z)
   /\ ((field_1based key < 1)%Z -> column = 0)
   /\ ((Z.of_nat headers_len < field_1based key)%Z -> column = headers_len - 1))
  /\ out ≡ₚ rows
  /\ (forall i j a b, i < j -> out !! i = Some a -> out !! j = Some b ->
        if desc then str_ltb (k a) (k b) = false
        else str_ltb (k b) (k a) = false)
  /\ (forall v, filter (fun r => k r = v) out = filter (fun r => k r = v) rows).
Proof.
  intros Htyp column k desc out.
  assert (out = sorted str_ltb k desc rows) as ->
    by (by apply apply_sort_text_eq).
  split_and!; try apply sort_index_clamped.
  - apply sorted_perm.
  - intros i j a b Hij Ha Hb.
    apply (sorted_order str_ltb k (fun _ => True)
             (fun a b _ _ => str_ltb_asym a b)
             (fun a b c _ _ _ => str_le_trans a b c) desc rows i j a b);
      [by apply Forall_forall|done..].
  - intros v. apply (sorted_filter str_ltb k str_ltb_irrefl).
    congruence.
Qed.

Lemma apply_sort_text_witness :
  _apply_sort [[lit "b"; lit "1"]; [lit "A"; lit "2"]; [lit "a"; lit "3"]]
    (mkSortKey 1 (lit "string") (lit "DESC") true) 2
  ≡ₚ [[lit "b"; lit "1"]; [lit "A"; lit "2"]; [lit "a"; lit "3"]].
Proof.
  destruct (apply_sort_text
              [[lit "b"; lit "1"]; [lit "A"; lit "2"]; [lit "a"; lit "3"]]
              (mkSortKey 1 (lit "string") (lit "DESC") true) 2)
    as (_ & H & _); [by vm_compute | exact H].
Defined.

(** X11.  Sorting by number, without NaN among the keys: the keys stand in
    ascending order, or in descending order when the direction is [desc], and
    in either direction rows with the same text in the sort column keep the
    order they had. *)
Theorem apply_sort_numeric (rows : list (list str)) (key : SortKey)
    (headers_len : nat) :
  let cell := get_val (sort_index key headers_len) in
  let desc := str_eqb (lower (str_or (direction key) (lit "asc"))) (lit "desc") in
  let out := _apply_sort rows key headers_len in
  lower (str_or (type key) (lit "string")) = lit "numeric" ->
  (forall r, r ∈ rows -> to_num (cell r) <> NaN) ->
  (forall i j a b, i < j -> out !! i = Some a -> out !! j = Some b ->
     if desc then float_ltb (to_num (cell a)) (to_num (cell b)) = false
     else float_ltb (to_num (cell b)) (to_num (cell a)) = false)
  /\ (forall v, filter (fun r => cell r = v) out
                = filter (fun r => cell r = v) rows).
Proof.
  intros cell desc out Htyp Hnan.
  assert (out = sorted float_ltb (fun r => to_num (cell r)) desc rows) as ->.
  { subst out. unfold _apply_sort. by rewrite Htyp. }
  split.
  - intros i j a b Hij Ha Hb.
    apply (sorted_order float_ltb (fun r => to_num (cell r)) not_nan
             float_ltb_asym float_le_trans desc rows i j a b);
      [by apply Forall_forall|done..].
  - intros v.
    apply (sorted_filter float_ltb (fun r => to_num (cell r)) float_ltb_irrefl).
    congruence.
Qed.

Lemma apply_sort_numeric_witness :
  _apply_sort [[lit "a"; lit "2"]; [lit "b"; lit "10"]; [lit "c"; lit "2"]]
    (mkSortKey 2 (lit "numeric") (lit "desc") true) 2
  = [[lit "b"; lit "10"]; [lit "a"; lit "2"]; [lit "c"; lit "2"]]
  /\ filter (fun r => get_val 1 r = lit "2")
       (_apply_sort [[lit "a"; lit "2"]; [lit "b"; lit "10"]; [lit "c"; lit "2"]]
          (mkSortKey 2 (lit "numeric") (lit "desc") true) 2)
     = [[lit "a"; lit "2"]; [lit "c"; lit "2"]].
Proof.
  split; [by vm_compute|].
  destruct (apply_sort_numeric
              [[lit "a"; lit "2"]; [lit "b"; lit "10"]; [lit "c"; lit "2"]]
              (mkSortKey 2 (lit "numeric") (lit "desc") true) 2) as [_ H].
  - by vm_compute.
  - intros r Hr.
    repeat (apply elem_of_cons in Hr as [->|Hr]; [by vm_compute|]).
    by apply elem_of_nil in Hr.
  - apply H.
Defined.

(** ** The parser: tiers, failures, shared state *)

(** The parser is the three tiers on the normalised text, under the dialect
    it has put together, followed by skip, limit and header derivation. *)
Lemma parse_csv_tiers (sniff : str -> option Dialect) (csv_text : str)
    (opts : CsvParseOptions) (excel : Dialect) :
  exists dialect excel',
    _parse_csv sniff csv_text opts excel
    = (header_and_rows (has_header opts) ∘ skip_and_limit opts
         <$> three_tiers dialect (effective_quotechar opts)
               (effective_quoting opts) (normalize_line_ends csv_text),
       excel')
    /\ dialect_skipinitialspace excel' = dialect_skipinitialspace excel
    /\ (effective_delimiter opts <> lit "auto" ->
        dialect
        = mkDialect (effective_delimiter opts) (effective_quotechar opts)
            (effective_quoting opts) true (dialect_skipinitialspace excel))
    /\ (effective_delimiter opts = lit "auto" ->
        forall d, sniff (take 4096 csv_text) = Some d ->
        dialect
        = mkDialect (dialect_delimiter d) (effective_quotechar opts)
            (effective_quoting opts) true (dialect_skipinitialspace d))
    /\ (effective_delimiter opts = lit "auto" ->
        sniff (take 4096 csv_text) = None ->
        dialect
        = mkDialect (dialect_delimiter excel) (effective_quotechar opts)
            (effective_quoting opts) true (dialect_skipinitialspace excel)).
Proof.
  unfold _parse_csv, three_tiers, effective_delimiter, effective_quotechar,
    effective_quoting, normalize_line_ends.
  set (d0 := str_or (delimiter opts) (lit "auto")).
  set (d1 := if str_eqb d0 (lit "tab") then [9%N] else d0).
  set (d := if str_eqb d1 (lit "pipe") then lit "|" else d1).
  destruct (str_eqb d (lit "auto")) eqn:Hd; cbn [negb].
  - apply bool_decide_eq_true in Hd.
    destruct (sniff (take 4096 csv_text)) as [sn|] eqn:Hs;
      eexists _, _; (split; [reflexivity|]); split_and!; try done.
    intros _ ? [= <-]. done.
  - apply bool_decide_eq_false in Hd.
    eexists _, _; (split; [reflexivity|]); split_and!; try done.
Qed.

Lemma effective_quotechar_one (opts : CsvParseOptions) :
  exists qc, effective_quotechar opts = [qc].
Proof.
  unfold effective_quotechar, str_or.
  destruct (quotechar opts) as [|c t]; cbn; by eexists.
Qed.

Lemma parse_process_char_raises (d : ReaderDialect) (r : Reader) (e : event)
    (x : exn) :
  parse_process_char d r e = Raise x -> x = csv_Error.
Proof.
  unfold parse_process_char, parse_add_char.
  repeat case_match; congruence.
Qed.

Lemma feed_line_raises (d : ReaderDialect) (line : str) (r : Reader) (x : exn) :
  feed_line d r line = Raise x -> x = csv_Error.
Proof.
  revert r. induction line as [|c t IH]; intros r; cbn [feed_line].
  - apply parse_process_char_raises.
  - destruct (parse_process_char d r (Char c)) as [r'|x'] eqn:E; cbn.
    + apply IH.
    + intros [= <-]. by eapply parse_process_char_raises.
Qed.

Lemma read_records_raises (d : ReaderDialect) (lines : list str) (r : Reader)
    (x : exn) :
  read_records d r lines = Raise x -> x = csv_Error.
Proof.
  revert r. induction lines as [|line rest IH]; intros r; cbn [read_records].
  - by case_match.
  - destruct (feed_line d r line) as [r'|x'] eqn:E; cbn.
    + destruct (state r'); try apply IH.
      intros H%fmap_raise. by eapply IH.
    + intros [= <-]. by eapply feed_line_raises.
Qed.

Lemma csv_reader_raises (lines : list str) (d : Dialect) (q : str) (k : Quoting)
    (x : exn) :
  csv_reader lines d q k = Raise x ->
  (x = TypeError /\ reader_dialect d q k = Raise TypeError)
  \/ (x = csv_Error /\ exists rd, reader_dialect d q k = Return rd).
Proof.
  unfold csv_reader.
  destruct (reader_dialect d q k) as [rd|x'] eqn:E; cbn.
  - intros H%read_records_raises. right. by eauto.
  - intros [= <-]. left. unfold reader_dialect in E.
    repeat case_match; by simplify_eq.
Qed.

Lemma three_tiers_raises (d : Dialect) (q : str) (k : Quoting) (text : str)
    (x : exn) :
  three_tiers d q k text = Raise x -> x = TypeError.
Proof.
  unfold three_tiers.
  destruct (csv_reader (stringio_lines [] text) d q k) as [rows|x1] eqn:E1;
    [done|].
  apply csv_reader_raises in E1 as [[-> _]|[-> _]]; [congruence|].
  destruct (csv_reader (splitlines text) d q k) as [rows|x2] eqn:E2; [done|].
  apply csv_reader_raises in E2 as [[-> _]|[-> _]]; congruence.
Qed.

Lemma three_tiers_returns (d : Dialect) (q : str) (k : Quoting) (text : str)
    (c qc : char) :
  dialect_delimiter d = [c] -> q = [qc] ->
  exists rows, three_tiers d q k text = Return rows.
Proof.
  intros Hd ->.
  assert (forall lines x, csv_reader lines d [qc] k = Raise x -> x = csv_Error)
    as Hr.
  { intros lines x [[_ H]|[-> _]]%csv_reader_raises; [|done].
    unfold reader_dialect in H. by rewrite Hd in H. }
  unfold three_tiers.
  destruct (csv_reader (stringio_lines [] text) d [qc] k) as [rows|x1] eqn:E1;
    [by eauto|].
  rewrite (Hr _ _ E1).
  destruct (csv_reader (splitlines text) d [qc] k) as [rows|x2] eqn:E2;
    [by eauto|].
  rewrite (Hr _ _ E2). by eauto.
Qed.

Lemma parse_csv_raises (sniff : str -> option Dialect) (csv_text : str)
    (opts : CsvParseOptions) (excel : Dialect) (x : exn) :
  (_parse_csv sniff csv_text opts excel).1 = Raise x -> x = TypeError.
Proof.
  destruct (parse_csv_tiers sniff csv_text opts excel)
    as (d & excel' & -> & _). cbn [fst].
  intros H%fmap_raise. by eapply three_tiers_raises.
Qed.

Lemma py_int_raises (s : str) (x : exn) : py_int s = Raise x -> x = ValueError.
Proof. unfold py_int. repeat case_match; congruence. Qed.

Lemma collect_positions_raises (parts : list str) (x : exn) :
  collect_positions parts = Raise x -> x = ValueError.
Proof.
  induction parts as [|p rest IH]; [done|]. cbn [collect_positions].
  destruct (negb (isdigit p)); [done|].
  destruct (py_int p) as [n|x'] eqn:E; cbn.
  - intros H%fmap_raise. by apply IH.
  - intros [= <-]. by eapply py_int_raises.
Qed.

Lemma parse_positions_raises (positions : option str) (x : exn) :
  _parse_positions positions = Raise x -> x = ValueError.
Proof.
  unfold _parse_positions. destruct positions as [[|c t]|]; [done| |done].
  destruct (collect_positions _) as [out|x'] eqn:E; cbn; [done|].
  intros [= <-]. by eapply collect_positions_raises.
Qed.

Lemma records_from_raises (headers fields : list str) (rows : list (list str))
    (i : nat) (x : exn) :
  records_from headers fields i rows = Raise x -> x = IndexError.
Proof.
  revert i. induction rows as [|row rest IH]; intros i; [done|].
  cbn [records_from].
  destruct (record_lines headers fields i row) as [ls|x'] eqn:E; cbn.
  - intros H%fmap_raise. by eapply IH.
  - intros [= <-]. unfold record_lines in E. cbn zeta in E.
    case_match; by simplify_eq.
Qed.

(** X12.  The failures of the conversions.  The parser can fail with
    [TypeError] only (a delimiter that is not one character); the table
    conversion besides with [ValueError] (from the positions), the outline
    conversion besides with [IndexError].  None of them raises [csv.Error]. *)
Theorem conversions_raise (sniff : str -> option Dialect) (csv_text : str)
    (excel : Dialect) (x : exn) :
  (forall opts,
     (_parse_csv sniff csv_text opts excel).1 = Raise x -> x = TypeError)
  /\ (forall preamble parse positions add_line_numbers sort eol table_style,
        (csv_text_to_markdown_table sniff csv_text preamble parse positions
           add_line_numbers sort eol table_style excel).1 = Raise x ->
        x = TypeError \/ x = ValueError)
  /\ (forall preamble detail max_rows parse positions sort,
        (csv_text_to_markdown_notebooklm sniff csv_text preamble detail
           max_rows parse positions sort excel).1 = Raise x ->
        x = TypeError \/ x = ValueError \/ x = IndexError).
Proof.
  split_and!.
  - intros opts. apply parse_csv_raises.
  - intros preamble parse positions add sort eol style.
    unfold csv_text_to_markdown_table, mbind, M_bind.
    pose proof (parse_csv_raises sniff csv_text (default default_options parse)
                  excel) as Hp.
    destruct (_parse_csv sniff csv_text (default default_options parse) excel)
      as [[[headers rows]|x1] excel'].
    + unfold lift.
      destruct (_parse_positions positions) as [ps|x2] eqn:E2.
      * by destruct (_apply_positions headers rows ps).
      * cbn. intros [= <-]. right. by eapply parse_positions_raises.
    + cbn. intros [= <-]. left. by apply Hp.
  - intros preamble detail max_rows parse positions sort.
    unfold csv_text_to_markdown_notebooklm, mbind, M_bind.
    pose proof (parse_csv_raises sniff csv_text (default default_options parse)
                  excel) as Hp.
    destruct (_parse_csv sniff csv_text (default default_options parse) excel)
      as [[[headers rows]|x1] excel'].
    + unfold lift.
      destruct (_parse_positions positions) as [ps|x2] eqn:E2.
      * destruct (_apply_positions headers rows ps) as [hs rs].
        destruct (outline_lines hs _ detail max_rows) as [out|x3] eqn:E3;
          [done|].
        cbn. intros [= <-]. right. right.
        unfold outline_lines in E3. apply fmap_raise in E3.
        by eapply records_from_raises.
      * cbn. intros [= <-]. right. left. by eapply parse_positions_raises.
    + cbn. intros [= <-]. left. by apply Hp.
Qed.

(** X13.  With a delimiter of one character (or [tab], or [pipe]) and
    positions that can be read, the table conversion returns a text for every
    input text, whatever the other options and the shared dialect. *)
Theorem table_conversion_returns (sniff : str -> option Dialect)
    (csv_text preamble : str) (parse : option CsvParseOptions)
    (positions : option str) (add_line_numbers : bool) (sort : option SortKey)
    (eol table_style : str) (excel : Dialect) (c : char)
    (ps : option (list Z)) :
  effective_delimiter (default default_options parse) = [c] ->
  _parse_positions positions = Return ps ->
  exists out excel',
    csv_text_to_markdown_table sniff csv_text preamble parse positions
      add_line_numbers sort eol table_style excel
    = (Return out, excel').
Proof.
  intros Hd Hps.
  unfold csv_text_to_markdown_table, mbind, M_bind.
  destruct (parse_csv_tiers sniff csv_text (default default_options parse) excel)
    as (d & excel' & -> & _ & Hexp & _).
  rewrite Hexp by (rewrite Hd; discriminate).
  destruct (effective_quotechar_one (default default_options parse)) as [qc Hq].
  destruct (three_tiers_returns
              (mkDialect (effective_delimiter (default default_options parse))
                 (effective_quotechar (default default_options parse))
                 (effective_quoting (default default_options parse)) true
                 (dialect_skipinitialspace excel))
              (effective_quotechar (default default_options parse))
              (effective_quoting (default default_options parse))
              (normalize_line_ends csv_text) c qc Hd Hq) as [rows ->].
  cbn [fmap result_fmap].
  destruct ((header_and_rows _ ∘ skip_and_limit _) rows) as [hs rs].
  unfold lift. rewrite Hps.
  destruct (_apply_positions hs rs ps). by eexists _, _.
Qed.

Lemma table_conversion_returns_witness :
  exists out excel',
    csv_text_to_markdown_table (fun _ => None)
      (lit "a;" ++ [0x22; 0x62; 13]%N) (lit "Note")
      (Some (mkCsvParseOptions (lit ";") true 0 None (lit "standard") []))
      (Some (lit "2,x")) true None (lit "crlf") (lit "jira") csv_excel
    = (Return out, excel').
Proof.
  eapply (table_conversion_returns _ _ _ _ _ _ _ _ _ _ 0x3B%N (Some [2%Z]));
    by vm_compute.
Defined.

(** X14.  The shared dialect matters only when the delimiter is left to the
    sniffer and the sniffer fails.  With an explicit delimiter, or a sniffer
    that settles on a dialect, the result is the same from any two states of
    [csv.excel] that agree on [skipinitialspace]; and no call changes that
    attribute. *)
Theorem parse_csv_state_independent (sniff : str -> option Dialect)
    (csv_text : str) (opts : CsvParseOptions) (excel1 excel2 : Dialect) :
  (dialect_skipinitialspace (_parse_csv sniff csv_text opts excel1).2
   = dialect_skipinitialspace excel1)
  /\ (dialect_skipinitialspace excel1 = dialect_skipinitialspace excel2 ->
      effective_delimiter opts <> lit "auto"
      \/ (exists d, sniff (take 4096 csv_text) = Some d) ->
      (_parse_csv sniff csv_text opts excel1).1
      = (_parse_csv sniff csv_text opts excel2).1).
Proof.
  destruct (parse_csv_tiers sniff csv_text opts excel1)
    as (d1 & e1 & -> & Hs1 & Hexp1 & Hsn1 & _).
  destruct (parse_csv_tiers sniff csv_text opts excel2)
    as (d2 & e2 & -> & Hs2 & Hexp2 & Hsn2 & _).
  split; [done|]. intros Hs H. cbn [fst].
  destruct (decide (effective_delimiter opts = lit "auto")) as [Ha|Hna].
  - destruct H as [H|[d Hd]]; [done|].
    by rewrite (Hsn1 Ha d Hd), (Hsn2 Ha d Hd).
  - by rewrite (Hexp1 Hna), (Hexp2 Hna), Hs.
Qed.

Lemma length_skip_and_limit (opts : CsvParseOptions) (reader : list (list str))
    (l : Z) :
  limit_lines opts = Some l ->
  length (skip_and_limit opts reader) <= Z.to_nat l.
Proof.
  intros Hl. unfold skip_and_limit. rewrite Hl, length_take. lia.
Qed.

(** X15.  The limit counts the header line: of a text parsed with a limit of
    [l] lines at most [l - 1] data rows come out when the first line is the
    header, at most [l] otherwise; a limit of zero or less leaves nothing,
    not even the header. *)
Theorem parse_csv_limit (sniff : str -> option Dialect) (csv_text : str)
    (opts : CsvParseOptions) (excel : Dialect) (headers : list str)
    (rows : list (list str)) (l : Z) :
  (_parse_csv sniff csv_text opts excel).1 = Return (headers, rows) ->
  limit_lines opts = Some l ->
  (Z.of_nat (length rows) <= Z.max 0 (l - (if has_header opts then 1 else 0)))%Z
  /\ ((l <= 0)%Z -> headers = [] /\ rows = []).
Proof.
  intros Hp Hl.
  destruct (parse_csv_shape sniff csv_text opts excel) as (parsed & e & Heq).
  rewrite Heq in Hp. cbn [fst] in Hp.
  apply fmap_return in Hp as (reader & _ & Hr). cbn in Hr.
  pose proof (length_skip_and_limit opts reader l Hl) as Hlen.
  destruct (skip_and_limit opts reader) as [|first rest];
    cbn in Hr, Hlen.
  { injection Hr as -> ->. cbn. split; [lia|done]. }
  split; [|lia].
  destruct (has_header opts); injection Hr as -> ->; cbn [length]; lia.
Qed.

Lemma parse_csv_limit_witness :
  (Z.of_nat (length [[lit "1"]]) <= Z.max 0 (2 - 1))%Z
  /\ ((2 <= 0)%Z -> [lit "a"] = [] /\ [[lit "1"]] = []).
Proof.
  apply (parse_csv_limit (fun _ => None)
           (lit "a" ++ [10%N] ++ lit "1" ++ [10%N] ++ lit "2" ++ [10%N])
           (mkCsvParseOptions (lit ",") true 0 (Some 2%Z) (lit "standard") [])
           csv_excel [lit "a"] [[lit "1"]] 2%Z);
    by vm_compute.
Defined.

(** ** The outline of a table without columns *)

(** X16.  The outline conversion fails with [IndexError] whenever the parse
    has no column but a row to show, as for a text whose first line is empty
    (the table conversion renders such a parse). *)
Theorem outline_without_header_raises (sniff : str -> option Dialect)
    (csv_text preamble detail : str) (parse : option CsvParseOptions)
    (positions : option str) (sort : option SortKey) (excel excel' : Dialect)
    (row : list str) (rows : list (list str)) (ps : option (list Z)) :
  _parse_csv sniff csv_text (default default_options parse) excel
  = (Return ([], row :: rows), excel') ->
  _parse_positions positions = Return ps ->
  csv_text_to_markdown_notebooklm sniff csv_text preamble detail None parse
    positions sort excel
  = (Raise IndexError, excel').
Proof.
  intros Hp Hps.
  unfold csv_text_to_markdown_notebooklm, mbind, M_bind.
  rewrite Hp. unfold lift. rewrite Hps.
  rewrite apply_positions_no_headers. by destruct sort.
Qed.

Lemma outline_without_header_raises_witness :
  csv_text_to_markdown_notebooklm (fun _ => None)
    ([10%N] ++ lit "A,B" ++ [10%N] ++ lit "1,2" ++ [10%N]) [] (lit "full") None
    (Some (mkCsvParseOptions (lit ",") true 0 None (lit "standard") []))
    None None csv_excel
  = (Raise IndexError, csv_excel).
Proof.
  eapply (outline_without_header_raises _ _ _ _ _ _ _ _ _
            [lit "A"; lit "B"] [[lit "1"; lit "2"]] None);
    by vm_compute.
Defined.

(** ** The parser on plain CSV text *)

Lemma replace_from_absent (c : char) (old new s : str) :
  c ∉ s -> replace_from (c :: old) new 0 s = s.
Proof.
  induction s as [|x s IH]; [done|].
  intros [Hx Hs]%not_elem_of_cons. cbn [replace_from].
  rewrite startswith_other by done. by rewrite IH.
Qed.

Lemma normalize_line_ends_id (s : str) : 13%N ∉ s -> normalize_line_ends s = s.
Proof.
  intros H. unfold normalize_line_ends.
  match goal with
  | |- replace _ _ ?x = _ =>
      assert (x = s) as -> by (by apply (replace_from_absent 13%N [10%N]))
  end.
  by apply (replace_from_absent 13%N []).
Qed.

Lemma stringio_lines_line (cur l rest : str) :
  Forall (fun c => c <> 10%N /\ c <> 13%N) l ->
  stringio_lines cur (l ++ 10%N :: rest)
  = (cur ++ l ++ [10%N]) :: stringio_lines [] rest.
Proof.
  intros Hl. revert cur. induction Hl as [|c l [H10 H13] _ IH]; intros cur.
  - done.
  - cbn [app stringio_lines].
    apply N.eqb_neq in H10, H13. rewrite H10, H13.
    rewrite IH. by rewrite <- app_assoc.
Qed.

(** A reader whose delimiter [d] is neither the quote character [q] nor a
    line end, and that keeps blanks. *)
Section PlainReader.
Variables (d q : char) (rd : ReaderDialect).
Hypothesis rd_d : rd_delimiter rd = d.
Hypothesis rd_q : rd_quotechar rd = q.
Hypothesis rd_skip : rd_skipinitialspace rd = false.
Hypothesis d_not_q : d <> q.
Hypothesis d_not_lf : d <> 10%N.
Hypothesis d_not_cr : d <> 13%N.

Lemma step_ordinary (st : ParserState) (c : char) (cur : str)
    (fs : list str) :
  ordinary d q c ->
  (st = IN_FIELD \/ ((st = START_FIELD \/ st = START_RECORD) /\ cur = [])) ->
  (N.of_nat (length cur) < field_limit)%N ->
  parse_process_char rd (mkReader st cur fs) (Char c)
  = Return (mkReader IN_FIELD (cur ++ [c]) fs).
Proof.
  intros (Hd & Hq & H10 & H13) Hst Hlen.
  apply N.eqb_neq in Hd, Hq, H10, H13.
  unfold parse_process_char, parse_add_char, is_newline, is_quote, is_char.
  cbn [state field fields]. rewrite rd_d, rd_q, rd_skip.
  rewrite Hd, Hq, H10, H13, andb_false_r. cbn [orb andb].
  replace (field_limit <=? N.of_nat (length cur))%N with false by lia.
  by destruct Hst as [->|[[->| ->] ->]].
Qed.

Lemma step_delimiter (st : ParserState) (cur : str) (fs : list str) :
  st = START_FIELD \/ st = START_RECORD \/ st = IN_FIELD ->
  parse_process_char rd (mkReader st cur fs) (Char d)
  = Return (mkReader START_FIELD [] (fs ++ [cur])).
Proof.
  intros Hst.
  apply N.eqb_neq in d_not_q, d_not_lf, d_not_cr.
  unfold parse_process_char, parse_save_field, is_newline, is_quote, is_char.
  cbn [state field fields]. rewrite rd_d, rd_q, rd_skip.
  rewrite d_not_q, d_not_lf, d_not_cr, andb_false_r, N.eqb_refl. cbn [orb andb].
  by destruct Hst as [->|[->| ->]].
Qed.

(** The characters of a field, read inside the field. *)
Lemma feed_field (f cur : str) (fs : list str) (rest : str) :
  Forall (ordinary d q) f ->
  (N.of_nat (length cur + length f) <= field_limit)%N ->
  feed_line rd (mkReader IN_FIELD cur fs) (f ++ rest)
  = feed_line rd (mkReader IN_FIELD (cur ++ f) fs) rest.
Proof.
  intros Hf. revert cur. induction Hf as [|c f Hc _ IH]; intros cur Hlen.
  - by rewrite app_nil_r.
  - cbn [app feed_line].
    rewrite step_ordinary; [|done|by left|cbn [length] in Hlen; lia].
    cbn [mbind result_bind]. rewrite IH.
    + by rewrite <- app_assoc.
    + rewrite length_app. cbn [length] in *. lia.
Qed.

(** A field that is not empty, read from the start of a field or of a
    record. *)
Lemma feed_start (st : ParserState) (f : str) (fs : list str) (rest : str) :
  st = START_FIELD \/ st = START_RECORD ->
  plain_field d q f -> f <> [] ->
  feed_line rd (mkReader st [] fs) (f ++ rest)
  = feed_line rd (mkReader IN_FIELD f fs) rest.
Proof.
  intros Hst [Hf Hlen] Hne. destruct f as [|c f]; [done|].
  apply Forall_cons in Hf as [Hc Hf].
  cbn [app feed_line].
  rewrite step_ordinary; [|done|by right|by vm_compute].
  cbn [mbind result_bind app].
  rewrite feed_field; [done|done|]. cbn [length] in *. lia.
Qed.

(** The delimiter closes the field. *)
Lemma feed_delimiter (st : ParserState) (cur : str) (fs : list str)
    (rest : str) :
  st = START_FIELD \/ st = START_RECORD \/ st = IN_FIELD ->
  feed_line rd (mkReader st cur fs) (d :: rest)
  = feed_line rd (mkReader START_FIELD [] (fs ++ [cur])) rest.
Proof.
  intros Hst. cbn [feed_line]. by rewrite step_delimiter.
Qed.

(** The line feed closes the record. *)
Lemma feed_line_feed (st : ParserState) (cur : str) (fs : list str) :
  st = START_FIELD \/ st = IN_FIELD ->
  feed_line rd (mkReader st cur fs) [10%N]
  = Return (mkReader START_RECORD [] (fs ++ [cur])).
Proof. by intros [-> | ->]. Qed.

Lemma feed_row (st : ParserState) (row : list str) (fs : list str) :
  Forall (plain_field d q) row -> row <> [] ->
  st = START_FIELD \/ (st = START_RECORD /\ row <> [[]]) ->
  feed_line rd (mkReader st [] fs) (join [d] row ++ [10%N])
  = Return (mkReader START_RECORD [] (fs ++ row)).
Proof.
  intros Hrow. revert st fs.
  induction Hrow as [|f row Hf Hrow IH]; intros st fs Hne Hst; [done|].
  assert (st = START_FIELD \/ st = START_RECORD) as Hst'
    by (destruct Hst as [?|[? _]]; auto).
  destruct row as [|g row].
  - cbn [join]. destruct f as [|c f].
    + destruct Hst as [->|[_ ?]]; [|done]. apply feed_line_feed. by left.
    + rewrite feed_start by done. apply feed_line_feed. by right.
  - change (join [d] (f :: g :: row))
      with (f ++ d :: join [d] (g :: row)).
    rewrite <- app_assoc. cbn [app].
    replace (fs ++ f :: g :: row) with ((fs ++ [f]) ++ g :: row)
      by (by rewrite <- app_assoc).
    destruct f as [|c f].
    + cbn [app]. rewrite feed_delimiter by tauto.
      apply IH; [done|by left].
    + rewrite feed_start by done.
      rewrite feed_delimiter by tauto.
      apply IH; [done|by left].
Qed.

Lemma read_plain_rows (rows : list (list str)) :
  Forall (plain_row d q) rows ->
  read_records rd fresh_reader
    (map (fun row => join [d] row ++ [10%N]) rows)
  = Return rows.
Proof.
  induction 1 as [|row rows (Hrow & Hne & Hne') _ IH]; [done|].
  cbn [map read_records]. unfold fresh_reader in *.
  rewrite feed_row by (try done; by right).
  cbn [mbind result_bind state fields app]. by rewrite IH.
Qed.
End PlainReader.

Lemma join_Forall (P : char -> Prop) (sep : str) (parts : list str) :
  Forall P sep -> Forall (Forall P) parts -> Forall P (join sep parts).
Proof.
  intros Hsep. induction 1 as [|p ps Hp Hps IH]; [done|].
  destruct ps as [|p' ps]; [done|].
  change (join sep (p :: p' :: ps)) with (p ++ sep ++ join sep (p' :: ps)).
  rewrite !Forall_app. auto.
Qed.

Lemma plain_row_line (d q : char) (row : list str) :
  d <> 10%N -> d <> 13%N -> plain_row d q row ->
  Forall (fun c => c <> 10%N /\ c <> 13%N) (join [d] row).
Proof.
  intros H10 H13 (Hrow & _). apply join_Forall; [by repeat constructor|].
  eapply Forall_impl; [exact Hrow|]. intros f [Hf _].
  eapply Forall_impl; [exact Hf|]. by intros c (_ & _ & ? & ?).
Qed.

Lemma stringio_lines_csv_of (d q : char) (rows : list (list str)) :
  d <> 10%N -> d <> 13%N -> Forall (plain_row d q) rows ->
  stringio_lines [] (csv_of d rows)
  = map (fun row => join [d] row ++ [10%N]) rows.
Proof.
  intros H10 H13. unfold csv_of.
  induction 1 as [|row rows Hrow _ IH]; [done|].
  cbn [map concat]. rewrite <- app_assoc. cbn [app].
  rewrite stringio_lines_line by (by eapply plain_row_line).
  by rewrite IH.
Qed.

Lemma csv_of_no_cr (d q : char) (rows : list (list str)) :
  d <> 10%N -> d <> 13%N -> Forall (plain_row d q) rows ->
  13%N ∉ csv_of d rows.
Proof.
  intros H10 H13. unfold csv_of.
  induction 1 as [|row rows Hrow _ IH]; [by intros ?%elem_of_nil|].
  cbn [map concat]. rewrite !elem_of_app. intros [[Hin|Hin]|Hin]; [| |done].
  - pose proof (plain_row_line d q row H10 H13 Hrow) as Hl.
    rewrite Forall_forall in Hl. by destruct (Hl _ Hin).
  - by apply list_elem_of_singleton in Hin.
Qed.

Lemma three_tiers_plain (d q : char) (k : Quoting) (rows : list (list str)) :
  d <> q -> d <> 10%N -> d <> 13%N -> Forall (plain_row d q) rows ->
  three_tiers (mkDialect [d] [q] k true false) [q] k
    (normalize_line_ends (csv_of d rows))
  = Return rows.
Proof.
  intros Hq H10 H13 Hrows. unfold three_tiers.
  rewrite normalize_line_ends_id by (by eapply csv_of_no_cr).
  rewrite (stringio_lines_csv_of d q) by done.
  unfold csv_reader, reader_dialect. cbn [dialect_delimiter mbind result_bind
    dialect_doublequote dialect_skipinitialspace].
  by rewrite (read_plain_rows d q (mkReaderDialect d q k true false)).
Qed.

(** X17.  Plain CSV text is parsed into its cells.  With a delimiter of one
    character, rows of fields made of ordinary characters are read back
    exactly from their text, to go through skip, limit and header derivation;
    with a header line, no skip and no limit the table conversion then
    renders the cleaned first row as the header and the others as the rows. *)
Theorem parse_csv_plain (sniff : str -> option Dialect) (opts : CsvParseOptions)
    (excel : Dialect) (d q : char) (rows : list (list str)) :
  effective_delimiter opts = [d] -> effective_quotechar opts = [q] ->
  d <> q -> d <> 10%N -> d <> 13%N ->
  dialect_skipinitialspace excel = false ->
  Forall (plain_row d q) rows ->
  (_parse_csv sniff (csv_of d rows) opts excel).1
  = Return (header_and_rows (has_header opts) (skip_and_limit opts rows))
  /\ (has_header opts = true -> skip_lines opts = 0%Z ->
      limit_lines opts = None ->
      forall first rest preamble eol table_style,
        rows = first :: rest ->
        (csv_text_to_markdown_table sniff (csv_of d rows) preamble (Some opts)
           None false None eol table_style excel).1
        = Return (_normalize_preamble preamble
                  ++ render_table (map _clean_header first) rest false eol
                       table_style)).
Proof.
  intros Hd Hq Hdq H10 H13 Hskip Hrows.
  destruct (parse_csv_tiers sniff (csv_of d rows) opts excel)
    as (dialect & excel' & Heq & _ & Hexp & _).
  rewrite Hexp in Heq by (rewrite Hd; discriminate).
  rewrite Hd, Hq, Hskip in Heq.
  rewrite three_tiers_plain in Heq by done.
  split; [by rewrite Heq|].
  intros Hh Hs Hl first rest preamble eol style ->.
  unfold csv_text_to_markdown_table, mbind, M_bind.
  change (default default_options (Some opts)) with opts.
  rewrite Heq. cbn [fmap result_fmap compose].
  unfold skip_and_limit. rewrite Hs, Hl, Hh.
  change (Z.max 0 0 =? 0)%Z with true. by cbn.
Qed.

Lemma parse_csv_plain_witness :
  (_parse_csv (fun _ => None)
     (lit " Name ;Count" ++ [10%N] ++ lit "a|b;" ++ [10%N])
     (mkCsvParseOptions (lit ";") true 0 None (lit "standard") []) csv_excel).1
  = Return ([lit "Name"; lit "Count"], [[lit "a|b"; []]]).
Proof.
  destruct (parse_csv_plain (fun _ => None)
              (mkCsvParseOptions (lit ";") true 0 None (lit "standard") [])
              csv_excel 0x3B%N 0x22%N
              [[lit " Name "; lit "Count"]; [lit "a|b"; []]]) as [H _];
    try done.
  repeat constructor; try done; by vm_compute.
Defined.

(** ** The table renderer: one line per row *)

Lemma join_snoc_empty (sep : str) (parts : list str) :
  parts <> [] -> join sep (parts ++ [[]]) = join sep parts ++ sep.
Proof.
  induction parts as [|p ps IH]; [done|]. intros _.
  destruct ps as [|p' ps]; [cbn; by rewrite app_nil_r|].
  change (join sep ((p :: p' :: ps) ++ [[]]))
    with (p ++ sep ++ join sep ((p' :: ps) ++ [[]])).
  rewrite IH by done.
  change (join sep (p :: p' :: ps)) with (p ++ sep ++ join sep (p' :: ps)).
  by rewrite <- !app_assoc.
Qed.

(** A text made of lines, each followed by the line end, splits back into the
    lines and one empty piece. *)
Lemma split_lines (c : char) (sep : str) (lines : list str) :
  lines <> [] -> Forall (fun line => c ∉ line) lines ->
  split (c :: sep) (join (c :: sep) lines ++ c :: sep) = lines ++ [[]].
Proof.
  intros Hne Hall. rewrite <- join_snoc_empty by done.
  apply split_join; [by destruct lines|].
  apply Forall_app. split; [done|]. repeat constructor. by intros ?%elem_of_nil.
Qed.

Lemma escape_md_cell_no_line_end (value : str) :
  Forall (fun c => c <> 10%N /\ c <> 13%N) (_escape_md_cell value).
Proof.
  destruct (escape_md_cell_alphabet value) as (_ & H10 & H13).
  apply Forall_forall. intros c Hc. split; by intros ->.
Qed.

Lemma row_line_no_line_end (open_ sep close : str) (cells : list str) :
  Forall (fun c => c <> 10%N /\ c <> 13%N) (open_ ++ sep ++ close) ->
  Forall (fun c => c <> 10%N /\ c <> 13%N)
    (open_ ++ join sep (map _escape_md_cell cells) ++ close).
Proof.
  rewrite !Forall_app. intros (Ho & Hs & Hc). split_and!; [done| |done].
  apply join_Forall; [done|].
  apply Forall_forall. intros cell (v & -> & _)%list_elem_of_fmap.
  apply escape_md_cell_no_line_end.
Qed.

Lemma table_lines_no_line_end (headers : list str) (rows : list (list str))
    (add_line_numbers : bool) (table_style : str) :
  Forall (Forall (fun c => c <> 10%N /\ c <> 13%N))
    (table_lines headers rows add_line_numbers table_style).
Proof.
  unfold table_lines.
  set (hs := if add_line_numbers then _ else _).
  set (rs := if add_line_numbers then _ else _).
  apply Forall_app. split.
  - destruct (str_eqb table_style (lit "jira")).
    + constructor; [|done].
      apply row_line_no_line_end. by vm_compute; repeat constructor.
    + constructor; [|constructor; [|done]].
      * apply row_line_no_line_end. by vm_compute; repeat constructor.
      * rewrite !Forall_app. split_and!; [by repeat constructor| |by repeat constructor].
        apply join_Forall; [by repeat constructor|].
        apply Forall_forall. intros p (v & -> & _)%list_elem_of_fmap.
        by repeat constructor.
  - apply Forall_forall. intros line (row & -> & _)%list_elem_of_fmap.
    apply row_line_no_line_end. by vm_compute; repeat constructor.
Qed.

(** X18.  A table is rendered as one header line (in Markdown followed by
    the rule line) and exactly one line for each row, whatever the cells
    hold: no line holds a line feed or a carriage return, and the text split
    at its line end gives these lines back. *)
Theorem render_table_lines (headers : list str) (rows : list (list str))
    (add_line_numbers : bool) (eol table_style : str) :
  let lines := table_lines headers rows add_line_numbers table_style in
  let line_ending := if str_eqb (lower (str_or eol (lit "lf"))) (lit "crlf")
                     then [13; 10]%N else [10%N] in
  length lines
  = length rows + (if str_eqb table_style (lit "jira") then 1 else 2)
  /\ Forall (fun line => (10%N ∉ line) /\ (13%N ∉ line)) lines
  /\ split line_ending
       (render_table headers rows add_line_numbers eol table_style)
     = lines ++ [[]].
Proof.
  intros lines le.
  pose proof (table_lines_no_line_end headers rows add_line_numbers table_style)
    as Hno. fold lines in Hno.
  assert (Forall (fun line => (10%N ∉ line) /\ (13%N ∉ line)) lines) as Hno'.
  { eapply Forall_impl; [exact Hno|]. intros line Hl.
    rewrite Forall_forall in Hl.
    split; intros Hin; by destruct (Hl _ Hin). }
  split_and!; [|done|].
  - subst lines. unfold table_lines. rewrite length_app, length_map.
    destruct add_line_numbers; rewrite ?length_imap;
      destruct (str_eqb table_style (lit "jira")); cbn [length]; lia.
  - unfold render_table. fold lines le.
    assert (lines <> []) as Hne.
    { subst lines. unfold table_lines.
      by destruct (str_eqb table_style (lit "jira")). }
    subst le. destruct (str_eqb (lower _) _).
    + apply split_lines; [done|].
      eapply Forall_impl; [exact Hno'|]. by intros line [_ ?].
    + apply split_lines; [done|].
      eapply Forall_impl; [exact Hno'|]. by intros line [? _].
Qed.

(** ** The outline renderer: the fields chosen *)

(** X19.  The fields the bullets are drawn from are columns of the table in
    every mode, and a table with a column always has a field chosen. *)
Theorem choose_fields_headers (detail : str) (headers : list str) :
  Forall (fun h => h ∈ headers) (choose_fields detail headers)
  /\ (headers <> [] -> choose_fields detail headers <> []).
Proof.
  unfold choose_fields. destruct (is_full detail).
  { split; [by apply Forall_forall|done]. }
  set (fields := omap _ NOTEBOOKLM_MIN_FIELDS).
  destruct (negb (bool_decide (fields <> [])) || _) eqn:E.
  - split.
    + apply Forall_forall. intros h Hh. by eapply subseteq_take.
    + by destruct headers.
  - apply orb_false_iff in E as [E _]. apply negb_false_iff in E.
    apply bool_decide_eq_true in E. split; [|done].
    apply Forall_forall. intros h Hh. subst fields.
    apply allowlist_fields in Hh as [_ Hh].
    by apply last_with_key_elem.
Qed.

(** ** The parser: when the first tier is enough *)

Section FirstTier.
Variable rd : ReaderDialect.

(** One character, read with room left in the field: the reader goes on,
    unless it was waiting for the end of the line. *)
Lemma step_char (r : Reader) (c : char) :
  (N.of_nat (length (field r)) < field_limit)%N ->
  (state r = EAT_CRNL -> is_newline (Char c) = true) ->
  exists r',
    parse_process_char rd r (Char c) = Return r'
    /\ length (field r') <= S (length (field r))
    /\ (state r <> EAT_CRNL -> is_newline (Char c) = false ->
        state r' <> EAT_CRNL).
Proof.
  intros Hlen Heat. destruct r as [st f fs]. cbn [field state] in *.
  unfold parse_process_char, parse_add_char, parse_save_field, set_state.
  cbn [field fields state].
  replace (field_limit <=? N.of_nat (length f))%N with false by lia.
  destruct (is_newline (Char c)) eqn:Hnl.
  - destruct st; repeat case_match; eexists; (split; [reflexivity|]);
      cbn [field state]; rewrite ?length_app; cbn [length]; split; (lia || done).
  - destruct st; try (by specialize (Heat eq_refl));
      repeat case_match; eexists; (split; [reflexivity|]);
      cbn [field state]; rewrite ?length_app; cbn [length];
      split; first [lia | done | by case_match].
Qed.

(** The end of a line never fails, and leaves the reader at the start of a
    record or inside a quoted field. *)
Lemma step_eol (r : Reader) :
  exists r',
    parse_process_char rd r EOL = Return r'
    /\ length (field r') <= length (field r)
    /\ state r' <> EAT_CRNL.
Proof.
  destruct r as [st f fs]. unfold parse_process_char, parse_save_field, set_state.
  cbn [field fields state].
  destruct st; eexists; (split; [reflexivity|]); cbn [field state length];
    split; (lia || done).
Qed.

Lemma feed_newlines (nls : str) (r : Reader) :
  Forall (fun c => is_newline (Char c) = true) nls ->
  (N.of_nat (length (field r) + length nls) <= field_limit)%N ->
  exists r',
    feed_line rd r nls = Return r'
    /\ length (field r') <= length (field r) + length nls
    /\ state r' <> EAT_CRNL.
Proof.
  intros Hnl. revert r. induction Hnl as [|c nls Hc _ IH]; intros r Hlen.
  - cbn [feed_line]. destruct (step_eol r) as (r' & -> & H1 & H2).
    exists r'. split_and!; [done|lia|done].
  - cbn [feed_line length] in *.
    destruct (step_char r c) as (r1 & -> & H1 & _); [lia|done|].
    cbn [mbind result_bind].
    destruct (IH r1) as (r' & -> & H2 & H3); [lia|].
    exists r'. split_and!; [done|lia|done].
Qed.

(** A line whose line-end characters all stand at its end. *)
Lemma feed_shaped_line (body nls : str) (r : Reader) :
  state r <> EAT_CRNL ->
  Forall (fun c => is_newline (Char c) = false) body ->
  Forall (fun c => is_newline (Char c) = true) nls ->
  (N.of_nat (length (field r) + length (body ++ nls)) <= field_limit)%N ->
  exists r',
    feed_line rd r (body ++ nls) = Return r'
    /\ length (field r') <= length (field r) + length (body ++ nls)
    /\ state r' <> EAT_CRNL.
Proof.
  intros Hst Hbody Hnls. revert r Hst.
  induction Hbody as [|c body Hc _ IH]; intros r Hst Hlen.
  - by apply feed_newlines.
  - cbn [app feed_line length] in *.
    destruct (step_char r c) as (r1 & -> & H1 & Hst1); [lia|done|].
    cbn [mbind result_bind].
    destruct (IH r1) as (r' & -> & H2 & H3); [by apply Hst1|lia|].
    exists r'. split_and!; [done|lia|done].
Qed.

Lemma read_shaped_lines (lines : list str) (r : Reader) :
  state r <> EAT_CRNL ->
  Forall (fun line => exists body nls,
            line = body ++ nls
            /\ Forall (fun c => is_newline (Char c) = false) body
            /\ Forall (fun c => is_newline (Char c) = true) nls) lines ->
  (N.of_nat (length (field r) + length (concat lines)) <= field_limit)%N ->
  exists rows, read_records rd r lines = Return rows.
Proof.
  intros Hst Hlines. revert r Hst.
  induction Hlines as [|line lines (body & nls & -> & Hb & Hn) _ IH];
    intros r Hst Hlen.
  - cbn [read_records]. case_match; by eexists.
  - cbn [read_records concat] in *. rewrite length_app in Hlen.
    destruct (feed_shaped_line body nls r) as (r' & -> & H1 & H2);
      [done|done|done|lia|].
    cbn [mbind result_bind].
    destruct (IH fresh_reader) as (rows0 & Hfresh); [done|cbn; lia|].
    destruct (IH r') as (rows1 & Hrest); [done|lia|].
    destruct (state r') eqn:E; try (rewrite Hrest; by eexists).
    rewrite Hfresh. by eexists.
Qed.
End FirstTier.

Lemma stringio_lines_cr (cur : str) (c : char) (t : str) :
  c <> 10%N ->
  stringio_lines cur (13%N :: c :: t)
  = (cur ++ [13%N]) :: stringio_lines [] (c :: t).
Proof.
  intros Hc. destruct c as [|p]; [done|].
  do 4 (destruct p as [p|p|]; try done).
Qed.

(** The lines of a text hold all its characters, a line end only at their
    end. *)
Lemma stringio_lines_shape (s cur : str) :
  Forall (fun c => is_newline (Char c) = false) cur ->
  Forall (fun line => exists body nls,
            line = body ++ nls
            /\ Forall (fun c => is_newline (Char c) = false) body
            /\ Forall (fun c => is_newline (Char c) = true) nls)
    (stringio_lines cur s)
  /\ length (concat (stringio_lines cur s)) = length cur + length s.
Proof.
  revert cur. induction s as [|c t IH]; intros cur Hcur.
  - cbn [stringio_lines]. destruct cur as [|x cur'] eqn:E; cbn [truthy].
    + split; [done|done].
    + rewrite <- E in *. split.
      * constructor; [|done]. exists cur, []. by rewrite app_nil_r.
      * cbn. rewrite app_nil_r. lia.
  - destruct (IH [] ltac:(done)) as [IHs IHl].
    destruct (N.eqb_spec c 10%N) as [->|H10].
    { cbn [stringio_lines N.eqb Pos.eqb]. split.
      - constructor; [|done]. exists cur, [10%N]. by repeat constructor.
      - cbn [concat]. rewrite !length_app, IHl. cbn [length]. lia. }
    destruct (N.eqb_spec c 13%N) as [->|H13].
    { destruct t as [|c2 t'].
      - cbn. split.
        + constructor; [|done]. exists cur, [13%N]. by repeat constructor.
        + rewrite app_nil_r, length_app. cbn. lia.
      - destruct (N.eq_dec c2 10%N) as [->|Hc2].
        + cbn [stringio_lines N.eqb Pos.eqb].
          cbn [stringio_lines N.eqb Pos.eqb] in IHs, IHl.
          apply Forall_cons in IHs as [_ IHs].
          cbn [concat app length] in IHl. split.
          * constructor; [|done]. exists cur, [13; 10]%N.
            by repeat constructor.
          * cbn [concat]. rewrite !length_app. cbn [length] in *. lia.
        + rewrite stringio_lines_cr by done. split.
          * constructor; [|done]. exists cur, [13%N]. by repeat constructor.
          * cbn [concat]. rewrite !length_app, IHl. cbn [length]. lia. }
    assert (is_newline (Char c) = false) as Hc.
    { cbn. apply N.eqb_neq in H10, H13. by rewrite H10, H13. }
    cbn [stringio_lines]. apply N.eqb_neq in H10, H13. rewrite H10, H13.
    destruct (IH (cur ++ [c])) as [IHs' IHl'].
    { apply Forall_app. by split; [|repeat constructor]. }
    split; [done|]. rewrite IHl', length_app. cbn [length]. lia.
Qed.

Lemma length_replace_from_crlf (skip : nat) (s : str) :
  length (replace_from [13; 10]%N [10%N] skip s) <= length s.
Proof.
  revert skip. induction s as [|c t IH]; intros skip; [done|].
  cbn [replace_from]. destruct skip as [|skip].
  - destruct (startswith (c :: t) [13; 10]%N).
    + cbn [app length Nat.sub]. specialize (IH 1). lia.
    + cbn [length]. specialize (IH 0). lia.
  - specialize (IH skip). cbn [length]. lia.
Qed.

Lemma length_normalize_line_ends (s : str) :
  length (normalize_line_ends s) <= length s.
Proof.
  unfold normalize_line_ends. rewrite replace_char_char.
  unfold subst_char. rewrite length_map.
  apply length_replace_from_crlf.
Qed.

Lemma first_tier_returns (d : Dialect) (q : str) (k : Quoting) (s : str) :
  (N.of_nat (length s) <= field_limit)%N ->
  csv_reader (stringio_lines [] s) d q k <> Raise csv_Error.
Proof.
  intros Hlen. unfold csv_reader.
  destruct (reader_dialect d q k) as [rd|x] eqn:E; cbn [mbind result_bind].
  - destruct (stringio_lines_shape s [] ltac:(done)) as [Hs Hl].
    destruct (read_shaped_lines rd (stringio_lines [] s) fresh_reader)
      as [rows ->]; [done|done| |done].
    rewrite Hl. cbn. lia.
  - unfold reader_dialect in E. repeat case_match; by simplify_eq.
Qed.

(** X20.  On a text of at most 131072 characters (the reader's field limit)
    the two fallback tiers are never used: the parse is that of the reader
    on the lines of the normalised text, under the dialect put together. *)
Theorem parse_csv_first_tier (sniff : str -> option Dialect) (csv_text : str)
    (opts : CsvParseOptions) (excel : Dialect) :
  (N.of_nat (length csv_text) <= field_limit)%N ->
  exists dialect excel',
    _parse_csv sniff csv_text opts excel
    = (header_and_rows (has_header opts) ∘ skip_and_limit opts
         <$> csv_reader (stringio_lines [] (normalize_line_ends csv_text))
               dialect (effective_quotechar opts) (effective_quoting opts),
       excel')
    /\ (effective_delimiter opts <> lit "auto" ->
        dialect
        = mkDialect (effective_delimiter opts) (effective_quotechar opts)
            (effective_quoting opts) true (dialect_skipinitialspace excel)).
Proof.
  intros Hlen.
  destruct (parse_csv_tiers sniff csv_text opts excel)
    as (dialect & excel' & -> & _ & Hexp & _).
  exists dialect, excel'. split; [|done]. f_equal. f_equal.
  unfold three_tiers.
  pose proof (first_tier_returns dialect (effective_quotechar opts)
                (effective_quoting opts) (normalize_line_ends csv_text)) as H.
  destruct (csv_reader _ dialect _ _) as [rows|[]]; try done.
  exfalso. apply H; [|done].
  pose proof (length_normalize_line_ends csv_text). lia.
Qed.

Lemma parse_csv_first_tier_witness :
  exists dialect excel',
    _parse_csv (fun _ => None) (lit "a,b" ++ [13; 10]%N ++ lit "1,2")
      default_options csv_excel
    = (header_and_rows true ∘ skip_and_limit default_options
         <$> csv_reader
               (stringio_lines []
                  (normalize_line_ends (lit "a,b" ++ [13; 10]%N ++ lit "1,2")))
               dialect [0x22%N] QUOTE_MINIMAL,
       excel').
Proof.
  destruct (parse_csv_first_tier (fun _ => None)
              (lit "a,b" ++ [13; 10]%N ++ lit "1,2") default_options csv_excel)
    as (dialect & excel' & H & _); [by vm_compute|].
  by exists dialect, excel'.
Defined.

(** ** The outline renderer: the cells under a label *)

Lemma last_column_None (h : str) (headers : list str) :
  last_column h headers = None -> h ∉ headers.
Proof.
  induction headers as [|x t IH]; cbn [last_column].
  { intros _ ?%elem_of_nil. done. }
  destruct (last_column h t); [done|].
  unfold str_eqb. case_bool_decide; [done|]. intros _.
  apply not_elem_of_cons. split; [done|]. by apply IH.
Qed.

Lemma last_column_Some (h : str) (headers : list str) (j : nat) :
  last_column h headers = Some j ->
  headers !! j = Some h /\ forall j', j < j' -> headers !! j' <> Some h.
Proof.
  revert j. induction headers as [|x t IH]; intros j; cbn [last_column];
    [done|].
  destruct (last_column h t) as [j0|] eqn:E.
  - destruct (IH j0 eq_refl) as [Hj0 Hlast]. intros [= <-]. split; [done|].
    intros [|j'] Hj'; [lia|]. cbn. apply Hlast. lia.
  - apply last_column_None in E.
    unfold str_eqb. case_bool_decide as Hx; [|done].
    intros [= <-]. subst x. split; [done|].
    intros [|j'] Hlt; [lia|]. cbn. intros Hj'.
    apply E. by eapply list_elem_of_lookup_2.
Qed.

(** The dict of a record gives, for a label, the cell of the last column
    with that label. *)
Lemma row_by_header_lookup (headers row : list str) (h : str) :
  default []
    (dict_of (zip headers
                (take (length headers) (row ++ replicate (length headers) [])))
       !! h)
  = labelled_cell headers row h.
Proof.
  unfold labelled_cell.
  set (values := take _ _).
  destruct (last_column h headers) as [j|] eqn:E.
  - apply last_column_Some in E as [Hj Hlast].
    pose proof (lookup_lt_Some _ _ _ Hj) as Hlt.
    assert (values !! j = Some (nth j row [])) as Hv
      by (by apply padded_lookup).
    assert (zip headers values !! j = Some (h, nth j row [])) as Hz
      by (by apply lookup_zip_Some).
    replace (dict_of (zip headers values) !! h) with (Some (nth j row []));
      [done|].
    symmetry. apply dict_of_lookup_Some.
    exists (take j (zip headers values)), (drop (S j) (zip headers values)).
    split; [by rewrite take_drop_middle|].
    intros [x y] [m Hm]%list_elem_of_lookup. cbn.
    rewrite lookup_drop in Hm. apply lookup_zip_Some in Hm as [Hm _].
    intros ->. by apply (Hlast (S j + m) ltac:(lia)).
  - apply last_column_None in E.
    replace (dict_of (zip headers values) !! h) with (@None str); [done|].
    symmetry. apply dict_of_lookup_None.
    intros [x y] [m Hm]%list_elem_of_lookup. cbn.
    apply lookup_zip_Some in Hm as [Hm _]. intros ->.
    apply E. by eapply list_elem_of_lookup_2.
Qed.

(** X21.  The lines of a record.  After the heading, the fields give their
    bullets in order, each from the cell under its label, and an empty line
    ends the record.  The cell under a label is that of the last column with
    the label: of two columns with one label, the cell of the second is shown
    for both. *)
Theorem record_lines_by_label (headers fields : list str) (i : nat)
    (row : list str) :
  headers <> [] ->
  record_lines headers fields i row
  = Return ([lit "### " ++ record_heading headers i row]
            ++ omap (fun h => bullet (header_map_of headers !! lit "keyword")
                                {[h := labelled_cell headers row h]} h) fields
            ++ [[]])
  /\ (forall j h, headers !! j = Some h ->
        (forall j', j < j' -> headers !! j' <> Some h) ->
        labelled_cell headers row h = nth j row []).
Proof.
  intros Hne. split.
  - unfold record_lines.
    destruct (keyword_index_spec headers Hne) as (Hlt & _).
    rewrite padded_lookup by done. cbn zeta. do 3 f_equal.
    apply list_omap_ext, Forall2_same_length_lookup. split; [done|].
    intros n h h' Hh Hh'. rewrite Hh in Hh'. injection Hh' as <-.
    unfold bullet. rewrite lookup_singleton_eq.
    by rewrite row_by_header_lookup.
  - intros j h Hj Hlast. unfold labelled_cell.
    destruct (last_column h headers) as [j0|] eqn:E.
    + apply last_column_Some in E as [Hj0 Hlast0].
      destruct (Nat.lt_trichotomy j j0) as [Hlt|[->|Hlt]]; [|done|].
      * by destruct (Hlast j0 Hlt).
      * by destruct (Hlast0 j Hlt).
    + apply last_column_None in E. destruct E.
      by eapply list_elem_of_lookup_2.
Qed.

Lemma record_lines_by_label_witness :
  record_lines [lit "URL"; lit "Keyword"; lit "URL"] [lit "URL"; lit "URL"] 1
    [lit "http://a"; lit "k"; lit "b"]
  = Return [lit "### k"; lit "- **URL**: b"; lit "- **URL**: b"; []].
Proof.
  destruct (record_lines_by_label [lit "URL"; lit "Keyword"; lit "URL"]
              [lit "URL"; lit "URL"] 1 [lit "http://a"; lit "k"; lit "b"])
    as [H _]; [done|].
  rewrite H. by vm_compute.
Defined.

(** ** The outline renderer: the text as a whole *)

Lemma lstrip_by_app_keep (f : char -> bool) (u v : str) (c : char) :
  head v = Some c -> f c = false ->
  lstrip_by f (u ++ v) = lstrip_by f u ++ v.
Proof.
  intros Hv Hc. induction u as [|x u IH]; cbn.
  - destruct v as [|y v]; [done|]. injection Hv as ->. cbn. by rewrite Hc.
  - by destruct (f x).
Qed.

Lemma rstrip_by_app_keep (f : char -> bool) (a b : str) (c : char) :
  last a = Some c -> f c = false ->
  rstrip_by f (a ++ b) = a ++ rstrip_by f b.
Proof.
  intros Ha Hc. unfold rstrip_by. rewrite rev_app_distr.
  rewrite (lstrip_by_app_keep f (rev b) (rev a) c); [| |done].
  - by rewrite rev_app_distr, rev_involutive.
  - destruct a as [|x a] using rev_ind; [done|].
    rewrite last_snoc in Ha. injection Ha as ->. by rewrite rev_unit.
Qed.

Lemma join_cons_cons (sep p p' : str) (ps : list str) :
  join sep (p :: p' :: ps) = p ++ sep ++ join sep (p' :: ps).
Proof. done. Qed.

(** X22.  The text of an outline: the normalised preamble, then a body that
    starts with the title line and does not end in white space, then one line
    feed. *)
Theorem outline_text_shape (sniff : str -> option Dialect)
    (csv_text preamble detail : str) (max_rows : option Z)
    (parse : option CsvParseOptions) (positions : option str)
    (sort : option SortKey) (excel excel' : Dialect) (text : str) :
  csv_text_to_markdown_notebooklm sniff csv_text preamble detail max_rows
    parse positions sort excel
  = (Return text, excel') ->
  exists body,
    text = _normalize_preamble preamble ++ body ++ [10%N]
    /\ startswith body (lit "## Export (NotebookLM)") = true
    /\ (forall c, last body = Some c -> isspace c = false).
Proof.
  unfold csv_text_to_markdown_notebooklm, mbind, M_bind, lift.
  destruct (_parse_csv sniff csv_text (default default_options parse) excel)
    as [[[headers rows]|x1] excel1]; [|done].
  destruct (_parse_positions positions) as [ps|x2]; [|done].
  destruct (_apply_positions headers rows ps) as [hs rs].
  set (rs' := match sort, hs with
              | Some key, _ :: _ => _apply_sort rs key (length hs)
              | _, _ => rs
              end).
  destruct (outline_lines hs rs' detail max_rows) as [out|x3] eqn:E; [|done].
  intros [= <- <-]. exists (rstrip (join [10%N] out)).
  split; [done|].
  unfold outline_lines in E. apply fmap_return in E as (recs & _ & ->).
  cbn [app]. rewrite join_cons_cons.
  set (tail := join [10%N] _).
  rewrite <- app_assoc. unfold rstrip.
  rewrite (rstrip_by_app_keep isspace (lit "## Export (NotebookLM)") _ 0x29%N)
    by done.
  split; [apply startswith_app|].
  intros c Hc.
  destruct (rstrip_by_split isspace ([10%N] ++ [10%N] ++ tail)) as (r & _ & Hl).
  apply last_app_Some in Hc as [Hc|[_ Hc]]; [by apply Hl|].
  by injection Hc as <-.
Qed.

Lemma outline_text_shape_witness :
  exists text body,
    (csv_text_to_markdown_notebooklm (fun _ => None)
       (lit "Keyword,Volume" ++ [10%N] ++ lit "a,5" ++ [10%N]) (lit "Note")
       (lit "full") None
       (Some (mkCsvParseOptions (lit ",") true 0 None (lit "standard") []))
       None None csv_excel).1 = Return text
    /\ text = _normalize_preamble (lit "Note") ++ body ++ [10%N]
    /\ startswith body (lit "## Export (NotebookLM)") = true
    /\ (forall c, last body = Some c -> isspace c = false).
Proof.
  eassert (csv_text_to_markdown_notebooklm (fun _ => None)
             (lit "Keyword,Volume" ++ [10%N] ++ lit "a,5" ++ [10%N])
             (lit "Note") (lit "full") None
             (Some (mkCsvParseOptions (lit ",") true 0 None (lit "standard") []))
             None None csv_excel = (Return _, _)) as H
    by (vm_compute; reflexivity).
  destruct (outline_text_shape _ _ _ _ _ _ _ _ _ _ _ H) as (body & Hb).
  eexists _, body. split; [by rewrite H|exact Hb].
Defined.

(** ** The decoder: UTF-16 with a byte-order mark *)

Lemma utf_16_units_encode_bmp (little : bool) (text : str) :
  Forall (fun c => (c < 0x10000)%N) text ->
  utf_16_units little (utf_16_encode_bmp little text) = Return text.
Proof.
  induction 1 as [|c text Hc _ IH]; [done|].
  unfold utf_16_encode_bmp in *. cbn [flat_map].
  destruct little; cbn [app utf_16_units]; rewrite IH;
    rewrite !to_N_byte_of_N by divlia; cbn [fmap result_fmap];
    do 2 f_equal; divlia.
Qed.

Lemma utf_16_points_scalars (text : str) :
  Forall bmp_scalar text -> utf_16_points text = Return text.
Proof.
  induction 1 as [|c text Hc _ IH]; [done|].
  cbn [utf_16_points]. unfold bmp_scalar in Hc.
  replace ((0xD800 <=? c) && (c <=? 0xDBFF))%N with false by lia.
  replace ((0xDC00 <=? c) && (c <=? 0xDFFF))%N with false by lia.
  by rewrite IH.
Qed.

Lemma decode_csv_bytes_marked (little : bool) (r : bytes) :
  decode_csv_bytes ((if little then [xff; xfe] else [xfe; xff]) ++ r)
  = utf_16_units little r ≫= utf_16_points.
Proof. by destruct little, r. Qed.

(** X23.  A UTF-16 export with its byte-order mark is decoded to its text:
    for characters of the Basic Multilingual Plane, in either byte order,
    automatic decoding inverts the encoding and drops the mark. *)
Theorem decode_csv_bytes_utf_16 (text : str) :
  Forall bmp_scalar text ->
  decode_csv_bytes ([xff; xfe] ++ utf_16_encode_bmp true text) = Return text
  /\ decode_csv_bytes ([xfe; xff] ++ utf_16_encode_bmp false text)
     = Return text.
Proof.
  intros Htext.
  assert (Forall (fun c => (c < 0x10000)%N) text) as Hlt.
  { eapply Forall_impl; [exact Htext|]. unfold bmp_scalar. intros c Hc. lia. }
  rewrite (decode_csv_bytes_marked true), (decode_csv_bytes_marked false).
  rewrite !utf_16_units_encode_bmp by done. cbn [mbind result_bind].
  by rewrite utf_16_points_scalars.
Qed.

Lemma decode_csv_bytes_utf_16_witness :
  decode_csv_bytes [xff; xfe; x61; x00; x59; x01] = Return [0x61; 0x159]%N
  /\ decode_csv_bytes [xfe; xff; x00; x61; x01; x59] = Return [0x61; 0x159]%N.
Proof.
  apply (decode_csv_bytes_utf_16 [0x61; 0x159]%N).
  repeat constructor; unfold bmp_scalar; lia.
Defined.

(** ** The script *)

Lemma table_conversion_default_returns (sniff : str -> option Dialect)
    (csv_text preamble : str) (add_line_numbers : bool) (sort : option SortKey)
    (eol table_style : str) (excel : Dialect) :
  (forall sample dialect, sniff sample = Some dialect ->
     exists c, dialect_delimiter dialect = [c]) ->
  (exists c, dialect_delimiter excel = [c]) ->
  exists out excel',
    csv_text_to_markdown_table sniff csv_text preamble None None
      add_line_numbers sort eol table_style excel
    = (Return out, excel').
Proof.
  intros Hsniff [c0 Hexcel].
  unfold csv_text_to_markdown_table, mbind, M_bind.
  change (default default_options None) with default_options.
  destruct (parse_csv_tiers sniff csv_text default_options excel)
    as (d & excel' & -> & _ & _ & Hsn & Hno).
  assert (exists c, dialect_delimiter d = [c]) as [c Hd].
  { destruct (sniff (take 4096 csv_text)) as [sd|] eqn:Hs.
    - rewrite (Hsn eq_refl sd eq_refl). cbn. by eapply Hsniff.
    - rewrite (Hno eq_refl eq_refl). cbn. by eauto. }
  destruct (three_tiers_returns d (effective_quotechar default_options)
              (effective_quoting default_options)
              (normalize_line_ends csv_text) c 0x22%N Hd eq_refl)
    as [rows ->].
  cbn [fmap result_fmap].
  destruct ((header_and_rows _ ∘ skip_and_limit _) rows) as [hs rs].
  cbn. by eexists _, _.
Qed.

(** X24.  The script, with the file system and the terminal as parameters
    and under a sniffer whose dialects have a delimiter of one character.
    The file written is [data.md].  An exception of reading the input ends
    the script.  Once the input is read, the conversion fails only in
    decoding, with [UnicodeDecodeError], on an input that starts with a
    UTF-16 byte-order mark, and before anything is written; on every other
    input the script writes the header of the day and the table of the
    decoded text, then prints its closing line, and fails only where one of
    these two operations does. *)
Theorem csv_to_md_outcome (sniff : str -> option Dialect) (W E : Type)
    (read_bytes : str -> W -> (E + bytes) * W)
    (write_texts : str -> list str -> W -> (E + unit) * W)
    (print_line : str -> W -> (E + unit) * W)
    (day month year : nat) (w : W) :
  (forall sample dialect, sniff sample = Some dialect ->
     exists c, dialect_delimiter dialect = [c]) ->
  let run :=
    csv_to_md sniff W E read_bytes write_texts print_line day month year w in
  OUTPUT = lit "data.md"
  /\ (forall e w1, read_bytes INPUT w = (inl e, w1) ->
        run = (inl (Outside e), w1))
  /\ (forall raw w1, read_bytes INPUT w = (inr raw, w1) ->
        (forall x w', run = (inl (Inside x), w') ->
           x = UnicodeDecodeError /\ has_utf_16_bom raw = true /\ w' = w1)
        /\ (forall x, decode_csv_bytes raw = Raise x ->
              run = (inl (Inside x), w1))
        /\ (has_utf_16_bom raw = false ->
            exists csv_text, decode_csv_bytes raw = Return csv_text)
        /\ (forall csv_text, decode_csv_bytes raw = Return csv_text ->
            exists table_md,
              (csv_text_to_markdown_table sniff csv_text [] None None false
                 None (lit "lf") (lit "markdown") csv_excel).1
              = Return table_md
              /\ run
                 = (_ ← outside
                          (write_texts OUTPUT
                             [CONTEXT day month year; table_md]);
                    outside (print_line DONE)) w1)).
Proof.
  intros Hsniff run. split; [done|]. split.
  { intros e w1 Hread. subst run.
    unfold csv_to_md, mbind, Script_bind, outside at 1. by rewrite Hread. }
  intros raw w1 Hread.
  assert (run
          = (csv_text ← inside (decode_csv_bytes raw);
             table_md ← inside
               (csv_text_to_markdown_table sniff csv_text [] None None false
                  None (lit "lf") (lit "markdown") csv_excel).1;
             _ ← outside
                   (write_texts OUTPUT [CONTEXT day month year; table_md]);
             outside (print_line DONE)) w1) as Hrun.
  { subst run. unfold csv_to_md.
    unfold mbind at 1, Script_bind at 1, outside at 1. by rewrite Hread. }
  clearbody run. subst run.
  assert (forall csv_text, decode_csv_bytes raw = Return csv_text ->
          exists table_md,
            (csv_text_to_markdown_table sniff csv_text [] None None false
               None (lit "lf") (lit "markdown") csv_excel).1
            = Return table_md
            /\ (csv_text ← inside (decode_csv_bytes raw);
                table_md ← inside
                  (csv_text_to_markdown_table sniff csv_text [] None None
                     false None (lit "lf") (lit "markdown") csv_excel).1;
                _ ← outside
                      (write_texts OUTPUT [CONTEXT day month year; table_md]);
                outside (print_line DONE)) w1
               = (_ ← outside
                        (write_texts OUTPUT
                           [CONTEXT day month year; table_md]);
                  outside (print_line DONE)) w1) as Hconv.
  { intros csv_text Hdec.
    destruct (table_conversion_default_returns sniff csv_text [] false None
                (lit "lf") (lit "markdown") csv_excel Hsniff)
      as (out & excel' & Hout); [by exists 0x2C%N|].
    exists out. split; [by rewrite Hout|].
    unfold mbind at 1 2, Script_bind at 1 2, inside.
    rewrite Hdec, Hout. done. }
  assert (forall x, decode_csv_bytes raw = Raise x ->
            x = UnicodeDecodeError /\ has_utf_16_bom raw = true) as Hfail.
  { intros x Hdec. destruct (has_utf_16_bom raw) eqn:Hbom.
    - split; [|done]. unfold decode_csv_bytes in Hdec.
      rewrite Hbom in Hdec. by eapply utf_16_decode_raises.
    - destruct (decode_csv_bytes_returns raw Hbom) as [t Ht]. congruence. }
  split_and!.
  - intros x w' Hx.
    destruct (decode_csv_bytes raw) as [csv_text|x'] eqn:Hdec.
    + destruct (Hconv csv_text eq_refl) as (table_md & _ & Heq).
      rewrite Heq in Hx. exfalso. revert Hx.
      unfold mbind, Script_bind, outside.
      repeat case_match; congruence.
    + unfold mbind at 1, Script_bind at 1, inside at 1 in Hx.
      injection Hx as <- <-. by destruct (Hfail x' eq_refl).
  - intros x Hdec. unfold mbind at 1, Script_bind at 1, inside at 1.
    by rewrite Hdec.
  - apply decode_csv_bytes_returns.
  - exact Hconv.
Qed.

Lemma csv_to_md_outcome_witness :
  csv_to_md (fun _ => None) (list (list str)) unit
    (fun _ w => (inr [x61; x2c; xc5; x99; x0a; x31; x2c; x32; x0a], w))
    (fun name texts w => (inr tt, w ++ [name :: texts]))
    (fun text w => (inr tt, w ++ [[text]]))
    3 11 2026 []
  = (inr tt,
     [[lit "data.md"; CONTEXT 3 11 2026;
       lit "| a | " ++ [0x159%N] ++ lit " |" ++ [10%N]
         ++ lit "|---|---|" ++ [10%N]
         ++ lit "| 1 | 2 |" ++ [10%N]];
      [DONE]]).
Proof.
  destruct (csv_to_md_outcome (fun _ => None) (list (list str)) unit
              (fun _ w => (inr [x61; x2c; xc5; x99; x0a; x31; x2c; x32; x0a], w))
              (fun name texts w => (inr tt, w ++ [name :: texts]))
              (fun text w => (inr tt, w ++ [[text]]))
              3 11 2026 [])
    as (_ & _ & H); [done|].
  destruct (H _ _ eq_refl) as (_ & _ & _ & Hconv).
  destruct (Hconv (lit "a," ++ [0x159%N; 10%N] ++ lit "1,2" ++ [10%N]))
    as (table_md & Ht & Hrun); [reflexivity|].
  rewrite Hrun. vm_compute in Ht. injection Ht as <-. reflexivity.
Defined.
